(** * Panda & Dog: the per-match simulation (class [Room])

    A shallow embedding of the server-side [Room] class: the movement
    validator, the interactable state machine, guard perception, the
    respawn manager and the ping subsystem, followed by the properties
    of the specification that were checked against it.

    Conventions of the embedding.
    - A JavaScript [number] is a rational ([Q]); comparisons are the
      exact ones.  [Math.sqrt], [Math.atan2] and [Math.PI] belong to the
      host and are parameters ([MathLib]).
    - A [Map] is the list of its values in insertion order (every value
      carries its key in its [id] field); iteration visits the entries
      by position, [get] finds the first entry with the key.
    - An interactable's [state] is the string-keyed bag of the source
      ([Record<string, unknown>]), a [gmap string JsVal].
    - [Date.now()] is an explicit argument of the operations that read
      the clock; the callback handed to [setTimeout] is kept in the
      [timeouts] queue of the room until the host fires it.
    - The module [shared/constants] is not part of the sources: its
      values are the fields of [Constants]. *)

From Stdlib Require Import QArith Qround Qabs Qminmax ZArith Lia Lqa.
From stdpp Require Import base option list strings gmap.

(** ** Numbers *)

Definition Qltb (a b : Q) : bool :=
  match (a ?= b)%Q with Lt => true | _ => false end.
Definition Qleb (a b : Q) : bool :=
  match (a ?= b)%Q with Gt => false | _ => true end.
Definition Qgtb (a b : Q) : bool := Qltb b a.
Definition Qgeb (a b : Q) : bool := Qleb b a.

Definition Math_floor (a : Q) : Z := Qfloor a.
Definition Math_ceil (a : Q) : Z := Qceiling a.
Definition Math_round (a : Q) : Z := Qfloor (a + (1 # 2))%Q.
Definition Math_abs (a : Q) : Q := Qabs a.
Definition Math_min (a b : Q) : Q := if Qltb b a then b else a.

Record MathLib := {
  Math_sqrt : Q -> Q;
  Math_atan2 : Q -> Q -> Q;
  Math_PI : Q
}.

(** ** Shared types (shared/types.ts) *)

Record Vec2 := mkVec2 { vx : Q; vy : Q }.
Record WorldPos := mkPos { px : Q; py : Q; pz : Q }.

Inductive Role := dog | panda.
Inductive Direction8 :=
  DirN | DirNE | DirE | DirSE | DirS | DirSW | DirW | DirNW.

Global Instance Role_eq_dec : EqDecision Role.
Proof. solve_decision. Defined.

Definition roleName (r : Role) : string :=
  match r with dog => "dog" | panda => "panda" end.

(** [`${role}_entity`] *)
Definition entityIdOf (r : Role) : string := roleName r +:+ "_entity".

Record EntityState := {
  e_id : string;
  e_type : Role;
  e_position : WorldPos;
  e_velocity : Vec2;
  e_facing : Direction8;
  e_state : string
}.

Inductive InteractableType :=
  | door | lever | pressure_plate | crate | winch | camera_node
  | platform | button | hazard | conveyor | timed_button | mirror
  | teleporter | checkpoint | spike_trap.

Global Instance InteractableType_eq_dec : EqDecision InteractableType.
Proof. solve_decision. Defined.

(** Values found in a state bag. *)
Inductive JsVal :=
  | JUndefined
  | JBool (b : bool)
  | JNum (q : Q)
  | JStr (s : string)
  | JVec (v : Vec2)
  | JPath (l : list WorldPos).

Record InteractableState := {
  i_id : string;
  i_type : InteractableType;
  i_position : WorldPos;
  i_state : gmap string JsVal;
  i_linkedIds : list string
}.

Inductive TileType := ground | grass | stone | water | wall | bridge | void.

Global Instance TileType_eq_dec : EqDecision TileType.
Proof. solve_decision. Defined.

Record TileData := {
  t_type : TileType;
  t_elevation : Q;
  t_walkable : bool
}.

Inductive PingType := look | go | wait | interact | danger.

Record PingMarker := {
  p_id : string;
  p_position : WorldPos;
  p_type : PingType;
  p_createdBy : Role;
  p_createdAt : Q;
  p_expiresAt : Q
}.

Inductive ConditionType :=
  interactable_state | both_players_in_zone | all_objectives.

Record PuzzleCondition := {
  c_type : ConditionType;
  c_targetId : option string;
  c_state : option (list (string * JsVal));
  c_zoneMin : option WorldPos;
  c_zoneMax : option WorldPos
}.

Record Objective := {
  o_id : string;
  o_condition : PuzzleCondition;
  o_optional : bool
}.

Record PuzzleConfig := {
  pz_id : string;
  pz_objectives : list Objective;
  pz_completionReward : option string
}.

Record LevelData := {
  width : Q;
  height : Q;
  tiles : list (list TileData);
  spawns_dog : option WorldPos;
  spawns_panda : option WorldPos;
  puzzles : list PuzzleConfig
}.

(** ** Types of the Room module *)

Record PlayerPuzzleState := {
  completed : bool;
  objectives : gmap string bool
}.

Inductive RespawnReason := reason_hazard | reason_guard.

Record RespawnEvent := {
  ev_entityId : string;
  ev_role : Role;
  ev_position : WorldPos;
  ev_reason : RespawnReason
}.

Inductive GuardAlertState := idle | suspicious | alert | returning.

Global Instance GuardAlertState_eq_dec : EqDecision GuardAlertState.
Proof. solve_decision. Defined.

Record GuardState := {
  g_id : string;
  g_position : WorldPos;
  g_facing : Q;
  g_patrolRoute : list WorldPos;
  g_patrolIndex : Z;
  g_patrolDirection : Z;
  g_alertState : GuardAlertState;
  g_alertTimer : Q;
  g_lastSeenPlayerPos : option WorldPos;
  g_visionAngle : Q;
  g_visionRange : Q;
  g_moveSpeed : Q
}.

Inductive DistractionType := whistle | rock.

Record DistractionEvent := {
  d_position : WorldPos;
  d_type : DistractionType;
  d_createdAt : Q;
  d_duration : Q
}.

(** A callback registered with [setTimeout]: the crate whose
    [beingPushed] flag it clears, and the delay asked of the host. *)
Record Timeout := {
  to_crate : string;
  to_delay : Q
}.

(** The values imported from [shared/constants]. *)
Record Constants := {
  DOG_WALK_SPEED : Q;
  DOG_RUN_SPEED : Q;
  DOG_COLLISION_RADIUS : Q;
  PANDA_WALK_SPEED : Q;
  PANDA_RUN_SPEED : Q;
  PANDA_COLLISION_RADIUS : Q;
  PING_COOLDOWN : Q;
  PING_MAX_PER_PLAYER : nat;
  PING_LIFETIME : Q;
  HAZARD_COLLISION_RADIUS : Q
}.

Record Room := mkRoom {
  levelData : option LevelData;
  players : gmap string Role;
  entities : list EntityState;
  interactables : list InteractableState;
  pings : list PingMarker;
  puzzleStates : gmap string PlayerPuzzleState;
  tick_ : Z;
  paused : bool;
  lastPingTime : gmap string Q;
  pendingRespawns : list RespawnEvent;
  guards : list GuardState;
  distractions : list DistractionEvent;
  checkpointPosition : option (WorldPos * WorldPos);
  timeouts : list Timeout
}.

(** Field updates of the room. *)
Definition set_entities (es : list EntityState) (r : Room) : Room :=
  mkRoom (levelData r) (players r) es (interactables r) (pings r)
    (puzzleStates r) (tick_ r) (paused r) (lastPingTime r)
    (pendingRespawns r) (guards r) (distractions r)
    (checkpointPosition r) (timeouts r).
Definition set_interactables (its : list InteractableState) (r : Room) : Room :=
  mkRoom (levelData r) (players r) (entities r) its (pings r)
    (puzzleStates r) (tick_ r) (paused r) (lastPingTime r)
    (pendingRespawns r) (guards r) (distractions r)
    (checkpointPosition r) (timeouts r).
Definition set_pings (ps : list PingMarker) (r : Room) : Room :=
  mkRoom (levelData r) (players r) (entities r) (interactables r) ps
    (puzzleStates r) (tick_ r) (paused r) (lastPingTime r)
    (pendingRespawns r) (guards r) (distractions r)
    (checkpointPosition r) (timeouts r).
Definition set_puzzleStates (ps : gmap string PlayerPuzzleState) (r : Room) : Room :=
  mkRoom (levelData r) (players r) (entities r) (interactables r) (pings r)
    ps (tick_ r) (paused r) (lastPingTime r)
    (pendingRespawns r) (guards r) (distractions r)
    (checkpointPosition r) (timeouts r).
Definition set_tick (t : Z) (r : Room) : Room :=
  mkRoom (levelData r) (players r) (entities r) (interactables r) (pings r)
    (puzzleStates r) t (paused r) (lastPingTime r)
    (pendingRespawns r) (guards r) (distractions r)
    (checkpointPosition r) (timeouts r).
Definition set_lastPingTime (m : gmap string Q) (r : Room) : Room :=
  mkRoom (levelData r) (players r) (entities r) (interactables r) (pings r)
    (puzzleStates r) (tick_ r) (paused r) m
    (pendingRespawns r) (guards r) (distractions r)
    (checkpointPosition r) (timeouts r).
Definition set_pendingRespawns (l : list RespawnEvent) (r : Room) : Room :=
  mkRoom (levelData r) (players r) (entities r) (interactables r) (pings r)
    (puzzleStates r) (tick_ r) (paused r) (lastPingTime r)
    l (guards r) (distractions r)
    (checkpointPosition r) (timeouts r).
Definition set_guards (gs : list GuardState) (r : Room) : Room :=
  mkRoom (levelData r) (players r) (entities r) (interactables r) (pings r)
    (puzzleStates r) (tick_ r) (paused r) (lastPingTime r)
    (pendingRespawns r) gs (distractions r)
    (checkpointPosition r) (timeouts r).
Definition set_distractions (ds : list DistractionEvent) (r : Room) : Room :=
  mkRoom (levelData r) (players r) (entities r) (interactables r) (pings r)
    (puzzleStates r) (tick_ r) (paused r) (lastPingTime r)
    (pendingRespawns r) (guards r) ds
    (checkpointPosition r) (timeouts r).
Definition set_checkpointPosition (c : option (WorldPos * WorldPos)) (r : Room) : Room :=
  mkRoom (levelData r) (players r) (entities r) (interactables r) (pings r)
    (puzzleStates r) (tick_ r) (paused r) (lastPingTime r)
    (pendingRespawns r) (guards r) (distractions r)
    c (timeouts r).
Definition set_timeouts (ts : list Timeout) (r : Room) : Room :=
  mkRoom (levelData r) (players r) (entities r) (interactables r) (pings r)
    (puzzleStates r) (tick_ r) (paused r) (lastPingTime r)
    (pendingRespawns r) (guards r) (distractions r)
    (checkpointPosition r) ts.

(** ** Reading and writing state bags *)

Definition getField (st : gmap string JsVal) (k : string) : JsVal :=
  default JUndefined (st !! k).

(** Truthiness of a value in a condition. *)
Definition truthy (v : JsVal) : bool :=
  match v with
  | JUndefined => false
  | JBool b => b
  | JNum q => negb (Qeq_bool q 0)
  | JStr s => negb (String.eqb s "")
  | JVec _ | JPath _ => true
  end.

(** [===]: primitives by value, objects by identity (two object values
    met in the simulation are never the same object). *)
Definition strictEq (a b : JsVal) : bool :=
  match a, b with
  | JUndefined, JUndefined => true
  | JBool x, JBool y => Bool.eqb x y
  | JNum x, JNum y => Qeq_bool x y
  | JStr x, JStr y => String.eqb x y
  | _, _ => false
  end.

(** A field read where the source expects a number: the level data are
    typed, so the field holds one. *)
Definition numField (st : gmap string JsVal) (k : string) : Q :=
  match getField st k with JNum q => q | _ => 0%Q end.

Definition setField (k : string) (v : JsVal) (it : InteractableState)
  : InteractableState :=
  {| i_id := i_id it; i_type := i_type it; i_position := i_position it;
     i_state := <[k := v]> (i_state it); i_linkedIds := i_linkedIds it |}.

Definition setPosition (p : WorldPos) (it : InteractableState)
  : InteractableState :=
  {| i_id := i_id it; i_type := i_type it; i_position := p;
     i_state := i_state it; i_linkedIds := i_linkedIds it |}.

(** ** The interactable map *)

(** [this.interactables.get(id)] *)
Definition getI (id : string) (its : list InteractableState)
  : option InteractableState :=
  snd <$> list_find (fun it => i_id it = id) its.

(** A mutation of the object returned by [get(id)]. *)
Definition modifyI (id : string) (f : InteractableState -> InteractableState)
  (its : list InteractableState) : list InteractableState :=
  match list_find (fun it => i_id it = id) its with
  | Some (i, _) => alter f i its
  | None => its
  end.

(** [for (const [, x] of map) body(x)]: the entries are visited by
    position; [body] receives the position and the current room. *)
Definition forEachIndex {A} (n : nat) (body : nat -> A -> A) (a : A) : A :=
  foldl (fun acc i => body i acc) a (seq 0 n).

(** ** Collision / movement validator *)

Section Simulation.

Variable K : Constants.
Variable M : MathLib.

(** One corner of the collision box lands on a tile that is present in
    the grid and not walkable. *)
Definition cornerBlocked (L : LevelData) (x y : Q) (off : Q * Q) : bool :=
  let checkX := Math_floor (x + off.1)%Q in
  let checkY := Math_floor (y + off.2)%Q in
  if ((0 <=? checkY) && (checkY <? Z.of_nat (length (tiles L))))%Z then
    match tiles L !! Z.to_nat checkY with
    | Some row =>
        if ((0 <=? checkX) && (checkX <? Z.of_nat (length row)))%Z then
          match row !! Z.to_nat checkX with
          | Some tile => negb (t_walkable tile)
          | None => false
          end
        else false
    | None => false
    end
  else false.

(** A closed door whose footprint contains the point. *)
Definition doorBlocks (x y : Q) (it : InteractableState) : bool :=
  bool_decide (i_type it = door)
  && negb (truthy (getField (i_state it) "open"))
  && Qltb (Math_abs (x - px (i_position it))%Q) 0.6%Q
  && Qltb (Math_abs (y - py (i_position it))%Q) 0.6%Q.

Definition isPositionWalkable (r : Room) (x y radius : Q) : bool :=
  match levelData r with
  | None => true
  | Some L =>
      if Qltb x radius || Qgeb x (width L - radius)%Q
         || Qltb y radius || Qgeb y (height L - radius)%Q
      then false
      else
        let offsets :=
          [ ((- radius)%Q, (- radius)%Q); (radius, (- radius)%Q);
            ((- radius)%Q, radius); (radius, radius) ] in
        if existsb (cornerBlocked L x y) offsets then false
        else negb (existsb (doorBlocks x y) (interactables r))
  end.

Definition collisionRadius (role : Role) : Q :=
  match role with
  | dog => DOG_COLLISION_RADIUS K
  | panda => PANDA_COLLISION_RADIUS K
  end.

Definition validatePosition (r : Room) (currentPos targetPos : WorldPos)
  (role : Role) : WorldPos :=
  match levelData r with
  | None => targetPos
  | Some _ =>
      let radius := collisionRadius role in
      if isPositionWalkable r (px targetPos) (py targetPos) radius then
        targetPos
      else if isPositionWalkable r (px targetPos) (py currentPos) radius then
        mkPos (px targetPos) (py currentPos) (pz targetPos)
      else if isPositionWalkable r (px currentPos) (py targetPos) radius then
        mkPos (px currentPos) (py targetPos) (pz targetPos)
      else currentPos
  end.

(** ** Interactable state machine: per-tick updates *)

(** [Math.sqrt(dx * dx + dy * dy)] *)
Definition distance (dx dy : Q) : Q := Math_sqrt M (dx * dx + dy * dy)%Q.

Definition plateRadius : Q := 0.8%Q.

(** Contribution of one entity to the weight on a plate. *)
Definition entityWeight (platePos : WorldPos) (e : EntityState) : Z :=
  let dx := (px (e_position e) - px platePos)%Q in
  let dy := (py (e_position e) - py platePos)%Q in
  if Qltb (distance dx dy) plateRadius then
    (if bool_decide (e_type e = panda) then 2 else 1)%Z
  else 0%Z.

(** Contribution of one interactable (a crate) to the weight on a plate. *)
Definition crateWeight (platePos : WorldPos) (other : InteractableState) : Z :=
  if bool_decide (i_type other = crate) then
    let dx := (px (i_position other) - px platePos)%Q in
    let dy := (py (i_position other) - py platePos)%Q in
    if Qltb (distance dx dy) plateRadius then 2%Z else 0%Z
  else 0%Z.

Definition totalWeight (es : list EntityState) (its : list InteractableState)
  (platePos : WorldPos) : Z :=
  (foldl (fun acc e => acc + entityWeight platePos e) 0 es
   + foldl (fun acc o => acc + crateWeight platePos o) 0 its)%Z.

Definition requiredWeight (st : gmap string JsVal) : Z :=
  if strictEq (getField st "weightThreshold") (JStr "heavy") then 2%Z else 1%Z.

Definition isPlateFor (doorId : string) (it : InteractableState) : bool :=
  bool_decide (i_type it = pressure_plate)
  && bool_decide (doorId ∈ i_linkedIds it).

Definition plateActivated (it : InteractableState) : bool :=
  truthy (getField (i_state it) "activated").

Definition checkDoorUnlock (doorId : string) (its : list InteractableState)
  : list InteractableState :=
  let requiredPlates := List.filter (isPlateFor doorId) its in
  let allActivated := forallb plateActivated requiredPlates in
  if allActivated && (0 <? length requiredPlates)%nat then
    modifyI doorId
      (fun d => setField "open" (JBool true) (setField "locked" (JBool false) d))
      its
  else if (0 <? length requiredPlates)%nat then
    modifyI doorId
      (fun d => setField "open" (JBool false) (setField "locked" (JBool true) d))
      its
  else its.

Definition plateChangeLink (activated : bool) (its : list InteractableState)
  (linkedId : string) : list InteractableState :=
  match getI linkedId its with
  | None => its
  | Some linked =>
      if bool_decide (i_type linked = hazard) then
        modifyI linkedId (setField "active" (JBool (negb activated))) its
      else if bool_decide (i_type linked = door) then
        checkDoorUnlock (i_id linked) its
      else its
  end.

Definition handlePressurePlateChange (linkedIds : list string)
  (activated : bool) (its : list InteractableState) : list InteractableState :=
  foldl (plateChangeLink activated) its linkedIds.

Definition updatePlateAt (es : list EntityState) (i : nat)
  (its : list InteractableState) : list InteractableState :=
  match its !! i with
  | None => its
  | Some it =>
      if bool_decide (i_type it = pressure_plate) then
        let total := totalWeight es its (i_position it) in
        let wasActivated := getField (i_state it) "activated" in
        let activated := (requiredWeight (i_state it) <=? total)%Z in
        let its1 :=
          alter (fun p => setField "activated" (JBool activated)
                            (setField "currentWeight" (JNum (inject_Z total)) p))
            i its in
        if negb (strictEq (JBool activated) wasActivated) then
          handlePressurePlateChange (i_linkedIds it) activated its1
        else its1
      else its
  end.

Definition updatePressurePlates (r : Room) : Room :=
  set_interactables
    (forEachIndex (length (interactables r)) (updatePlateAt (entities r))
       (interactables r)) r.

Definition triggerWinchPlatform (its : list InteractableState)
  (linkedId : string) : list InteractableState :=
  match getI linkedId its with
  | None => its
  | Some linked =>
      if bool_decide (i_type linked = platform) then
        modifyI linkedId
          (fun p =>
             let p1 := setField "moving" (JBool false)
                         (setField "currentPosition" (JNum 1) p) in
             match getField (i_state p) "waypoints" with
             | JPath (_ :: w1 :: _) => setPosition w1 p1
             | _ => p1
             end) its
      else its
  end.

Definition triggerWinchPlatforms (linkedIds : list string)
  (its : list InteractableState) : list InteractableState :=
  foldl triggerWinchPlatform its linkedIds.

(** The lever that powers a winch is off. *)
Definition winchUnpowered (its : list InteractableState)
  (st : gmap string JsVal) : bool :=
  truthy (getField st "requiresPower")
  && truthy (getField st "poweredById")
  && match getField st "poweredById" with
     | JStr src =>
         match getI src its with
         | Some powerSource =>
             bool_decide (i_type powerSource = lever)
             && negb (strictEq (getField (i_state powerSource) "position")
                        (JStr "on"))
         | None => false
         end
     | _ => false
     end.

Definition updateWinchAt (i : nat) (its : list InteractableState)
  : list InteractableState :=
  match its !! i with
  | None => its
  | Some it =>
      if bool_decide (i_type it = winch) then
        if winchUnpowered its (i_state it) then
          alter (setField "operating" (JBool false)) i its
        else if truthy (getField (i_state it) "operating") then
          let extended :=
            Math_min 1 (numField (i_state it) "extended" + 0.02)%Q in
          let its1 := alter (setField "extended" (JNum extended)) i its in
          if Qgeb extended 1 then
            triggerWinchPlatforms (i_linkedIds it)
              (alter (setField "operating" (JBool false)) i its1)
          else its1
        else its
      else its
  end.

Definition updateWinches (r : Room) : Room :=
  set_interactables
    (forEachIndex (length (interactables r)) updateWinchAt (interactables r)) r.

Definition lerp (a b t : Q) : Q := (a + (b - a) * t)%Q.

Definition updatePlatformAt (i : nat) (its : list InteractableState)
  : list InteractableState :=
  match its !! i with
  | None => its
  | Some it =>
      if bool_decide (i_type it = platform) then
        match getField (i_state it) "waypoints" with
        | JPath (start :: end_ :: rest) =>
            if truthy (getField (i_state it) "moving") then
              let moved :=
                (numField (i_state it) "currentPosition"
                 + numField (i_state it) "direction"
                   * numField (i_state it) "speed" * 0.02)%Q in
              let clamp (p : InteractableState) :=
                if Qgeb moved 1 then
                  setField "direction" (JNum (-1))
                    (setField "currentPosition" (JNum 1) p)
                else if Qleb moved 0 then
                  setField "direction" (JNum 1)
                    (setField "currentPosition" (JNum 0) p)
                else setField "currentPosition" (JNum moved) p in
              let t := if Qgeb moved 1 then 1%Q
                       else if Qleb moved 0 then 0%Q else moved in
              alter (fun p =>
                       setPosition
                         (mkPos (lerp (px start) (px end_) t)
                                (lerp (py start) (py end_) t)
                                (lerp (pz start) (pz end_) t))
                         (clamp p)) i its
            else its
        | _ => its
        end
      else its
  end.

Definition updatePlatforms (r : Room) : Room :=
  set_interactables
    (forEachIndex (length (interactables r)) updatePlatformAt
       (interactables r)) r.

(** [state.open = !state.open] *)
Definition flipOpen (d : InteractableState) : InteractableState :=
  setField "open" (JBool (negb (truthy (getField (i_state d) "open")))) d.

Definition triggerLink (its : list InteractableState) (linkedId : string)
  : list InteractableState :=
  match getI linkedId its with
  | None => its
  | Some linked =>
      if bool_decide (i_type linked = door) then modifyI linkedId flipOpen its
      else if bool_decide (i_type linked = platform) then
        modifyI linkedId
          (fun p => setField "moving"
                      (JBool (negb (truthy (getField (i_state p) "moving")))) p)
          its
      else its
  end.

Definition triggerLinkedObjects (linkedIds : list string)
  (its : list InteractableState) : list InteractableState :=
  foldl triggerLink its linkedIds.

Definition updateTimedButtonAt (i : nat) (its : list InteractableState)
  : list InteractableState :=
  match its !! i with
  | None => its
  | Some it =>
      if bool_decide (i_type it = button) then
        let st := i_state it in
        if truthy (getField st "pressed")
           && negb (strictEq (getField st "timer") JUndefined)
           && truthy (getField st "timerDuration")
        then
          let timer := (numField st "timer" - 50)%Q in
          if Qleb timer 0 then
            triggerLinkedObjects (i_linkedIds it)
              (alter (fun b => setField "timer" JUndefined
                                 (setField "pressed" (JBool false) b)) i its)
          else alter (setField "timer" (JNum timer)) i its
        else its
      else its
  end.

Definition updateTimedButtons (r : Room) : Room :=
  set_interactables
    (forEachIndex (length (interactables r)) updateTimedButtonAt
       (interactables r)) r.

Definition isOnConveyor (entityPos conveyorPos : WorldPos)
  (st : gmap string JsVal) : bool :=
  let dx := (px entityPos - px conveyorPos)%Q in
  let dy := (py entityPos - py conveyorPos)%Q in
  let halfWidth := (numField st "width" / 2)%Q in
  let halfLength := (numField st "length" / 2)%Q in
  Qltb (Math_abs dx) halfLength && Qltb (Math_abs dy) halfWidth.

Definition conveyorDirection (st : gmap string JsVal) : Vec2 :=
  match getField st "direction" with
  | JVec v => v
  | _ => mkVec2 0 0
  end.

Definition translate (d : Vec2) (speed : Q) (p : WorldPos) : WorldPos :=
  mkPos (px p + vx d * speed)%Q (py p + vy d * speed)%Q (pz p).

Definition conveyEntity (conveyorPos : WorldPos) (st : gmap string JsVal)
  (e : EntityState) : EntityState :=
  if isOnConveyor (e_position e) conveyorPos st then
    {| e_id := e_id e; e_type := e_type e;
       e_position := translate (conveyorDirection st)
                       (numField st "speed" * 0.05)%Q (e_position e);
       e_velocity := e_velocity e; e_facing := e_facing e;
       e_state := e_state e |}
  else e.

(** The crates are visited in order; the conveyor is read once, before
    the loop ([conveyorPos], [st]): it is no crate, so the loop leaves it
    alone. *)
Definition conveyCrate (conveyorPos : WorldPos) (st : gmap string JsVal)
  (other : InteractableState) : InteractableState :=
  if bool_decide (i_type other = crate)
     && isOnConveyor (i_position other) conveyorPos st
  then setPosition (translate (conveyorDirection st)
                      (numField st "speed" * 0.05)%Q (i_position other)) other
  else other.

Definition updateConveyorAt (i : nat) (r : Room) : Room :=
  match interactables r !! i with
  | None => r
  | Some it =>
      if bool_decide (i_type it = conveyor)
         && truthy (getField (i_state it) "active")
      then
        set_interactables
          (map (conveyCrate (i_position it) (i_state it)) (interactables r))
          (set_entities
             (map (conveyEntity (i_position it) (i_state it)) (entities r)) r)
      else r
  end.

Definition updateConveyors (r : Room) : Room :=
  forEachIndex (length (interactables r)) updateConveyorAt r.

(** ** Guard perception and AI *)

Definition withMotion (pos : WorldPos) (facing : Q) (g : GuardState)
  : GuardState :=
  {| g_id := g_id g; g_position := pos; g_facing := facing;
     g_patrolRoute := g_patrolRoute g; g_patrolIndex := g_patrolIndex g;
     g_patrolDirection := g_patrolDirection g;
     g_alertState := g_alertState g; g_alertTimer := g_alertTimer g;
     g_lastSeenPlayerPos := g_lastSeenPlayerPos g;
     g_visionAngle := g_visionAngle g; g_visionRange := g_visionRange g;
     g_moveSpeed := g_moveSpeed g |}.

Definition withPatrol (index direction : Z) (g : GuardState) : GuardState :=
  {| g_id := g_id g; g_position := g_position g; g_facing := g_facing g;
     g_patrolRoute := g_patrolRoute g; g_patrolIndex := index;
     g_patrolDirection := direction;
     g_alertState := g_alertState g; g_alertTimer := g_alertTimer g;
     g_lastSeenPlayerPos := g_lastSeenPlayerPos g;
     g_visionAngle := g_visionAngle g; g_visionRange := g_visionRange g;
     g_moveSpeed := g_moveSpeed g |}.

Definition withAlert (a : GuardAlertState) (timer : Q)
  (lastSeen : option WorldPos) (g : GuardState) : GuardState :=
  {| g_id := g_id g; g_position := g_position g; g_facing := g_facing g;
     g_patrolRoute := g_patrolRoute g; g_patrolIndex := g_patrolIndex g;
     g_patrolDirection := g_patrolDirection g;
     g_alertState := a; g_alertTimer := timer;
     g_lastSeenPlayerPos := lastSeen;
     g_visionAngle := g_visionAngle g; g_visionRange := g_visionRange g;
     g_moveSpeed := g_moveSpeed g |}.

(** [Math.atan2(dy, dx) * (180 / Math.PI)] *)
Definition bearing (dx dy : Q) : Q :=
  (Math_atan2 M dy dx * (180 / Math_PI M))%Q.

(** One step of [speed] along [(dx, dy)], facing the movement. *)
Definition stepToward (dx dy dist speed : Q) (g : GuardState) : GuardState :=
  withMotion
    (mkPos (px (g_position g) + dx / dist * speed)%Q
           (py (g_position g) + dy / dist * speed)%Q
           (pz (g_position g)))
    (bearing dx dy) g.

(** [None]: reading [target.x] of an absent waypoint throws. *)
Definition updateGuardPatrol (g : GuardState) : option GuardState :=
  let n := Z.of_nat (length (g_patrolRoute g)) in
  if (n =? 0)%Z then Some g
  else
    if ((g_patrolIndex g <? 0) || (n <=? g_patrolIndex g))%Z then None
    else
      match g_patrolRoute g !! Z.to_nat (g_patrolIndex g) with
      | None => None
      | Some target =>
          let dx := (px target - px (g_position g))%Q in
          let dy := (py target - py (g_position g))%Q in
          let dist := distance dx dy in
          if Qltb dist 0.2 then
            let idx := (g_patrolIndex g + g_patrolDirection g)%Z in
            if (n <=? idx)%Z then Some (withPatrol (n - 2) (-1) g)
            else if (idx <? 0)%Z then Some (withPatrol 1 1 g)
            else Some (withPatrol idx (g_patrolDirection g) g)
          else Some (stepToward dx dy dist (g_moveSpeed g * 0.05)%Q g)
      end.

Definition updateGuardSuspicious (g : GuardState) : GuardState :=
  let timer := (g_alertTimer g - 50)%Q in
  let g1 := withAlert (g_alertState g) timer (g_lastSeenPlayerPos g) g in
  let g2 :=
    match g_lastSeenPlayerPos g1 with
    | Some seen =>
        let dx := (px seen - px (g_position g1))%Q in
        let dy := (py seen - py (g_position g1))%Q in
        let dist := distance dx dy in
        if Qgtb dist 0.5 then
          stepToward dx dy dist (g_moveSpeed g1 * 0.03)%Q g1
        else g1
    | None => g1
    end in
  if Qleb (g_alertTimer g2) 0 then withAlert returning (g_alertTimer g2) None g2
  else g2.

Definition updateGuardAlert (g : GuardState) : GuardState :=
  match g_lastSeenPlayerPos g with
  | None => withAlert suspicious 3000 None g
  | Some seen =>
      let dx := (px seen - px (g_position g))%Q in
      let dy := (py seen - py (g_position g))%Q in
      let dist := distance dx dy in
      if Qgtb dist 0.3 then stepToward dx dy dist (g_moveSpeed g * 0.07)%Q g
      else g
  end.

(** The scan for the nearest waypoint: [(nearestIndex, nearestDist)],
    [nearestDist = None] standing for [Infinity]. *)
Definition nearestStep (pos : WorldPos) (acc : nat * nat * option Q)
  (wp : WorldPos) : nat * nat * option Q :=
  let '(i, nearestIndex, nearestDist) := acc in
  let dist := distance (px wp - px pos)%Q (py wp - py pos)%Q in
  match nearestDist with
  | None => (Datatypes.S i, i, Some dist)
  | Some nd =>
      if Qltb dist nd then (Datatypes.S i, i, Some dist)
      else (Datatypes.S i, nearestIndex, nearestDist)
  end.

Definition nearestWaypoint (pos : WorldPos) (route : list WorldPos) : nat :=
  (foldl (nearestStep pos) (0%nat, 0%nat, None) route).1.2.

Definition updateGuardReturning (g : GuardState) : GuardState :=
  match g_patrolRoute g with
  | [] => withAlert idle (g_alertTimer g) (g_lastSeenPlayerPos g) g
  | _ =>
      let nearestIndex := nearestWaypoint (g_position g) (g_patrolRoute g) in
      match g_patrolRoute g !! nearestIndex with
      | None => g
      | Some target =>
          let dx := (px target - px (g_position g))%Q in
          let dy := (py target - py (g_position g))%Q in
          let dist := distance dx dy in
          if Qltb dist 0.3 then
            withAlert idle (g_alertTimer g) (g_lastSeenPlayerPos g)
              (withPatrol (Z.of_nat nearestIndex) (g_patrolDirection g) g)
          else stepToward dx dy dist (g_moveSpeed g * 0.04)%Q g
      end
  end.

Definition updateGuard (g : GuardState) : option GuardState :=
  match g_alertState g with
  | idle => updateGuardPatrol g
  | suspicious => Some (updateGuardSuspicious g)
  | alert => Some (updateGuardAlert g)
  | returning => Some (updateGuardReturning g)
  end.

(** [updateGuards]: the guards in order; the flag tells that a guard's
    update threw, which leaves that guard and the later ones as they
    were and ends the tick. *)
Fixpoint updateGuardList (gs : list GuardState) : list GuardState * bool :=
  match gs with
  | [] => ([], false)
  | g :: rest =>
      match updateGuard g with
      | None => (g :: rest, true)
      | Some g' =>
          let '(rest', threw) := updateGuardList rest in (g' :: rest', threw)
      end
  end.

Definition hearingRange (d : DistractionEvent) : Q :=
  match d_type d with whistle => 8%Q | rock => 5%Q end.

(** The guard is within earshot of the distraction. *)
Definition hears (d : DistractionEvent) (g : GuardState) : bool :=
  let dx := (px (d_position d) - px (g_position g))%Q in
  let dy := (py (d_position d) - py (g_position g))%Q in
  Qltb (distance dx dy) (hearingRange d).

Definition attract (d : DistractionEvent) (g : GuardState) : GuardState :=
  if bool_decide (g_alertState g = alert) then g
  else if hears d g then withAlert suspicious 5000 (Some (d_position d)) g
  else g.

Definition unexpired (now : Q) (d : DistractionEvent) : bool :=
  Qltb (now - d_createdAt d)%Q (d_duration d).

Definition updateDistractions (now : Q) (r : Room) : Room :=
  let ds := List.filter (unexpired now) (distractions r) in
  set_guards (foldl (fun gs d => map (attract d) gs) (guards r) ds)
    (set_distractions ds r).

(** The angle brought back into [-180, 180] by the two loops that
    subtract, then add, 360 while it is out of range (their number of
    rounds in closed form). *)
Definition normalizeAngle (a : Q) : Q :=
  let a1 := if Qgtb a 180
            then (a - 360 * inject_Z (Math_ceil ((a - 180) / 360)))%Q
            else a in
  if Qltb a1 (-180)
  then (a1 + 360 * inject_Z (Math_ceil ((-180 - a1) / 360)))%Q
  else a1.

Definition canGuardSeeEntity (r : Room) (g : GuardState) (e : EntityState)
  : bool :=
  let dx := (px (e_position e) - px (g_position g))%Q in
  let dy := (py (e_position e) - py (g_position g))%Q in
  let dist := distance dx dy in
  if Qgtb dist (g_visionRange g) then false
  else
    let angleDiff := normalizeAngle (bearing dx dy - g_facing g)%Q in
    if Qgtb (Math_abs angleDiff) (g_visionAngle g / 2)%Q then false
    else
      let steps := Math_ceil (dist * 2)%Q in
      forallb
        (fun i =>
           let t := (inject_Z (Z.of_nat i) / inject_Z steps)%Q in
           isPositionWalkable r (px (g_position g) + dx * t)%Q
             (py (g_position g) + dy * t)%Q 0.1%Q)
        (seq 1 (Z.to_nat steps - 1)).

(** ** Respawn / checkpoint manager *)

Definition getSpawnPosition (r : Room) (role : Role) : WorldPos :=
  let fallback := match role with
                  | dog => mkPos 5 5 0
                  | panda => mkPos 7 5 0
                  end in
  match levelData r with
  | Some L =>
      match (match role with
             | dog => spawns_dog L
             | panda => spawns_panda L
             end) with
      | Some spawn => spawn
      | None => fallback
      end
  | None => fallback
  end.

Definition resetEntity (pos : WorldPos) (e : EntityState) : EntityState :=
  {| e_id := e_id e; e_type := e_type e; e_position := pos;
     e_velocity := mkVec2 0 0; e_facing := e_facing e; e_state := "idle" |}.

Definition respawnEntity (ei : nat) (r : Room) : Room :=
  match entities r !! ei with
  | None => r
  | Some e =>
      let role := e_type e in
      let spawn := getSpawnPosition r role in
      set_pendingRespawns
        (pendingRespawns r
         ++ [ {| ev_entityId := e_id e; ev_role := role;
                 ev_position := spawn; ev_reason := reason_hazard |} ])
        (set_entities (alter (resetEntity spawn) ei (entities r)) r)
  end.

(** An active hazard within the collision radius of a position. *)
Definition hazardReaches (it : InteractableState) (pos : WorldPos) : bool :=
  bool_decide (i_type it = hazard)
  && truthy (getField (i_state it) "active")
  && Qltb (distance (px pos - px (i_position it))%Q
                    (py pos - py (i_position it))%Q)
          (HAZARD_COLLISION_RADIUS K).

(** The entity at position [ei] touches the hazard [it]. *)
Definition touchesHazard (r : Room) (ei : nat) (it : InteractableState)
  : bool :=
  match entities r !! ei with
  | Some e => hazardReaches it (e_position e)
  | None => false
  end.

Definition checkHazardsOf (ei : nat) (r : Room) : Room :=
  foldl (fun acc it => if touchesHazard acc ei it then respawnEntity ei acc
                       else acc)
    r (interactables r).

Definition checkHazardCollisions (r : Room) : Room :=
  forEachIndex (length (entities r)) checkHazardsOf r.

Definition checkpointFor (r : Room) (role : Role) : WorldPos :=
  match checkpointPosition r with
  | Some (dogPos, pandaPos) =>
      match role with dog => dogPos | panda => pandaPos end
  | None => getSpawnPosition r role
  end.

Definition respawnPlayersAtCheckpoint (reason : RespawnReason) (r : Room)
  : Room :=
  set_pendingRespawns
    (pendingRespawns r
     ++ map (fun e => {| ev_entityId := e_id e; ev_role := e_type e;
                         ev_position := checkpointFor r (e_type e);
                         ev_reason := reason |}) (entities r))
    (set_entities
       (map (fun e => resetEntity (checkpointFor r (e_type e)) e) (entities r))
       r).

(** First loop of [checkGuardDetection] for one guard. *)
Definition detect (r : Room) (g : GuardState) : GuardState :=
  foldl (fun acc e =>
           if canGuardSeeEntity r acc e
           then withAlert alert 5000 (Some (e_position e)) acc
           else acc)
    g (entities r).

(** Second loop, one entity: the guard at [gi] catches the entity at
    [ei]. *)
Definition catchAt (gi ei : nat) (r : Room) : Room :=
  match guards r !! gi, entities r !! ei with
  | Some g, Some e =>
      let dx := (px (e_position e) - px (g_position g))%Q in
      let dy := (py (e_position e) - py (g_position g))%Q in
      if Qltb (distance dx dy) 0.8 && bool_decide (g_alertState g = alert)
      then
        let r1 := respawnPlayersAtCheckpoint reason_guard r in
        set_guards
          (alter (fun g0 => withAlert returning (g_alertTimer g0) None g0)
             gi (guards r1)) r1
      else r
  | _, _ => r
  end.

Definition checkGuardAt (gi : nat) (r : Room) : Room :=
  let r1 := set_guards (alter (detect r) gi (guards r)) r in
  forEachIndex (length (entities r1)) (catchAt gi) r1.

Definition checkGuardDetection (r : Room) : Room :=
  forEachIndex (length (guards r)) checkGuardAt r.

(** ** Puzzle evaluator *)

Definition inZone (zoneMin zoneMax pos : WorldPos) : bool :=
  Qgeb (px pos) (px zoneMin) && Qleb (px pos) (px zoneMax)
  && Qgeb (py pos) (py zoneMin) && Qleb (py pos) (py zoneMax).

Definition checkObjective (r : Room) (c : PuzzleCondition) : bool :=
  match c_type c with
  | interactable_state =>
      match c_targetId c, c_state c with
      | Some targetId, Some expected =>
          if String.eqb targetId "" then false
          else
            match getI targetId (interactables r) with
            | None => false
            | Some it =>
                forallb (fun kv => strictEq (getField (i_state it) kv.1) kv.2)
                  expected
            end
      | _, _ => false
      end
  | both_players_in_zone =>
      match c_zoneMin c, c_zoneMax c with
      | Some zoneMin, Some zoneMax =>
          existsb (fun e => inZone zoneMin zoneMax (e_position e)
                            && bool_decide (e_type e = dog)) (entities r)
          && existsb (fun e => inZone zoneMin zoneMax (e_position e)
                               && bool_decide (e_type e = panda)) (entities r)
      | _, _ => false
      end
  | all_objectives => true
  end.

Definition grantReward (reward : option string) (its : list InteractableState)
  : list InteractableState :=
  match reward with
  | Some rewardId =>
      if String.eqb rewardId "" then its
      else
        match getI rewardId its with
        | Some it =>
            if bool_decide (i_type it = door) then
              modifyI rewardId
                (fun d => setField "open" (JBool true)
                            (setField "locked" (JBool false) d)) its
            else its
        | None => its
        end
  | None => its
  end.

Definition evalPuzzle (r : Room) (pc : PuzzleConfig) : Room :=
  match puzzleStates r !! pz_id pc with
  | None => r
  | Some ps =>
      if completed ps then r
      else
        let results :=
          map (fun o => (o, checkObjective r (o_condition o)))
            (pz_objectives pc) in
        let objs :=
          foldl (fun m oc => <[o_id oc.1 := oc.2]> m) (objectives ps) results in
        let allRequired :=
          forallb (fun oc => o_optional oc.1 || oc.2) results in
        if allRequired then
          set_interactables
            (grantReward (pz_completionReward pc) (interactables r))
            (set_puzzleStates
               (<[pz_id pc := {| completed := true; objectives := objs |}]>
                  (puzzleStates r)) r)
        else
          set_puzzleStates
            (<[pz_id pc := {| completed := false; objectives := objs |}]>
               (puzzleStates r)) r
  end.

Definition checkPuzzleCompletion (r : Room) : Room :=
  match levelData r with
  | None => r
  | Some L => foldl evalPuzzle r (puzzles L)
  end.

(** ** Pings *)

(** The ping is kept: not [now >= ping.expiresAt]. *)
Definition pingLive (now : Q) (p : PingMarker) : bool :=
  negb (Qgeb now (p_expiresAt p)).

Definition expirePings (now : Q) (r : Room) : Room :=
  set_pings (List.filter (pingLive now) (pings r)) r.

(** ** The tick *)

(** The room after the tick, and whether the tick ended by the
    exception of [updateGuards]; the two clock readings are those of
    [updateDistractions] and of [expirePings]. *)
Definition tick (clockD clockP : Q) (r : Room) : Room * bool :=
  if paused r then (r, false)
  else
    let r1 :=
      updateConveyors
        (updateTimedButtons
           (updatePlatforms
              (updateWinches
                 (updatePressurePlates (set_tick (tick_ r + 1)%Z r))))) in
    let '(gs, threw) := updateGuardList (guards r1) in
    let r2 := set_guards gs r1 in
    if threw then (r2, true)
    else
      (expirePings clockP
         (checkPuzzleCompletion
            (checkGuardDetection
               (checkHazardCollisions (updateDistractions clockD r2)))),
       false).

(** [n] ticks in a row, the clock reading [clock i] at the [i]-th;
    an exception ends the run. *)
Fixpoint ticks (clock : nat -> Q) (n : nat) (r : Room) : Room * bool :=
  match n with
  | O => (r, false)
  | Datatypes.S k =>
      let '(r1, threw) := ticks clock k r in
      if threw then (r1, true) else tick (clock k) (clock k) r1
  end.

(** ** Input handling *)

Record InputState := {
  moveX : Q;
  moveY : Q;
  run : bool;
  jump : bool;
  interact_ : bool;
  surveillance : bool;
  operateHold : bool
}.

Definition getDirection (x y : Q) : Direction8 :=
  if Qltb y 0 && Qeq_bool x 0 then DirN
  else if Qltb y 0 && Qgtb x 0 then DirNE
  else if Qeq_bool y 0 && Qgtb x 0 then DirE
  else if Qgtb y 0 && Qgtb x 0 then DirSE
  else if Qgtb y 0 && Qeq_bool x 0 then DirS
  else if Qgtb y 0 && Qltb x 0 then DirSW
  else if Qeq_bool y 0 && Qltb x 0 then DirW
  else if Qltb y 0 && Qltb x 0 then DirNW
  else DirS.

(** [this.entities.get(id)], with the position of the entry. *)
Definition findEntity (id : string) (es : list EntityState)
  : option (nat * EntityState) :=
  list_find (fun e => e_id e = id) es.

Definition handleInput (playerId : string) (tickNo : Z) (input : InputState)
  (position : WorldPos) (r : Room) : Room :=
  match players r !! playerId with
  | None => r
  | Some role =>
      match findEntity (entityIdOf role) (entities r) with
      | None => r
      | Some (ei, entity) =>
          let speed :=
            match role with
            | dog => if run input then DOG_RUN_SPEED K else DOG_WALK_SPEED K
            | panda => if run input then PANDA_RUN_SPEED K
                       else PANDA_WALK_SPEED K
            end in
          let moving :=
            negb (Qeq_bool (moveX input) 0) || negb (Qeq_bool (moveY input) 0) in
          let entity' :=
            {| e_id := e_id entity; e_type := e_type entity;
               e_position :=
                 validatePosition r (e_position entity) position role;
               e_velocity :=
                 mkVec2 (moveX input * speed)%Q (moveY input * speed)%Q;
               e_facing := if moving
                           then getDirection (moveX input) (moveY input)
                           else e_facing entity;
               e_state := if moving
                          then (if run input then "run" else "walk")
                          else "idle" |} in
          set_entities (<[ei := entity']> (entities r)) r
      end
  end.

(** ** Interaction handling *)

Record InteractionResult := {
  success : bool;
  newState : option (gmap string JsVal);
  reason : option string
}.

Definition failure (why : string) : InteractionResult :=
  {| success := false; newState := None; reason := Some why |}.

Definition canInteract (role : Role) (it : InteractableState)
  (action : string) : bool :=
  match i_type it with
  | crate => bool_decide (role = panda) && String.eqb action "push"
  | winch => bool_decide (role = panda)
  | pressure_plate => false
  | lever =>
      if truthy (getField (i_state it) "requiresStrength")
         && bool_decide (role = dog)
      then false else true
  | door =>
      if truthy (getField (i_state it) "locked") then false
      else if truthy (getField (i_state it) "requiresHeavy")
              && bool_decide (role = dog)
      then false else true
  | camera_node => bool_decide (role = dog)
  | button => true
  | _ => true
  end.

Definition tileForbidsCrate (L : LevelData) (x y : Q) : bool :=
  let tileY := Math_floor y in
  let tileX := Math_floor x in
  if ((0 <=? tileY) && (tileY <? Z.of_nat (length (tiles L))))%Z then
    match tiles L !! Z.to_nat tileY with
    | Some row =>
        if ((0 <=? tileX) && (tileX <? Z.of_nat (length row)))%Z then
          match row !! Z.to_nat tileX with
          | Some tile =>
              negb (t_walkable tile)
              || bool_decide (t_type tile = water)
              || bool_decide (t_type tile = void)
          | None => false
          end
        else false
    | None => false
    end
  else false.

Definition crateNear (x y : Q) (other : InteractableState) : bool :=
  bool_decide (i_type other = crate)
  && Qltb (Math_abs (px (i_position other) - x)%Q) 0.9%Q
  && Qltb (Math_abs (py (i_position other) - y)%Q) 0.9%Q.

Definition outOfCrateBounds (L : LevelData) (x y : Q) : bool :=
  Qltb x 1 || Qgeb x (width L - 1)%Q || Qltb y 1 || Qgeb y (height L - 1)%Q.

Definition isValidCratePosition (r : Room) (x y : Q) : bool :=
  (match levelData r with
   | Some L =>
       if outOfCrateBounds L x y then false
       else negb (tileForbidsCrate L x y)
   | None => true
   end)
  && negb (existsb (crateNear x y) (interactables r)).

(** Unit push direction inferred from the offset pusher -> crate. *)
Definition pushDirection (dx dy : Q) : Q * Q :=
  if Qgtb (Math_abs dx) (Math_abs dy)
  then ((if Qgtb dx 0 then 1 else -1)%Q, 0%Q)
  else (0%Q, (if Qgtb dy 0 then 1 else -1)%Q).

(** The accepted push, on the crate. *)
Definition pushCrate (newX newY : Q) (c : InteractableState)
  : InteractableState :=
  setPosition (mkPos newX newY (pz (i_position c)))
    (setField "gridY" (JNum (inject_Z (Math_round newY)))
       (setField "gridX" (JNum (inject_Z (Math_round newX)))
          (setField "beingPushed" (JBool true) c))).

Definition bagOf (id : string) (its : list InteractableState)
  : option (gmap string JsVal) :=
  i_state <$> getI id its.

Definition succeeded (id : string) (r : Room) : Room * InteractionResult :=
  (r, {| success := true; newState := bagOf id (interactables r);
         reason := None |}).

Definition processInteraction (it : InteractableState) (action : string)
  (role : Role) (r : Room) : Room * InteractionResult :=
  let id := i_id it in
  let its := interactables r in
  let invalid := (r, failure "Invalid action") in
  match i_type it with
  | door =>
      if String.eqb action "toggle" then
        succeeded id (set_interactables (modifyI id flipOpen its) r)
      else invalid
  | lever =>
      if String.eqb action "toggle" then
        let flipped :=
          modifyI id
            (fun l => setField "position"
               (if strictEq (getField (i_state l) "position") (JStr "off")
                then JStr "on" else JStr "off") l) its in
        succeeded id
          (set_interactables (triggerLinkedObjects (i_linkedIds it) flipped) r)
      else invalid
  | button =>
      if String.eqb action "press" then
        succeeded id
          (set_interactables
             (triggerLinkedObjects (i_linkedIds it)
                (modifyI id (setField "pressed" (JBool true)) its)) r)
      else if String.eqb action "release"
              && truthy (getField (i_state it) "momentary")
      then
        succeeded id
          (set_interactables
             (modifyI id (setField "pressed" (JBool false)) its) r)
      else invalid
  | crate =>
      if String.eqb action "push" then
        match findEntity (entityIdOf role) (entities r) with
        | None => invalid
        | Some (_, entity) =>
            let dx := (px (i_position it) - px (e_position entity))%Q in
            let dy := (py (i_position it) - py (e_position entity))%Q in
            let push := pushDirection dx dy in
            let newX := (px (i_position it) + push.1)%Q in
            let newY := (py (i_position it) + push.2)%Q in
            if isValidCratePosition r newX newY then
              succeeded id
                (set_timeouts
                   (timeouts r ++ [ {| to_crate := id; to_delay := 200 |} ])
                   (set_interactables
                      (modifyI id (pushCrate newX newY) its) r))
            else (r, failure "Cannot push there")
        end
      else invalid
  | winch =>
      if String.eqb action "operate_start" then
        succeeded id
          (set_interactables
             (modifyI id (setField "operating" (JBool true)) its) r)
      else if String.eqb action "operate_stop" then
        succeeded id
          (set_interactables
             (modifyI id (setField "operating" (JBool false)) its) r)
      else invalid
  | _ => invalid
  end.

Definition handleInteraction (playerId targetId action : string) (r : Room)
  : Room * InteractionResult :=
  match players r !! playerId with
  | None => (r, failure "Invalid player")
  | Some role =>
      match getI targetId (interactables r) with
      | None => (r, failure "Interactable not found")
      | Some it =>
          if canInteract role it action
          then processInteraction it action role r
          else (r, failure "Permission denied")
      end
  end.

(** The host runs the callback of the [n]-th pending timeout. *)
Definition fireTimeout (n : nat) (r : Room) : Room :=
  match timeouts r !! n with
  | None => r
  | Some t =>
      set_timeouts (delete n (timeouts r))
        (set_interactables
           (modifyI (to_crate t) (setField "beingPushed" (JBool false))
              (interactables r)) r)
  end.

(** ** Ping system *)

Definition pingsOf (role : Role) (ps : list PingMarker) : list PingMarker :=
  List.filter (fun p => bool_decide (p_createdBy p = role)) ps.

(** The scan for the oldest ping of a role. *)
Definition olderStep (role : Role) (oldest : option PingMarker)
  (p : PingMarker) : option PingMarker :=
  if bool_decide (p_createdBy p = role) then
    match oldest with
    | None => Some p
    | Some o => if Qltb (p_createdAt p) (p_createdAt o) then Some p else oldest
    end
  else oldest.

Definition oldestPing (role : Role) (ps : list PingMarker)
  : option PingMarker :=
  foldl (olderStep role) None ps.

(** [this.pings.delete(id)] *)
Definition deletePing (id : string) (ps : list PingMarker) : list PingMarker :=
  List.filter (fun p => negb (String.eqb (p_id p) id)) ps.

(** [this.pings.set(ping.id, ping)] *)
Definition setPing (p : PingMarker) (ps : list PingMarker) : list PingMarker :=
  match list_find (fun q => p_id q = p_id p) ps with
  | Some (i, _) => <[i := p]> ps
  | None => ps ++ [p]
  end.

Definition evictOldest (role : Role) (ps : list PingMarker) : list PingMarker :=
  match oldestPing role ps with
  | Some oldest => deletePing (p_id oldest) ps
  | None => ps
  end.

(** [now] is the reading of the clock during the call, [newId] the
    identifier drawn for the ping. *)
Definition addPing (now : Q) (newId : string) (playerId : string)
  (position : WorldPos) (pingType : PingType) (r : Room)
  : Room * option PingMarker :=
  match players r !! playerId with
  | None => (r, None)
  | Some role =>
      let lastPing :=
        default 0%Q (lastPingTime r !! playerId) in
      if Qltb (now - lastPing)%Q (PING_COOLDOWN K) then (r, None)
      else
        let playerPingCount := length (pingsOf role (pings r)) in
        let kept :=
          if (PING_MAX_PER_PLAYER K <=? playerPingCount)%nat
          then evictOldest role (pings r) else pings r in
        let ping :=
          {| p_id := newId; p_position := position; p_type := pingType;
             p_createdBy := role; p_createdAt := now;
             p_expiresAt := (now + PING_LIFETIME K)%Q |} in
        (set_lastPingTime (<[playerId := now]> (lastPingTime r))
           (set_pings (setPing ping kept) r),
         Some ping)
  end.

Definition removePing (pingId playerId : string) (r : Room) : Room * bool :=
  match list_find (fun q => p_id q = pingId) (pings r) with
  | None => (r, false)
  | Some (_, ping) =>
      if bool_decide (players r !! playerId = Some (p_createdBy ping))
      then (set_pings (deletePing pingId (pings r)) r, true)
      else (r, false)
  end.

(** ** Distractions and checkpoints *)

Definition createDistraction (now : Q) (position : WorldPos)
  (type : DistractionType) (r : Room) : Room :=
  set_distractions
    (distractions r
     ++ [ {| d_position := position; d_type := type; d_createdAt := now;
             d_duration := match type with
                           | whistle => 3000
                           | rock => 2000
                           end |} ]) r.

Definition setCheckpoint (dogPos pandaPos : WorldPos) (r : Room) : Room :=
  set_checkpointPosition (Some (dogPos, pandaPos)) r.

Definition getPendingRespawns (r : Room) : Room * list RespawnEvent :=
  (set_pendingRespawns [] r, pendingRespawns r).

End Simulation.

(** ** Sample data *)

(** Sample values for [shared/constants]; the ping values are those of
    [PROTOCOL] in [shared/protocol.ts]. *)
Definition sampleConstants : Constants :=
  {| DOG_WALK_SPEED := 3; DOG_RUN_SPEED := 5;
     DOG_COLLISION_RADIUS := 0.3;
     PANDA_WALK_SPEED := 2; PANDA_RUN_SPEED := 4;
     PANDA_COLLISION_RADIUS := 0.4;
     PING_COOLDOWN := 500; PING_MAX_PER_PLAYER := 5;
     PING_LIFETIME := 10000;
     HAZARD_COLLISION_RADIUS := 0.5 |}.

(** A square root on the rationals, exact on the squares used below
    (six decimals otherwise), and stand-ins for [atan2] and [PI]. *)
Definition sampleSqrt (q : Q) : Q :=
  (inject_Z (Z.sqrt (Qfloor (q * 1000000000000))) / 1000000)%Q.

Definition sampleMath : MathLib :=
  {| Math_sqrt := sampleSqrt;
     Math_atan2 := fun _ _ => 0%Q;
     Math_PI := (355 # 113)%Q |}.

Definition groundTile : TileData :=
  {| t_type := ground; t_elevation := 0; t_walkable := true |}.

Definition floorLevel (w h : nat) : LevelData :=
  {| width := inject_Z (Z.of_nat w); height := inject_Z (Z.of_nat h);
     tiles := replicate h (replicate w groundTile);
     spawns_dog := Some (mkPos 1 1 0); spawns_panda := Some (mkPos 2 1 0);
     puzzles := [] |}.

Definition emptyRoom : Room :=
  mkRoom None ∅ [] [] [] ∅ 0 false ∅ [] [] [] None [].

Definition bag (l : list (string * JsVal)) : gmap string JsVal :=
  list_to_map l.

Definition playerEntity (role : Role) (pos : WorldPos) : EntityState :=
  {| e_id := entityIdOf role; e_type := role; e_position := pos;
     e_velocity := mkVec2 0 0; e_facing := DirS; e_state := "idle" |}.

Definition bothPlayers : gmap string Role :=
  <["p1" := dog]> (<["p2" := panda]> ∅).


(** The panda at (2,2), diagonal to a crate at (3,3). *)
Definition crate1 : InteractableState :=
  {| i_id := "crate_1"; i_type := crate; i_position := mkPos 3 3 0;
     i_state := bag [("gridX", JNum 3); ("gridY", JNum 3);
                     ("beingPushed", JBool false)];
     i_linkedIds := [] |}.

Definition crateRoom : Room :=
  mkRoom (Some (floorLevel 8 8)) bothPlayers
    [playerEntity dog (mkPos 6 6 0); playerEntity panda (mkPos 2 2 0)]
    [crate1] [] ∅ 0 false ∅ [] [] [] None [].

(** A lever linked to a locked, closed door. *)
Definition lever1 : InteractableState :=
  {| i_id := "lever_1"; i_type := lever; i_position := mkPos 8 8 0;
     i_state := bag [("position", JStr "off");
                     ("requiresStrength", JBool false)];
     i_linkedIds := ["door_1"] |}.

Definition lockedDoor : InteractableState :=
  {| i_id := "door_1"; i_type := door; i_position := mkPos 10 5 0;
     i_state := bag [("open", JBool false); ("locked", JBool true);
                     ("requiresHeavy", JBool false)];
     i_linkedIds := [] |}.

Definition leverRoom : Room :=
  mkRoom None bothPlayers [playerEntity dog (mkPos 5 5 0)]
    [lockedDoor; lever1] [] ∅ 0 false ∅ [] [] [] None [].

(** Five pings of the dog, the last one made at time 500. *)
Definition dogPing (id : string) (at_ : Q) : PingMarker :=
  {| p_id := id; p_position := mkPos 1 1 0; p_type := look;
     p_createdBy := dog; p_createdAt := at_;
     p_expiresAt := (at_ + 10000)%Q |}.

Definition fullPingRoom : Room :=
  mkRoom None bothPlayers [] []
    [dogPing "a" 300; dogPing "b" 100; dogPing "c" 200;
     dogPing "d" 400; dogPing "e" 500]
    ∅ 0 false (<["p1" := 500%Q]> ∅) [] [] [] None [].

(** ** Relations between two states of the interactable map *)

(** The same entry up to its position and state bag. *)
Definition sameKind (a b : InteractableState) : Prop :=
  i_id a = i_id b /\ i_type a = i_type b /\ i_linkedIds a = i_linkedIds b.

(** The same entry up to its state bag. *)
Definition sameShape (a b : InteractableState) : Prop :=
  sameKind a b /\ i_position a = i_position b.

(** A pressure plate is left as it was. *)
Definition plateKept (a b : InteractableState) : Prop :=
  i_type a = pressure_plate -> b = a.

Definition offPlates (a b : InteractableState) : Prop :=
  sameKind a b /\ plateKept a b.

Definition offPlatesStill (a b : InteractableState) : Prop :=
  sameShape a b /\ plateKept a b.

(** What the plate pass writes on a plate carrying [total]. *)
Definition pressPlate (total : Z) (p : InteractableState) : InteractableState :=
  setField "activated" (JBool (requiredWeight (i_state p) <=? total)%Z)
    (setField "currentWeight" (JNum (inject_Z total)) p).

(** The flags read by [checkDoorUnlock] for a door. *)
Definition plateFlags (doorId : string) (its : list InteractableState)
  : list bool :=
  map plateActivated (List.filter (isPlateFor doorId) its).

(** The state [checkDoorUnlock] gives a door with these flags. *)
Definition doorVerdict (flags : list bool) (d : InteractableState) : Prop :=
  if forallb id flags
  then getField (i_state d) "locked" = JBool false
       /\ getField (i_state d) "open" = JBool true
  else getField (i_state d) "locked" = JBool true
       /\ getField (i_state d) "open" = JBool false.

(** ** Pressure-plate weight, in the words of the specification *)

Definition roleWeight (role : Role) : Z :=
  match role with dog => 1%Z | panda => 2%Z end.

(** The planar distance to the plate centre is below the fixed radius. *)
Definition withinPlate (M : MathLib) (platePos pos : WorldPos) : bool :=
  Qltb (distance M (px pos - px platePos)%Q (py pos - py platePos)%Q)
    plateRadius.

(** Sum of the weights of the entities (dog 1, panda 2) and of the crates
    (2 each) within the radius of the plate. *)
Definition plateLoad (M : MathLib) (es : list EntityState)
  (its : list InteractableState) (platePos : WorldPos) : Z :=
  (foldr Z.add 0
     (map (fun e => roleWeight (e_type e))
        (List.filter (fun e => withinPlate M platePos (e_position e)) es))
   + 2 * Z.of_nat
           (length
              (List.filter
                 (fun o => bool_decide (i_type o = crate)
                           && withinPlate M platePos (i_position o)) its)))%Z.

(** The fields no step of the tick writes, except [updateDistractions]
    ([distractions]), [expirePings] ([pings]) and the counter: they are
    the same in both rooms. *)
Definition sameOuter (a b : Room) : Prop :=
  levelData b = levelData a /\ players b = players a
  /\ pings b = pings a /\ lastPingTime b = lastPingTime a
  /\ distractions b = distractions a
  /\ checkpointPosition b = checkpointPosition a
  /\ paused b = paused a /\ timeouts b = timeouts a /\ tick_ b = tick_ a.

(** A light and a heavy plate, both linked to a locked gate. *)
Definition plateLight : InteractableState :=
  {| i_id := "plate_light"; i_type := pressure_plate;
     i_position := mkPos 3 3 0;
     i_state := bag [("activated", JBool false);
                     ("weightThreshold", JStr "light");
                     ("currentWeight", JNum 0)];
     i_linkedIds := ["gate"] |}.

Definition plateHeavy : InteractableState :=
  {| i_id := "plate_heavy"; i_type := pressure_plate;
     i_position := mkPos 6 3 0;
     i_state := bag [("activated", JBool false);
                     ("weightThreshold", JStr "heavy");
                     ("currentWeight", JNum 0)];
     i_linkedIds := ["gate"] |}.

Definition gate : InteractableState :=
  {| i_id := "gate"; i_type := door; i_position := mkPos 5 8 0;
     i_state := bag [("open", JBool false); ("locked", JBool true);
                     ("requiresHeavy", JBool false)];
     i_linkedIds := [] |}.

(** The panda stands on the heavy plate, the dog at [dogPos]. *)
Definition plateRoom (dogPos : WorldPos) : Room :=
  mkRoom (Some (floorLevel 10 10)) bothPlayers
    [playerEntity dog dogPos; playerEntity panda (mkPos 6 3 0)]
    [plateLight; plateHeavy; gate] [] ∅ 0 false ∅ [] [] [] None [].

(** Same kind, and the flag a door reads on its plates is kept. *)
Definition flagKept (doorId : string) (a b : InteractableState) : Prop :=
  sameKind a b
  /\ (isPlateFor doorId a = true -> plateActivated b = plateActivated a).

(** The timed button of the Warehouse level with its gate. *)
Definition timedButton (pressed timer : JsVal) : InteractableState :=
  {| i_id := "timed_btn_1a"; i_type := button; i_position := mkPos 3 3 1;
     i_state := bag [("pressed", pressed); ("momentary", JBool true);
                     ("timer", timer); ("timerDuration", JNum 5000)];
     i_linkedIds := ["dock_gate"] |}.

Definition dockGate (open : bool) : InteractableState :=
  {| i_id := "dock_gate"; i_type := door; i_position := mkPos 12 (19 # 2) 0;
     i_state := bag [("open", JBool open); ("locked", JBool true);
                     ("requiresHeavy", JBool false)];
     i_linkedIds := [] |}.

Definition buttonRoom (b : InteractableState) (gateOpen : bool) : Room :=
  mkRoom (Some (floorLevel 20 20)) bothPlayers
    [playerEntity dog (mkPos 3 3 0); playerEntity panda (mkPos 7 8 0)]
    [b; dockGate gateOpen] [] ∅ 0 false ∅ [] [] [] None [].

(** The button as the level declares it. *)
Definition warehouseRoom : Room :=
  buttonRoom (timedButton (JBool false) JUndefined) false.

(** The clock of a driver that ticks every 50 ms. *)
Definition clock50 (i : nat) : Q := (50 * inject_Z (Z.of_nat i))%Q.

Definition fieldOf (id key : string) (r : Room) : option JsVal :=
  (fun it => getField (i_state it) key) <$> getI id (interactables r).

(** An active hazard at (4,4) with the dog on it; the checkpoint was set
    to (8,8) and (9,8), the level spawns are (1,1) and (2,1). *)
Definition spikes : InteractableState :=
  {| i_id := "spikes_1"; i_type := hazard; i_position := mkPos 4 4 0;
     i_state := bag [("active", JBool true); ("hazardType", JStr "spikes")];
     i_linkedIds := [] |}.

Definition hazardRoom : Room :=
  setCheckpoint (mkPos 8 8 0) (mkPos 9 8 0)
    (mkRoom (Some (floorLevel 10 10)) bothPlayers
       [playerEntity dog (mkPos 4 4 0); playerEntity panda (mkPos 6 6 0)]
       [spikes] [] ∅ 0 false ∅ [] [] [] None []).

(** The respawn events queued for one entity. *)
Definition eventsOf (id : string) (evs : list RespawnEvent)
  : list RespawnEvent :=
  List.filter (fun ev => String.eqb (ev_entityId ev) id) evs.

(** ** Phases of a tick *)

(** The room after the interactable passes, when [updateGuards] starts. *)
Definition beforeGuards (M : MathLib) (r : Room) : Room :=
  updateConveyors
    (updateTimedButtons
       (updatePlatforms
          (updateWinches
             (updatePressurePlates M (set_tick (tick_ r + 1)%Z r))))).

(** The room as [checkGuardDetection] finds it (the guards updated, the
    distractions heard, the hazards checked) ... *)
Definition beforeDetection (K : Constants) (M : MathLib) (clockD : Q)
  (r : Room) : Room :=
  checkHazardCollisions K M
    (updateDistractions M clockD
       (set_guards (updateGuardList M (guards (beforeGuards M r))).1
          (beforeGuards M r))).

(** ... and when its loop reaches the guard at position [gi]. *)
Definition detectionTurn (K : Constants) (M : MathLib) (clockD : Q)
  (gi : nat) (r : Room) : Room :=
  forEachIndex gi (checkGuardAt M) (beforeDetection K M clockD r).

(** A guard in front of a whistle blown at time 0, and a ping made at
    time 100. *)
Definition sentry : GuardState :=
  {| g_id := "guard_1"; g_position := mkPos 5 5 0; g_facing := 0;
     g_patrolRoute := []; g_patrolIndex := 0; g_patrolDirection := 1;
     g_alertState := idle; g_alertTimer := 0;
     g_lastSeenPlayerPos := None;
     g_visionAngle := 60; g_visionRange := 6; g_moveSpeed := 2 |}.

Definition whistleRoom : Room :=
  createDistraction 0 (mkPos 5 8 0) whistle
    (mkRoom (Some (floorLevel 10 10)) bothPlayers [] []
       [dogPing "a" 100] ∅ 0 false ∅ [] [sentry] [] None []).

(** The crate room after the panda's push, the callback still pending. *)
Definition pushedRoom : Room :=
  (handleInteraction "p2" "crate_1" "push" crateRoom).1.

(** Scenario D: the sentry faces the dog, five tiles away on open
    floor. *)
Definition sentryRoom : Room :=
  mkRoom (Some (floorLevel 12 12)) bothPlayers
    [playerEntity dog (mkPos 10 5 0)] [] [] ∅ 0 false ∅ [] [sentry] []
    None [].

(** ** Linked objects, by position in the map *)

(** The position of the entry [get(id)] returns. *)
Definition indexOf (id : string) (its : list InteractableState) : option nat :=
  fst <$> list_find (fun it => i_id it = id) its.

(** What one visit of [triggerLinkedObjects] does to the linked object. *)
Definition toggleLinked (a : InteractableState) : InteractableState :=
  if bool_decide (i_type a = door) then flipOpen a
  else if bool_decide (i_type a = platform) then
    setField "moving"
      (JBool (negb (truthy (getField (i_state a) "moving")))) a
  else a.

(** What a toggle does to the lever itself. *)
Definition flipLever (l : InteractableState) : InteractableState :=
  setField "position"
    (if strictEq (getField (i_state l) "position") (JStr "off")
     then JStr "on" else JStr "off") l.

(** How many of the links resolve to the entry at position [j]. *)
Definition linkCount (links : list string) (its : list InteractableState)
  (j : nat) : nat :=
  length (List.filter (fun l => bool_decide (indexOf l its = Some j)) links).

(** The same position, and a crate or a winch is left as it was. *)
Definition heavyKept (a b : InteractableState) : Prop :=
  sameShape a b /\ (i_type a = crate \/ i_type a = winch -> b = a).

(** The same entity up to what it is doing: id and role. *)
Definition sameEntity (a b : EntityState) : Prop :=
  e_id a = e_id b /\ e_type a = e_type b.

(** ** Guards over several updates *)

(** A patrol the guard can follow for ever: no route at all, or a route
    of at least two waypoints, the index within it and the direction a
    unit step. *)
Definition patrolOk (g : GuardState) : Prop :=
  g_patrolRoute g = []
  \/ ((2 <= length (g_patrolRoute g))%nat
      /\ (0 <= g_patrolIndex g < Z.of_nat (length (g_patrolRoute g)))%Z
      /\ (g_patrolDirection g = 1 \/ g_patrolDirection g = -1)%Z).

(** The guard after [n] calls of [updateGuards], unless one threw. *)
Fixpoint updateGuardTimes (M : MathLib) (n : nat) (g : GuardState)
  : option GuardState :=
  match n with
  | O => Some g
  | Datatypes.S k => updateGuardTimes M k g ≫= updateGuard M
  end.

(** ** Puzzle queries *)

Definition isLevelComplete (r : Room) : bool :=
  forallb (fun kv => completed kv.2) (map_to_list (puzzleStates r))
  && (0 <? size (puzzleStates r))%nat.

Definition getCompletedPuzzleCount (r : Room) : nat :=
  length (List.filter (fun kv => completed kv.2)
            (map_to_list (puzzleStates r))).

Definition getTotalPuzzleCount (r : Room) : nat := size (puzzleStates r).

(** The puzzle states of [b] are those of [a], except that a puzzle that
    was not completed may have new objective flags and be completed. *)
Definition puzzlesAdvance (a b : gmap string PlayerPuzzleState) : Prop :=
  forall id,
    match a !! id with
    | None => b !! id = None
    | Some ps =>
        if completed ps then b !! id = Some ps
        else exists ps', b !! id = Some ps'
    end.

(** ** One entry under a pass *)

(** What [updatePlatforms] does to one entry. *)
Definition platformStep (it : InteractableState) : InteractableState :=
  if bool_decide (i_type it = platform) then
    match getField (i_state it) "waypoints" with
    | JPath (start :: end_ :: rest) =>
        if truthy (getField (i_state it) "moving") then
          let moved :=
            (numField (i_state it) "currentPosition"
             + numField (i_state it) "direction"
               * numField (i_state it) "speed" * 0.02)%Q in
          let clamped :=
            if Qgeb moved 1 then
              setField "direction" (JNum (-1))
                (setField "currentPosition" (JNum 1) it)
            else if Qleb moved 0 then
              setField "direction" (JNum 1)
                (setField "currentPosition" (JNum 0) it)
            else setField "currentPosition" (JNum moved) it in
          let t := if Qgeb moved 1 then 1%Q
                   else if Qleb moved 0 then 0%Q else moved in
          setPosition
            (mkPos (lerp (px start) (px end_) t)
                   (lerp (py start) (py end_) t)
                   (lerp (pz start) (pz end_) t)) clamped
        else it
    | _ => it
    end
  else it.

(** The collision box of radius [radius] around [pos] lies within the
    bounds of the level. *)
Definition inBounds (L : LevelData) (radius : Q) (pos : WorldPos) : Prop :=
  (radius <= px pos)%Q /\ (px pos < width L - radius)%Q
  /\ (radius <= py pos)%Q /\ (py pos < height L - radius)%Q.

(** The entry is a conveyor that is running. *)
Definition activeBelt (c : InteractableState) : bool :=
  bool_decide (i_type c = conveyor) && truthy (getField (i_state c) "active").

(** Same kind, and a conveyor is left as it was. *)
Definition beltKept (a b : InteractableState) : Prop :=
  sameKind a b /\ (i_type a = conveyor -> b = a).

(** ** Sample data for the further properties *)

(** A guard walking between two waypoints, one posted on a single
    waypoint, one listening, one chasing. *)
Definition walker : GuardState :=
  {| g_id := "guard_2"; g_position := mkPos 2 2 0; g_facing := 0;
     g_patrolRoute := [mkPos 2 2 0; mkPos 6 2 0];
     g_patrolIndex := 0; g_patrolDirection := 1;
     g_alertState := idle; g_alertTimer := 0;
     g_lastSeenPlayerPos := None;
     g_visionAngle := 60; g_visionRange := 6; g_moveSpeed := 2 |}.

Definition patrolRoom : Room :=
  mkRoom (Some (floorLevel 12 12)) bothPlayers
    [playerEntity dog (mkPos 10 10 0)] [] [] ∅ 0 false ∅ [] [walker] []
    None [].

Definition loneGuard : GuardState :=
  {| g_id := "guard_3"; g_position := mkPos 5 5 0; g_facing := 0;
     g_patrolRoute := [mkPos 5 5 0];
     g_patrolIndex := 0; g_patrolDirection := 1;
     g_alertState := idle; g_alertTimer := 0;
     g_lastSeenPlayerPos := None;
     g_visionAngle := 60; g_visionRange := 6; g_moveSpeed := 2 |}.

Definition listener : GuardState :=
  withAlert suspicious 100 (Some (mkPos 5 8 0)) sentry.

Definition chaser : GuardState :=
  withAlert alert 5000 (Some (mkPos 5 (11 # 2) 0)) sentry.

(** The chaser half a tile from the dog; the checkpoint was set. *)
Definition chaseRoom : Room :=
  setCheckpoint (mkPos 8 8 0) (mkPos 9 8 0)
    (mkRoom (Some (floorLevel 12 12)) bothPlayers
       [playerEntity dog (mkPos 5 (11 # 2) 0);
        playerEntity panda (mkPos 2 2 0)]
       [] [] ∅ 0 false ∅ [] [chaser] [] None []).

(** A platform about to reach the upper end of its path. *)
Definition lift : InteractableState :=
  {| i_id := "lift_1"; i_type := platform; i_position := mkPos 2 2 0;
     i_state := bag [("currentPosition", JNum (99 # 100));
                     ("moving", JBool true); ("direction", JNum 1);
                     ("speed", JNum 1);
                     ("waypoints", JPath [mkPos 2 2 0; mkPos 2 2 2])];
     i_linkedIds := [] |}.

Definition liftRoom : Room :=
  mkRoom (Some (floorLevel 8 8)) bothPlayers [] [lift] [] ∅ 0 false ∅ []
    [] [] None [].

(** ** One winch under the winch pass *)

(** What [updateWinches] does to a winch, the levers read in [its]. *)
Definition winchStep (its : list InteractableState) (w : InteractableState)
  : InteractableState :=
  if winchUnpowered its (i_state w) then setField "operating" (JBool false) w
  else if truthy (getField (i_state w) "operating") then
    let extended := Math_min 1 (numField (i_state w) "extended" + 0.02)%Q in
    if Qgeb extended 1
    then setField "operating" (JBool false)
           (setField "extended" (JNum extended) w)
    else setField "extended" (JNum extended) w
  else w.

(** Same kind, and what is neither a platform nor a winch is left as it
    was. *)
Definition winchPassKept (a b : InteractableState) : Prop :=
  sameKind a b /\ (i_type a <> platform -> i_type a <> winch -> b = a).

(** Same kind, and what is no platform is left as it was. *)
Definition platformOnly (a b : InteractableState) : Prop :=
  sameKind a b /\ (i_type a <> platform -> b = a).

(** A platform at the raised end of its path. *)
Definition raised (p : InteractableState) : Prop :=
  getField (i_state p) "currentPosition" = JNum 1
  /\ getField (i_state p) "moving" = JBool false
  /\ forall w0 w1 rest,
       getField (i_state p) "waypoints" = JPath (w0 :: w1 :: rest) ->
       i_position p = w1.

(** Same kind; a platform keeps its waypoints and, once raised, stays
    raised. *)
Definition raisedKept (a b : InteractableState) : Prop :=
  sameKind a b
  /\ (i_type a = platform ->
      getField (i_state b) "waypoints" = getField (i_state a) "waypoints"
      /\ (raised a -> raised b)).

(** ** Doors opened as a reward *)

(** A door that is open and unlocked. *)
Definition openDoor (d : InteractableState) : Prop :=
  getField (i_state d) "open" = JBool true
  /\ getField (i_state d) "locked" = JBool false.

(** Same kind, and an open, unlocked door stays so. *)
Definition openKept (a b : InteractableState) : Prop :=
  sameKind a b /\ (i_type a = door -> openDoor a -> openDoor b).

(** * The room object in full: lobby, players, game control

    The fields of the [Room] class that the simulation does not read
    ([roomCode], [levelId], [status], [createdAt], [startedAt]), around
    the room of the simulation.  The [players] map is iterated by
    [getPlayerByRole], so the order in which its keys were inserted is
    kept beside it ([playerOrder]). *)

Inductive RoomStatus :=
  st_waiting | st_ready | st_playing | st_paused | st_completed.

Global Instance RoomStatus_eq_dec : EqDecision RoomStatus.
Proof. solve_decision. Defined.

Record RoomObject := mkObject {
  sim : Room;
  playerOrder : list string;
  roomCode : string;
  levelId : string;
  status : RoomStatus;
  createdAt : Q;
  startedAt : Q
}.

Definition set_players (ps : gmap string Role) (r : Room) : Room :=
  mkRoom (levelData r) ps (entities r) (interactables r) (pings r)
    (puzzleStates r) (tick_ r) (paused r) (lastPingTime r)
    (pendingRespawns r) (guards r) (distractions r)
    (checkpointPosition r) (timeouts r).

Definition set_paused (b : bool) (r : Room) : Room :=
  mkRoom (levelData r) (players r) (entities r) (interactables r) (pings r)
    (puzzleStates r) (tick_ r) b (lastPingTime r)
    (pendingRespawns r) (guards r) (distractions r)
    (checkpointPosition r) (timeouts r).

Definition with_sim (r : Room) (o : RoomObject) : RoomObject :=
  mkObject r (playerOrder o) (roomCode o) (levelId o) (status o)
    (createdAt o) (startedAt o).

Definition with_status (s : RoomStatus) (o : RoomObject) : RoomObject :=
  mkObject (sim o) (playerOrder o) (roomCode o) (levelId o) s
    (createdAt o) (startedAt o).

(** [new Room(roomCode, levelId, creatorId)]: the creator is always the
    dog; [now] is the reading of the clock. *)
Definition newRoom (now : Q) (code level creatorId : string) : RoomObject :=
  {| sim := mkRoom None {[ creatorId := dog ]} [] [] [] ∅ 0 false ∅ [] [] []
              None [];
     playerOrder := [creatorId];
     roomCode := code; levelId := level; status := st_waiting;
     createdAt := now; startedAt := 0 |}.

(** ** Player management *)

Definition getPlayerRole (playerId : string) (o : RoomObject) : option Role :=
  players (sim o) !! playerId.

(** The first player, in insertion order, that holds the role. *)
Definition getPlayerByRole (role : Role) (o : RoomObject) : option string :=
  snd <$> list_find (fun id => players (sim o) !! id = Some role)
            (playerOrder o).

(** An id in a condition: [undefined] and the empty string are falsy. *)
Definition truthyId (x : option string) : bool :=
  match x with
  | Some id => negb (String.eqb id "")
  | None => false
  end.

Definition isFull (o : RoomObject) : bool := (size (players (sim o)) =? 2)%nat.
Definition isEmpty (o : RoomObject) : bool := (size (players (sim o)) =? 0)%nat.
Definition isPlaying (o : RoomObject) : bool :=
  bool_decide (status o = st_playing).

(** [this.entities.set(e.id, e)] and [this.entities.delete(id)] *)
Definition setEntity (e : EntityState) (es : list EntityState)
  : list EntityState :=
  match list_find (fun x => e_id x = e_id e) es with
  | Some (i, _) => <[i := e]> es
  | None => es ++ [e]
  end.

Definition deleteEntity (id : string) (es : list EntityState)
  : list EntityState :=
  List.filter (fun x => negb (String.eqb (e_id x) id)) es.

Definition createPlayerEntity (role : Role) (r : Room) : Room :=
  set_entities
    (setEntity {| e_id := entityIdOf role; e_type := role;
                  e_position := getSpawnPosition r role;
                  e_velocity := mkVec2 0 0; e_facing := DirS;
                  e_state := "idle" |} (entities r)) r.

(** [this.players.set(playerId, role)] on the insertion order. *)
Definition orderWith (playerId : string) (order : list string) : list string :=
  if bool_decide (playerId ∈ order) then order else order ++ [playerId].

Definition addPlayer (playerId : string) (role : Role) (o : RoomObject)
  : RoomObject * bool :=
  if (2 <=? size (players (sim o)))%nat then (o, false)
  else if truthyId (getPlayerByRole role o) then (o, false)
  else
    let ps := <[playerId := role]> (players (sim o)) in
    (mkObject (createPlayerEntity role (set_players ps (sim o)))
       (orderWith playerId (playerOrder o)) (roomCode o) (levelId o)
       (if (size ps =? 2)%nat then st_ready else status o)
       (createdAt o) (startedAt o),
     true).

Definition removePlayer (playerId : string) (o : RoomObject) : RoomObject :=
  let role := players (sim o) !! playerId in
  let ps := delete playerId (players (sim o)) in
  let es := match role with
            | Some role => deleteEntity (entityIdOf role) (entities (sim o))
            | None => entities (sim o)
            end in
  mkObject (set_entities es (set_players ps (sim o)))
    (List.filter (fun id => negb (String.eqb id playerId)) (playerOrder o))
    (roomCode o) (levelId o)
    (if bool_decide (status o = st_playing) then st_paused
     else if (size ps =? 0)%nat then st_waiting else status o)
    (createdAt o) (startedAt o).

(** ** Game control *)

Definition setPaused (b : bool) (o : RoomObject) : RoomObject :=
  with_status (if b then st_paused else st_playing)
    (with_sim (set_paused b (sim o)) o).

Definition getTick (o : RoomObject) : Z := tick_ (sim o).

Definition getElapsedTime (now : Q) (o : RoomObject) : Q :=
  if Qgtb (startedAt o) 0 then (now - startedAt o)%Q else 0%Q.


(** ** Loading a level *)

Record InteractableConfig := {
  ic_id : string;
  ic_type : InteractableType;
  ic_position : WorldPos;
  ic_initialState : gmap string JsVal;
  ic_linkedIds : option (list string)
}.

(** A level of the registry: the data the simulation reads, and the
    interactables it declares. *)
Record Level := {
  lv_data : LevelData;
  lv_interactables : list InteractableConfig
}.

(** [this.interactables.set(it.id, it)] *)
Definition setI (it : InteractableState) (its : list InteractableState)
  : list InteractableState :=
  match list_find (fun x => i_id x = i_id it) its with
  | Some (i, _) => <[i := it]> its
  | None => its ++ [it]
  end.

Definition createPlaceholderLevel (r : Room) : Room :=
  set_interactables
    (setI {| i_id := "lever_1"; i_type := lever; i_position := mkPos 8 8 0;
             i_state := <["position" := JStr "off"]>
                          (<["requiresStrength" := JBool false]> ∅);
             i_linkedIds := ["door_1"] |}
       (setI {| i_id := "door_1"; i_type := door; i_position := mkPos 10 5 0;
                i_state := <["open" := JBool false]>
                             (<["locked" := JBool false]>
                                (<["requiresHeavy" := JBool false]> ∅));
                i_linkedIds := [] |}
          (interactables r))) r.

Definition loadInteractable (its : list InteractableState)
  (c : InteractableConfig) : list InteractableState :=
  setI {| i_id := ic_id c; i_type := ic_type c; i_position := ic_position c;
          i_state := ic_initialState c;
          i_linkedIds := default [] (ic_linkedIds c) |} its.

Definition freshPuzzleState (pc : PuzzleConfig) : PlayerPuzzleState :=
  {| completed := false;
     objectives := foldl (fun m o => <[o_id o := false]> m) ∅
                     (pz_objectives pc) |}.

Definition moveToSpawn (L : LevelData) (e : EntityState) : EntityState :=
  match (match e_type e with
         | dog => spawns_dog L
         | panda => spawns_panda L
         end) with
  | Some spawn =>
      {| e_id := e_id e; e_type := e_type e; e_position := spawn;
         e_velocity := e_velocity e; e_facing := e_facing e;
         e_state := e_state e |}
  | None => e
  end.

Section GameControl.

(** The registry of [shared/levels]. *)
Variable getLevel : string -> option Level.

Definition initializeLevel (lid : string) (r : Room) : Room :=
  match getLevel lid with
  | None => createPlaceholderLevel r
  | Some level =>
      mkRoom (Some (lv_data level)) (players r)
        (map (moveToSpawn (lv_data level)) (entities r))
        (foldl loadInteractable [] (lv_interactables level))
        (pings r)
        (foldl (fun m pc => <[pz_id pc := freshPuzzleState pc]> m) ∅
           (puzzles (lv_data level)))
        (tick_ r) (paused r) (lastPingTime r) (pendingRespawns r)
        (guards r) (distractions r) (checkpointPosition r) (timeouts r)
  end.

(** [startGame], without the snapshot it returns. *)
Definition startGame (now : Q) (o : RoomObject) : RoomObject :=
  mkObject (initializeLevel (levelId o) (set_tick 0 (sim o)))
    (playerOrder o) (roomCode o) (levelId o) st_playing (createdAt o) now.

End GameControl.

(** * The room manager *)

Record CreateResult := {
  cr_success : bool;
  cr_roomCode : option string;
  cr_qrCodeUrl : option string;
  cr_error : option string
}.

Record JoinResult := {
  jr_success : bool;
  jr_role : option Role;
  jr_error : option string;
  jr_errorCode : option string
}.

Definition joinFailure (error code : string) : JoinResult :=
  {| jr_success := false; jr_role := None; jr_error := Some error;
     jr_errorCode := Some code |}.

(** The loop of [createRoom]: [draws k] is the result of the [k]-th call
    of [generateRoomCode] (counted from 0); the code last drawn and the
    number of attempts. *)
Fixpoint pickCode (has : string -> bool) (draws : nat -> string)
  (fuel attempts : nat) : string * nat :=
  let code := draws attempts in
  let attempts' := Datatypes.S attempts in
  match fuel with
  | O => (code, attempts')
  | Datatypes.S fuel' =>
      if has code && (attempts' <? 100)%nat
      then pickCode has draws fuel' attempts'
      else (code, attempts')
  end.

Section RoomManager.

(** [String.prototype.toUpperCase] and [process.env.CLIENT_URL] belong to
    the host. *)
Variable toUpperCase : string -> string.
Variable CLIENT_URL : option string.

(** [PROTOCOL.ROOM_TIMEOUT] *)
Definition ROOM_TIMEOUT : Q := 300000.

Definition createRoom (draws : nat -> string) (now : Q)
  (creatorId level : string) (rooms : gmap string RoomObject)
  : gmap string RoomObject * CreateResult :=
  let '(code, attempts) :=
    pickCode (fun c => bool_decide (is_Some (rooms !! c))) draws 100 0 in
  if (100 <=? attempts)%nat then
    (rooms, {| cr_success := false; cr_roomCode := None;
               cr_qrCodeUrl := None;
               cr_error := Some "Could not generate unique room code" |})
  else
    let base := if truthyId CLIENT_URL then default "" CLIENT_URL
                else "http://localhost:5173" in
    (<[code := newRoom now code level creatorId]> rooms,
     {| cr_success := true; cr_roomCode := Some code;
        cr_qrCodeUrl := Some (base +:+ "/join/" +:+ code);
        cr_error := None |}).

Definition joinRoom (code playerId : string) (preferredRole : option Role)
  (rooms : gmap string RoomObject) : gmap string RoomObject * JoinResult :=
  match rooms !! toUpperCase code with
  | None => (rooms, joinFailure "Room not found" "not_found")
  | Some room =>
      if isFull room then (rooms, joinFailure "Room is full" "full")
      else
        let role :=
          if truthyId (getPlayerByRole dog room) then panda
          else if bool_decide (preferredRole = Some panda) then panda
               else dog in
        if truthyId (getPlayerByRole role room)
        then (rooms, joinFailure "Role already taken" "role_taken")
        else
          (<[toUpperCase code := (addPlayer playerId role room).1]> rooms,
           {| jr_success := true; jr_role := Some role; jr_error := None;
              jr_errorCode := None |})
  end.

Definition getRoom (code : string) (rooms : gmap string RoomObject)
  : option RoomObject := rooms !! toUpperCase code.

Definition removeRoom (code : string) (rooms : gmap string RoomObject)
  : gmap string RoomObject := delete (toUpperCase code) rooms.

Definition getRoomCount (rooms : gmap string RoomObject) : nat := size rooms.

(** A room the sweep removes: empty, and created more than the timeout
    ago. *)
Definition stale (now : Q) (o : RoomObject) : bool :=
  isEmpty o && Qgtb (now - createdAt o)%Q ROOM_TIMEOUT.

Definition cleanupStaleRooms (now : Q) (rooms : gmap string RoomObject)
  : gmap string RoomObject :=
  filter (fun kv => stale now kv.2 = false) rooms.

End RoomManager.

(** ** Histories of a lobby *)

Inductive LobbyOp :=
  | Join (playerId : string) (role : Role)
  | Leave (playerId : string).

Definition applyOp (o : RoomObject) (op : LobbyOp) : RoomObject :=
  match op with
  | Join playerId role => (addPlayer playerId role o).1
  | Leave playerId => removePlayer playerId o
  end.

(** The ids a history lets in. *)
Definition joiners (ops : list LobbyOp) : list string :=
  omap (fun op => match op with
                  | Join playerId _ => Some playerId
                  | Leave _ => None
                  end) ops.

(** The insertion order lists the players, none has the empty id, and no
    role is held twice. *)
Definition lobbyOk (o : RoomObject) : Prop :=
  NoDup (playerOrder o)
  /\ (forall id, id ∈ playerOrder o <-> is_Some (players (sim o) !! id))
  /\ ("" ∉ playerOrder o)
  /\ (forall id1 id2 role,
        players (sim o) !! id1 = Some role ->
        players (sim o) !! id2 = Some role -> id1 = id2)
  /\ (size (players (sim o)) <= 2)%nat.

(** ** Sample data for the machinery and the lobby *)

(** A powered winch one step short of full extension, its lever on,
    linked to the lift. *)
Definition powerLever : InteractableState :=
  {| i_id := "lever_w"; i_type := lever; i_position := mkPos 1 1 0;
     i_state := bag [("position", JStr "on");
                     ("requiresStrength", JBool false)];
     i_linkedIds := [] |}.

Definition winch1 : InteractableState :=
  {| i_id := "winch_1"; i_type := winch; i_position := mkPos 4 4 0;
     i_state := bag [("extended", JNum (99 # 100));
                     ("operating", JBool true);
                     ("requiresPower", JBool true);
                     ("poweredById", JStr "lever_w")];
     i_linkedIds := ["lift_1"] |}.

Definition winchRoom : Room :=
  mkRoom (Some (floorLevel 8 8)) bothPlayers [] [powerLever; winch1; lift]
    [] ∅ 0 false ∅ [] [] [] None [].

(** The dog on a light plate that is linked to the spikes. *)
Definition trapPlate : InteractableState :=
  {| i_id := "plate_trap"; i_type := pressure_plate;
     i_position := mkPos 3 3 0;
     i_state := bag [("activated", JBool false);
                     ("weightThreshold", JStr "light");
                     ("currentWeight", JNum 0)];
     i_linkedIds := ["spikes_1"] |}.

Definition trapRoom : Room :=
  mkRoom (Some (floorLevel 10 10)) bothPlayers
    [playerEntity dog (mkPos 3 3 0)] [trapPlate; spikes] [] ∅ 0 false ∅ []
    [] [] None [].

(** A level with the locked door, the lever and one puzzle: the lever
    on; the reward is the door. *)
Definition vaultPuzzle : PuzzleConfig :=
  {| pz_id := "puzzle_1";
     pz_objectives :=
       [ {| o_id := "obj_lever";
            o_condition :=
              {| c_type := interactable_state;
                 c_targetId := Some "lever_1";
                 c_state := Some [("position", JStr "on")];
                 c_zoneMin := None; c_zoneMax := None |};
            o_optional := false |} ];
     pz_completionReward := Some "door_1" |}.

Definition vaultData : LevelData :=
  {| width := 12; height := 12;
     tiles := replicate 12 (replicate 12 groundTile);
     spawns_dog := Some (mkPos 1 1 0); spawns_panda := Some (mkPos 2 1 0);
     puzzles := [vaultPuzzle] |}.

Definition vaultLevel : Level :=
  {| lv_data := vaultData;
     lv_interactables :=
       [ {| ic_id := "door_1"; ic_type := door; ic_position := mkPos 10 5 0;
            ic_initialState := bag [("open", JBool false);
                                    ("locked", JBool true);
                                    ("requiresHeavy", JBool false)];
            ic_linkedIds := None |};
         {| ic_id := "lever_1"; ic_type := lever; ic_position := mkPos 8 8 0;
            ic_initialState := bag [("position", JStr "off");
                                    ("requiresStrength", JBool false)];
            ic_linkedIds := Some ["door_1"] |} ] |}.

(** A registry that knows the vault only. *)
Definition sampleRegistry (id : string) : option Level :=
  if String.eqb id "vault" then Some vaultLevel else None.

(** The vault with the lever pulled, the puzzle not yet evaluated. *)
Definition vaultRoom : Room :=
  mkRoom (Some vaultData) bothPlayers []
    [lockedDoor; setField "position" (JStr "on") lever1] []
    (<["puzzle_1" := freshPuzzleState vaultPuzzle]> ∅) 0 false ∅ [] [] []
    None [].

(** The room of ann, joined by bob. *)
Definition lobbyOfTwo : RoomObject :=
  (addPlayer "bob" panda (newRoom 0 "ABCD" "vault" "ann")).1.

Definition stillInput : InputState :=
  {| moveX := 1; moveY := 0; run := false; jump := false;
     interact_ := false; surveillance := false; operateHold := false |}.

(** ** The collision box *)





(** ** Sample data for the hazard check *)

(** Two sets of spikes: one under the dog, one on the dog's spawn
    point, later in the map. *)
Definition spawnSpikes : InteractableState :=
  {| i_id := "spikes_2"; i_type := hazard; i_position := mkPos 1 1 0;
     i_state := bag [("active", JBool true); ("hazardType", JStr "spikes")];
     i_linkedIds := [] |}.

Definition spawnTrapRoom : Room :=
  mkRoom (Some (floorLevel 10 10)) bothPlayers
    [playerEntity dog (mkPos 4 4 0); playerEntity panda (mkPos 6 6 0)]
    [spikes; spawnSpikes] [] ∅ 0 false ∅ [] [] [] None [].

(** ** Runs of a room *)

(** The calls the host makes on a room, each with what it takes from
    outside: a tick with the two clock readings of its expiry passes,
    [addPing] with the clock reading and the identifier it draws,
    [createDistraction] with the clock reading, [setPaused] (its effect
    on the simulation), and the firing of the [n]-th pending
    [setTimeout] callback. *)
Inductive Call :=
  | CTick (clockD clockP : Q)
  | CInput (playerId : string) (tickNo : Z) (input : InputState)
      (position : WorldPos)
  | CInteraction (playerId targetId action : string)
  | CAddPing (now : Q) (newId playerId : string) (position : WorldPos)
      (pingType : PingType)
  | CRemovePing (pingId playerId : string)
  | CDistraction (now : Q) (position : WorldPos) (type : DistractionType)
  | CCheckpoint (dogPos pandaPos : WorldPos)
  | CDrainRespawns
  | CPause (paused : bool)
  | CTimeout (n : nat).

(** The room after a call (after a tick ended by the exception of
    [updateGuards], the room as the exception left it). *)
Definition call (K : Constants) (M : MathLib) (r : Room) (c : Call) : Room :=
  match c with
  | CTick clockD clockP => (tick K M clockD clockP r).1
  | CInput playerId tickNo input position =>
      handleInput K playerId tickNo input position r
  | CInteraction playerId targetId action =>
      (handleInteraction playerId targetId action r).1
  | CAddPing now newId playerId position pingType =>
      (addPing K now newId playerId position pingType r).1
  | CRemovePing pingId playerId => (removePing pingId playerId r).1
  | CDistraction now position type => createDistraction now position type r
  | CCheckpoint dogPos pandaPos => setCheckpoint dogPos pandaPos r
  | CDrainRespawns => (getPendingRespawns r).1
  | CPause paused => set_paused paused r
  | CTimeout n => fireTimeout n r
  end.

(** The states of a run: the room before the first call and after each
    call. *)
Fixpoint trace (K : Constants) (M : MathLib) (r : Room) (cs : list Call)
  : list Room :=
  match cs with
  | [] => [r]
  | c :: rest => r :: trace K M (call K M r c) rest
  end.

(** Two calls made on the room [r] are the same call, up to the clock
    readings of a tick, which sort the distractions and the pings of [r]
    the same way (expired or not). *)
Definition sameCall (r : Room) (c c' : Call) : Prop :=
  match c, c' with
  | CTick clockD clockP, CTick clockD' clockP' =>
      List.filter (unexpired clockD) (distractions r)
      = List.filter (unexpired clockD') (distractions r)
      /\ List.filter (pingLive clockP) (pings r)
         = List.filter (pingLive clockP') (pings r)
  | _, _ => c = c'
  end.

(** Two runs from [r] make the same calls, in the sense of [sameCall] at
    the room each call finds. *)
Fixpoint alike (K : Constants) (M : MathLib) (r : Room) (cs cs' : list Call)
  : Prop :=
  match cs, cs' with
  | [], [] => True
  | c :: rest, c' :: rest' =>
      sameCall r c c' /\ alike K M (call K M r c) rest rest'
  | _, _ => False
  end.

(** Five pings of the dog and a whistle blown at time 0; no guard. *)
Definition noisyRoom : Room :=
  createDistraction 0 (mkPos 5 8 0) whistle fullPingRoom.

(** Two runs of the crate room that differ in the clock readings of
    their ticks only. *)
Definition sampleRun (shift : Q) : list Call :=
  [ CAddPing 1000 "a" "p1" (mkPos 1 1 0) look;
    CTick (1050 + shift) (1050 + shift);
    CDistraction 1060 (mkPos 5 5 0) rock;
    CInteraction "p2" "crate_1" "push";
    CTick (1100 + shift) (1100 + shift);
    CTimeout 0;
    CInput "p1" 3 stillInput (mkPos 6.1 6 0);
    CTick (1150 + shift) (1150 + shift);
    CPause true;
    CTick (1200 + shift) (1200 + shift);
    CPause false;
    CAddPing 1600 "b" "p1" (mkPos 2 2 0) danger;
    CDrainRespawns ].

(** The same calls, the second ping asked for at time [t]. *)
Definition pingRun (t : Q) : list Call :=
  [ CAddPing 1000 "a" "p1" (mkPos 1 1 0) look;
    CTick 1050 1050;
    CAddPing t "b" "p1" (mkPos 2 2 0) look ].

(** * Properties *)

Section Properties.

Variable K : Constants.
Variable M : MathLib.

(** ** Comparisons *)

Lemma Qltb_lt a b : Qltb a b = true <-> (a < b)%Q.
Proof.
  unfold Qltb. rewrite Qlt_alt. destruct (a ?= b)%Q; split; congruence.
Qed.

Lemma Qleb_le a b : Qleb a b = true <-> (a <= b)%Q.
Proof.
  unfold Qleb, Qle. rewrite <- Z.compare_le_iff. unfold Qcompare.
  destruct (_ ?= _)%Z; split; congruence.
Qed.

(** ** Movement validation *)







(** ** The interactable map *)

Lemma list_find_alter_pres {A} (P : A -> Prop) `{!forall x, Decision (P x)}
  (f : A -> A) (i : nat) (l : list A) :
  (forall x, P (f x) <-> P x) ->
  list_find P (alter f i l)
  = (fun jx => (jx.1, if decide (jx.1 = i) then f jx.2 else jx.2))
      <$> list_find P l.
Proof.
  intros Hf. revert i. induction l as [|a l IH]; intros i; [done|].
  destruct i as [|i]; simpl.
  - destruct (decide (P (f a))) as [Hp|Hp].
    + rewrite decide_True by (by apply Hf). done.
    + rewrite decide_False by (by rewrite <- Hf).
      by destruct (list_find P l) as [[j x]|].
  - destruct (decide (P a)); [done|].
    change (list_alter f i l) with (alter f i l). rewrite IH.
    destruct (list_find P l) as [[j x]|]; simpl; [|done].
    do 2 f_equal.
    destruct (decide (j = i)), (decide (Datatypes.S j = Datatypes.S i));
      try done; lia.
Qed.

Lemma getI_Some_id id its it : getI id its = Some it -> i_id it = id.
Proof.
  unfold getI. destruct (list_find _ its) as [[i x]|] eqn:H; [|done].
  intros [= ->]. by apply list_find_Some in H as (_ & ? & _).
Qed.

Lemma getI_elem_of id its it : getI id its = Some it -> it ∈ its.
Proof.
  unfold getI. destruct (list_find _ its) as [[i x]|] eqn:H; [|done].
  intros [= ->]. apply list_find_Some in H as (H & _ & _).
  by eapply list_elem_of_lookup_2.
Qed.

Lemma getI_modifyI id f its id' :
  (forall it, i_id (f it) = i_id it) ->
  getI id' (modifyI id f its)
  = if decide (id' = id) then f <$> getI id its else getI id' its.
Proof.
  intros Hf. unfold modifyI, getI.
  destruct (list_find (fun it => i_id it = id) its) as [[i x]|] eqn:H.
  - rewrite list_find_alter_pres by (intros y; by rewrite Hf).
    destruct (decide (id' = id)) as [->|Hne].
    + rewrite H. simpl. by rewrite decide_True.
    + destruct (list_find (fun it => i_id it = id') its) as [[j y]|] eqn:H';
        [|done].
      simpl. destruct (decide (j = i)) as [->|]; [|done].
      apply list_find_Some in H as (Hx & Hxid & _).
      apply list_find_Some in H' as (Hy & Hyid & _).
      congruence.
  - destruct (decide (id' = id)) as [->|]; [by rewrite H|done].
Qed.

Lemma getField_setField k v it k' :
  getField (i_state (setField k v it)) k'
  = if decide (k = k') then v else getField (i_state it) k'.
Proof.
  unfold getField, setField; simpl. rewrite lookup_insert.
  by destruct (decide (k = k')).
Qed.

(** ** Link propagation *)

Lemma triggerLink_other its l did :
  l <> did -> getI did (triggerLink its l) = getI did its.
Proof.
  intros Hne. unfold triggerLink.
  destruct (getI l its) as [x|]; [|done].
  repeat case_bool_decide; try done;
    (rewrite getI_modifyI by done; by rewrite decide_False).
Qed.

Lemma triggerLinkedObjects_other links its did :
  did ∉ links -> getI did (triggerLinkedObjects links its) = getI did its.
Proof.
  unfold triggerLinkedObjects. revert its.
  induction links as [|l links IH]; intros its Hnin; [done|].
  simpl. rewrite IH by set_solver.
  apply triggerLink_other. set_solver.
Qed.

Lemma triggerLinkedObjects_door links its did d :
  NoDup links -> did ∈ links ->
  getI did its = Some d -> i_type d = door ->
  getI did (triggerLinkedObjects links its) = Some (flipOpen d).
Proof.
  unfold triggerLinkedObjects. revert its.
  induction links as [|l links IH]; intros its Hnd Hin Hd Hty.
  - by inversion Hin.
  - apply NoDup_cons in Hnd as [Hl Hnd]. simpl.
    destruct (decide (l = did)) as [->|Hne].
    + fold (triggerLinkedObjects links (triggerLink its did)).
      rewrite triggerLinkedObjects_other by done.
      unfold triggerLink. rewrite Hd, Hty. simpl.
      rewrite getI_modifyI by done. rewrite decide_True by done.
      by rewrite Hd.
    + apply IH; [done| | |done].
      * apply elem_of_cons in Hin as [?|?]; [congruence|done].
      * by rewrite triggerLink_other.
Qed.

(** C10.  When a lever toggle or a button press is accepted, every door
    named (once) in the source's [linkedIds] has its [open] flag flipped,
    whatever its [locked] flag, which is left as it was; whereas any
    direct interaction on a locked door is refused with the room
    unchanged. *)
Theorem link_toggle_ignores_lock (r : Room) (pid sid act did : string)
  (role : Role) (src d : InteractableState) :
  players r !! pid = Some role ->
  getI sid (interactables r) = Some src ->
  (i_type src = lever /\ act = "toggle"
   \/ i_type src = button /\ act = "press") ->
  canInteract role src act = true ->
  NoDup (i_linkedIds src) -> did ∈ i_linkedIds src ->
  getI did (interactables r) = Some d -> i_type d = door ->
  (exists d',
      getI did (interactables (handleInteraction pid sid act r).1) = Some d'
      /\ getField (i_state d') "open"
         = JBool (negb (truthy (getField (i_state d) "open")))
      /\ getField (i_state d') "locked" = getField (i_state d) "locked")
  /\ (truthy (getField (i_state d) "locked") = true ->
      forall a, handleInteraction pid did a r
                = (r, failure "Permission denied")).
Proof.
  intros Hp Hsrc Hkind Hcan Hnd Hin Hd Hty. split.
  - exists (flipOpen d).
    split; [|split; unfold flipOpen; by rewrite getField_setField].
    pose proof (getI_Some_id _ _ _ Hsrc) as Hid.
    assert (Hne : did <> sid).
    { intros ->. rewrite Hsrc in Hd. injection Hd as ->.
      destruct Hkind as [[? _]|[? _]]; congruence. }
    unfold handleInteraction. rewrite Hp, Hsrc, Hcan.
    unfold processInteraction.
    destruct Hkind as [[Hk ->]|[Hk ->]]; rewrite Hk; simpl;
      apply triggerLinkedObjects_door; try done;
      rewrite getI_modifyI by done; rewrite Hid; by rewrite decide_False.
  - intros Hl a. unfold handleInteraction. rewrite Hp, Hd.
    unfold canInteract. by rewrite Hty, Hl.
Qed.

(** ** Crate pushes *)

Lemma and_iff_both (A B C D : Prop) :
  (A <-> B) -> (C <-> D) -> (A /\ C <-> B /\ D).
Proof. tauto. Qed.

Lemma Qltb_ge a b : Qltb a b = false <-> (b <= a)%Q.
Proof.
  rewrite <- not_true_iff_false, Qltb_lt. split.
  - apply Qnot_lt_le.
  - intros H1 H2. by apply (Qlt_not_le _ _ H2).
Qed.

Lemma Qleb_gt a b : Qleb a b = false <-> (b < a)%Q.
Proof.
  rewrite <- not_true_iff_false, Qleb_le. split.
  - apply Qnot_le_lt.
  - intros H1 H2. by apply (Qlt_not_le _ _ H1).
Qed.

Lemma tileForbidsCrate_false (L : LevelData) (x y : Q) :
  (1 <= x)%Q -> (1 <= y)%Q ->
  tileForbidsCrate L x y = false <->
  (forall row tile,
      tiles L !! Z.to_nat (Math_floor y) = Some row ->
      row !! Z.to_nat (Math_floor x) = Some tile ->
      t_walkable tile = true /\ t_type tile <> water /\ t_type tile <> void).
Proof.
  intros Hx Hy.
  assert (Hfx : (0 <= Math_floor x)%Z).
  { apply (Qfloor_resp_le 1 x) in Hx. unfold Math_floor.
    change (Qfloor 1) with 1%Z in Hx. lia. }
  assert (Hfy : (0 <= Math_floor y)%Z).
  { apply (Qfloor_resp_le 1 y) in Hy. unfold Math_floor.
    change (Qfloor 1) with 1%Z in Hy. lia. }
  unfold tileForbidsCrate.
  destruct (tiles L !! Z.to_nat (Math_floor y)) as [row|] eqn:Hrow.
  - assert (Hly : (Math_floor y <? Z.of_nat (length (tiles L)))%Z = true).
    { apply lookup_lt_Some in Hrow. apply Z.ltb_lt. lia. }
    rewrite Hly. rewrite (proj2 (Z.leb_le _ _) Hfy). simpl.
    destruct (row !! Z.to_nat (Math_floor x)) as [tile|] eqn:Htile.
    + assert (Hlx : (Math_floor x <? Z.of_nat (length row))%Z = true).
      { apply lookup_lt_Some in Htile. apply Z.ltb_lt. lia. }
      rewrite Hlx. rewrite (proj2 (Z.leb_le _ _) Hfx). simpl.
      split.
      * intros H row' tile' [= <-] Ht. rewrite Htile in Ht.
        injection Ht as <-.
        destruct (t_walkable tile); [|done]. simpl in H.
        repeat case_bool_decide; done.
      * intros H. destruct (H row tile eq_refl Htile) as (-> & ? & ?).
        simpl. by rewrite !bool_decide_eq_false_2.
    + split; [intros _ ? ? [= <-] ?; congruence|].
      intros _. by destruct (_ && _).
  - split; [intros _ ? ? ?; congruence|].
    intros _. by destruct (_ && _).
Qed.

(** C7 (as amended).  For a push by the panda: the direction is the
    dominant axis of the offset from the pusher to the crate, a tie going
    to the Y axis; the target is one unit from the crate in that
    direction; when the target is valid the crate is moved there with
    [beingPushed] set, otherwise the push fails and the room is
    unchanged; and the target is valid exactly when it is within the
    bounds of the level (if one is loaded), the tile under it, if the
    grid has one there, is walkable and neither water nor void, and no
    crate of the room is within 0.9 of it on both axes. *)
Theorem crate_push_rule (r : Room) (pid cid : string)
  (c : InteractableState) (ei : nat) (e : EntityState) :
  players r !! pid = Some panda ->
  getI cid (interactables r) = Some c -> i_type c = crate ->
  findEntity (entityIdOf panda) (entities r) = Some (ei, e) ->
  let dx := (px (i_position c) - px (e_position e))%Q in
  let dy := (py (i_position c) - py (e_position e))%Q in
  let d := pushDirection dx dy in
  let tx := (px (i_position c) + d.1)%Q in
  let ty := (py (i_position c) + d.2)%Q in
  let out := handleInteraction pid cid "push" r in
  ((Qabs dy < Qabs dx)%Q /\ d = ((if Qgtb dx 0 then 1 else -1)%Q, 0%Q)
   \/ (Qabs dx <= Qabs dy)%Q /\ d = (0%Q, (if Qgtb dy 0 then 1 else -1)%Q))
  /\ (isValidCratePosition r tx ty = true ->
      success out.2 = true
      /\ getI cid (interactables out.1) = Some (pushCrate tx ty c))
  /\ (isValidCratePosition r tx ty = false ->
      out = (r, failure "Cannot push there"))
  /\ (isValidCratePosition r tx ty = true <->
      (forall L, levelData r = Some L ->
         (1 <= tx)%Q /\ (tx < width L - 1)%Q
         /\ (1 <= ty)%Q /\ (ty < height L - 1)%Q
         /\ forall row tile,
              tiles L !! Z.to_nat (Math_floor ty) = Some row ->
              row !! Z.to_nat (Math_floor tx) = Some tile ->
              t_walkable tile = true
              /\ t_type tile <> water /\ t_type tile <> void)
      /\ (forall o, o ∈ interactables r -> i_type o = crate ->
            ~ ((Qabs (px (i_position o) - tx) < 0.9)%Q
               /\ (Qabs (py (i_position o) - ty) < 0.9)%Q))).
Proof.
  intros Hp Hc Hty He dx dy d tx ty out.
  pose proof (getI_Some_id _ _ _ Hc) as Hid.
  assert (Hout : out = if isValidCratePosition r tx ty
                       then succeeded cid
                              (set_timeouts
                                 (timeouts r ++ [ {| to_crate := cid;
                                                     to_delay := 200 |} ])
                                 (set_interactables
                                    (modifyI cid (pushCrate tx ty)
                                       (interactables r)) r))
                       else (r, failure "Cannot push there")).
  { unfold out, handleInteraction. rewrite Hp, Hc.
    unfold canInteract. rewrite Hty. simpl.
    unfold processInteraction. rewrite Hty, He, Hid. reflexivity. }
  split; [|split; [|split]].
  - unfold d, pushDirection.
    change (Qgtb (Math_abs dx) (Math_abs dy))
      with (Qltb (Math_abs dy) (Math_abs dx)).
    destruct (Qltb (Math_abs dy) (Math_abs dx)) eqn:Hcmp.
    + left. split; [by apply Qltb_lt|done].
    + right. split; [by apply Qltb_ge|done].
  - intros Hv. rewrite Hout, Hv. simpl. split; [done|].
    rewrite getI_modifyI by done. rewrite decide_True by done.
    by rewrite Hc.
  - intros Hv. by rewrite Hout, Hv.
  - unfold isValidCratePosition. rewrite andb_true_iff, negb_true_iff.
    apply and_iff_both.
    + destruct (levelData r) as [L|].
      * unfold outOfCrateBounds, Qgeb.
        destruct (Qltb tx 1) eqn:H1.
        { simpl. split; [done|]. intros H.
          destruct (H L eq_refl) as (Hb & _).
          apply Qltb_lt in H1. by apply Qlt_not_le in H1. }
        destruct (Qleb (width L - 1) tx) eqn:H2.
        { simpl. split; [done|]. intros H.
          destruct (H L eq_refl) as (_ & Hb & _).
          apply Qleb_le in H2. by apply Qlt_not_le in Hb. }
        destruct (Qltb ty 1) eqn:H3.
        { simpl. split; [done|]. intros H.
          destruct (H L eq_refl) as (_ & _ & Hb & _).
          apply Qltb_lt in H3. by apply Qlt_not_le in H3. }
        destruct (Qleb (height L - 1) ty) eqn:H4.
        { simpl. split; [done|]. intros H.
          destruct (H L eq_refl) as (_ & _ & _ & Hb & _).
          apply Qleb_le in H4. by apply Qlt_not_le in Hb. }
        simpl. apply Qltb_ge in H1, H3. apply Qleb_gt in H2, H4.
        rewrite negb_true_iff, (tileForbidsCrate_false L tx ty H1 H3).
        split.
        { intros H L' [= <-]. done. }
        { intros H. by destruct (H L eq_refl) as (_ & _ & _ & _ & ?). }
      * split; [intros _ L; congruence|done].
    + rewrite <- not_true_iff_false, existsb_exists.
      split.
      * intros H o Ho Hoty [Hx Hy]. apply H. exists o.
        split; [by apply list_elem_of_In|].
        unfold crateNear. rewrite bool_decide_eq_true_2 by done. simpl.
        apply andb_true_iff. split; by apply Qltb_lt.
      * intros H (o & Ho & Hnear). unfold crateNear in Hnear.
        apply andb_true_iff in Hnear as [Hnear Hy].
        apply andb_true_iff in Hnear as [Hoty Hx].
        apply bool_decide_eq_true in Hoty.
        apply (H o); [by apply list_elem_of_In|done|].
        split; by apply Qltb_lt.
Qed.

(** ** Pings *)

Lemma oldestPing_acc role ps acc :
  (forall a, acc = Some a -> p_createdBy a = role) ->
  match foldl (olderStep role) acc ps with
  | Some o =>
      p_createdBy o = role
      /\ (acc = Some o \/ o ∈ ps)
      /\ (forall a, acc = Some a -> (p_createdAt o <= p_createdAt a)%Q)
      /\ (forall q, q ∈ ps -> p_createdBy q = role ->
            (p_createdAt o <= p_createdAt q)%Q)
  | None => acc = None /\ forall q, q ∈ ps -> p_createdBy q <> role
  end.
Proof.
  revert acc. induction ps as [|p ps IH]; intros acc Hacc; simpl.
  - destruct acc as [a|].
    + split; [by apply Hacc|]. split; [by left|].
      split; [intros ? [= <-]; apply Qle_refl|].
      intros q Hq. by inversion Hq.
    + split; [done|]. intros q Hq. by inversion Hq.
  - assert (Hstep : forall a, olderStep role acc p = Some a ->
                              p_createdBy a = role).
    { unfold olderStep. case_bool_decide as Hr; [|done].
      destruct acc as [o|]; [|by intros a [= <-]].
      destruct (Qltb _ _); [by intros a [= <-]|]. apply Hacc. }
    specialize (IH (olderStep role acc p) Hstep).
    destruct (foldl (olderStep role) (olderStep role acc p) ps) as [o|].
    + destruct IH as (Ho & Hfrom & Hle & Hmin).
      split; [done|].
      assert (Hp : p_createdBy p = role ->
                   (p_createdAt o <= p_createdAt p)%Q).
      { intros Hr. unfold olderStep in Hle.
        rewrite bool_decide_eq_true_2 in Hle by done.
        destruct acc as [a|]; [|by apply Hle].
        destruct (Qltb (p_createdAt p) (p_createdAt a)) eqn:Hlt;
          [by apply Hle|].
        apply Qltb_ge in Hlt. eapply Qle_trans; [by apply Hle|done]. }
      split; [|split].
      * destruct Hfrom as [Hfrom|Hfrom]; [|right; by apply list_elem_of_further].
        unfold olderStep in Hfrom. case_bool_decide; [|by left].
        destruct acc as [a|];
          [|injection Hfrom as <-; right; apply list_elem_of_here].
        destruct (Qltb _ _); [|by left].
        injection Hfrom as <-. right. apply list_elem_of_here.
      * intros a ->. unfold olderStep in Hle.
        case_bool_decide; [|by apply Hle].
        destruct (Qltb (p_createdAt p) (p_createdAt a)) eqn:Hlt;
          [|by apply Hle].
        apply Qltb_lt in Hlt. eapply Qle_trans; [by apply Hle|].
        by apply Qlt_le_weak.
      * intros q Hq Hr. apply elem_of_cons in Hq as [->|Hq]; [by apply Hp|].
        by apply Hmin.
    + destruct IH as (Hnone & Hall). unfold olderStep in Hnone.
      case_bool_decide as Hr.
      * destruct acc as [a|]; [destruct (Qltb _ _)|]; done.
      * split; [done|]. intros q Hq.
        apply elem_of_cons in Hq as [->|Hq]; [done|by apply Hall].
Qed.

Lemma deletePing_length id ps p :
  NoDup (map p_id ps) -> p ∈ ps -> p_id p = id ->
  length ps = Datatypes.S (length (deletePing id ps)).
Proof.
  intros Hnd Hin <-. induction ps as [|q ps IH]; [by inversion Hin|].
  simpl in Hnd. apply NoDup_cons in Hnd as [Hq Hnd]. simpl.
  apply elem_of_cons in Hin as [->|Hin].
  - rewrite String.eqb_refl. simpl. f_equal.
    clear IH. induction ps as [|a ps IH]; [done|]. simpl.
    simpl in Hq, Hnd. apply NoDup_cons in Hnd as [_ Hnd].
    destruct (String.eqb (p_id a) (p_id q)) eqn:Ha.
    + apply String.eqb_eq in Ha. exfalso. apply Hq. rewrite Ha. left.
    + simpl. f_equal. apply IH; [|done]. intros ?. apply Hq. by right.
  - destruct (String.eqb (p_id q) (p_id p)) eqn:Ha.
    + apply String.eqb_eq in Ha. exfalso. apply Hq. rewrite Ha.
      apply list_elem_of_fmap. by exists p.
    + simpl. f_equal. by apply IH.
Qed.

(** C8.  A call made within the cooldown of the player's previous
    successful ping returns no ping and leaves the room as it is (a
    successful call records its time); and an accepted call made while
    the player's role has the maximum of pings outstanding removes one
    ping, an oldest one of that role by [createdAt], before it inserts
    the new one. *)
Theorem addPing_cooldown_and_eviction (r : Room) (now : Q)
  (newId pid : string) (pos : WorldPos) (ty : PingType) :
  (forall t, lastPingTime r !! pid = Some t ->
     (now - t < PING_COOLDOWN K)%Q ->
     addPing K now newId pid pos ty r = (r, None))
  /\ (forall r' p, addPing K now newId pid pos ty r = (r', Some p) ->
        lastPingTime r' !! pid = Some now /\ players r' = players r)
  /\ (forall role, players r !! pid = Some role ->
        (PING_COOLDOWN K <= now - default 0%Q (lastPingTime r !! pid))%Q ->
        (1 <= PING_MAX_PER_PLAYER K)%nat ->
        (PING_MAX_PER_PLAYER K <= length (pingsOf role (pings r)))%nat ->
        exists oldest,
          oldest ∈ pings r /\ p_createdBy oldest = role
          /\ (forall q, q ∈ pings r -> p_createdBy q = role ->
                (p_createdAt oldest <= p_createdAt q)%Q)
          /\ (NoDup (map p_id (pings r)) ->
              length (pings r)
              = Datatypes.S (length (deletePing (p_id oldest) (pings r))))
          /\ let ping := {| p_id := newId; p_position := pos; p_type := ty;
                            p_createdBy := role; p_createdAt := now;
                            p_expiresAt := (now + PING_LIFETIME K)%Q |} in
             addPing K now newId pid pos ty r
             = (set_lastPingTime (<[pid := now]> (lastPingTime r))
                  (set_pings
                     (setPing ping (deletePing (p_id oldest) (pings r))) r),
                Some ping)).
Proof.
  split; [|split].
  - intros t Ht Hlt. unfold addPing.
    destruct (players r !! pid); [|done].
    rewrite Ht. simpl. apply Qltb_lt in Hlt. by rewrite Hlt.
  - intros r' p. unfold addPing.
    destruct (players r !! pid); [|done].
    destruct (Qltb _ _); [done|].
    intros [= <- _]. simpl. split; [by rewrite lookup_insert_eq|done].
  - intros role Hrole Hcool Hmax Hcount.
    pose proof (oldestPing_acc role (pings r) None) as Hold.
    fold (oldestPing role (pings r)) in Hold.
    destruct (oldestPing role (pings r)) as [o|] eqn:Ho.
    + destruct Hold as (Hby & [?|Hin] & _ & Hmin); [done..|].
      exists o. split; [done|]. split; [done|]. split; [done|].
      split; [intros Hnd; by eapply deletePing_length|].
      simpl. unfold addPing. rewrite Hrole.
      apply Qltb_ge in Hcool. rewrite Hcool.
      apply Nat.leb_le in Hcount. rewrite Hcount.
      unfold evictOldest. by rewrite Ho.
    + destruct Hold as (_ & Hnone); [done|].
      exfalso. unfold pingsOf in Hcount.
      destruct (List.filter _ (pings r)) as [|q qs] eqn:Hf;
        [simpl in Hcount; lia|].
      assert (Hq : In q (List.filter
                           (fun p => bool_decide (p_createdBy p = role))
                           (pings r))) by (rewrite Hf; by left).
      apply filter_In in Hq as [Hq Hr]. apply bool_decide_eq_true in Hr.
      apply (Hnone q); [by apply list_elem_of_In|done].
Qed.

(** ** Frames of the interactable map *)

Global Instance sameKind_refl : Reflexive sameKind.
Proof. by intros a. Qed.
Global Instance sameKind_trans : Transitive sameKind.
Proof. intros a b c (?&?&?) (?&?&?). repeat split; congruence. Qed.
Global Instance sameShape_refl : Reflexive sameShape.
Proof. by intros a. Qed.
Global Instance sameShape_trans : Transitive sameShape.
Proof.
  intros a b c [? ?] [? ?]. split; [by etrans|congruence].
Qed.
Global Instance offPlates_refl : Reflexive offPlates.
Proof. by intros a. Qed.
Global Instance offPlates_trans : Transitive offPlates.
Proof.
  intros a b c [Hk1 Hp1] [Hk2 Hp2]. split; [by etrans|].
  intros Ha. rewrite (Hp1 Ha) in Hp2. by apply Hp2.
Qed.
Global Instance offPlatesStill_refl : Reflexive offPlatesStill.
Proof. by intros a. Qed.
Global Instance offPlatesStill_trans : Transitive offPlatesStill.
Proof.
  intros a b c [Hk1 Hp1] [Hk2 Hp2]. split; [by etrans|].
  intros Ha. rewrite (Hp1 Ha) in Hp2. by apply Hp2.
Qed.

Lemma offPlatesStill_off a b : offPlatesStill a b -> offPlates a b.
Proof. intros [[? _] ?]. by split. Qed.

Lemma setField_sameShape k v a : sameShape a (setField k v a).
Proof. done. Qed.

Lemma setPosition_sameKind p a : sameKind a (setPosition p a).
Proof. done. Qed.

Lemma off_of_kind a b :
  i_type a <> pressure_plate -> sameKind a b -> offPlates a b.
Proof. intros Hne Hk. split; [done|]. by intros ?. Qed.

Lemma offStill_of_shape a b :
  i_type a <> pressure_plate -> sameShape a b -> offPlatesStill a b.
Proof. intros Hne Hk. split; [done|]. by intros ?. Qed.

Lemma Forall2_alter_rel (R : relation InteractableState) `{!Reflexive R}
  (f : InteractableState -> InteractableState) i its :
  (forall a, its !! i = Some a -> R a (f a)) ->
  Forall2 R its (alter f i its).
Proof.
  intros Hf. apply Forall2_same_length_lookup_2; [by rewrite length_alter|].
  intros j x y Hx Hy. rewrite list_lookup_alter in Hy.
  destruct (decide (i = j)) as [->|].
  - rewrite Hx in Hy. injection Hy as <-. by apply Hf.
  - rewrite Hx in Hy. by injection Hy as <-.
Qed.

Lemma getI_lookup id its a :
  getI id its = Some a ->
  exists i, list_find (fun it => i_id it = id) its = Some (i, a)
            /\ its !! i = Some a.
Proof.
  unfold getI. destruct (list_find _ its) as [[i x]|] eqn:H; [|done].
  intros [= ->]. exists i. split; [done|].
  by apply list_find_Some in H as (? & _).
Qed.

Lemma Forall2_modifyI_rel (R : relation InteractableState) `{!Reflexive R}
  (f : InteractableState -> InteractableState) id its :
  (forall a, getI id its = Some a -> R a (f a)) ->
  Forall2 R its (modifyI id f its).
Proof.
  intros Hf. unfold modifyI.
  destruct (list_find (fun it => i_id it = id) its) as [[i x]|] eqn:H;
    [|reflexivity].
  apply Forall2_alter_rel; [done|].
  intros a Ha. apply Hf. unfold getI. rewrite H. simpl.
  apply list_find_Some in H as (H & _). congruence.
Qed.

Lemma foldl_rel {A B} (R : A -> A -> Prop) (step : A -> B -> A) (l : list B) :
  (forall a, R a a) -> (forall a b c, R a b -> R b c -> R a c) ->
  (forall a b, R a (step a b)) ->
  forall a, R a (foldl step a l).
Proof.
  intros Hrefl Htrans Hstep. induction l as [|b l IH]; intros a; simpl; [done|].
  eapply Htrans; [apply Hstep|apply IH].
Qed.

Lemma forEachIndex_rel {A} (R : A -> A -> Prop) (body : nat -> A -> A) n :
  (forall a, R a a) -> (forall a b c, R a b -> R b c -> R a c) ->
  (forall i a, R a (body i a)) ->
  forall a, R a (forEachIndex n body a).
Proof.
  intros Hrefl Htrans Hbody a. unfold forEachIndex.
  apply (foldl_rel R (fun acc i => body i acc)); auto.
Qed.

Lemma forEachIndex_S {A} (body : nat -> A -> A) n a :
  forEachIndex (Datatypes.S n) body a = body n (forEachIndex n body a).
Proof. unfold forEachIndex. by rewrite seq_S, foldl_app. Qed.

Lemma Forall2_foldl_rel {B} (R : relation InteractableState)
  `{!Reflexive R} `{!Transitive R}
  (step : list InteractableState -> B -> list InteractableState) (l : list B) :
  (forall its b, Forall2 R its (step its b)) ->
  forall its, Forall2 R its (foldl step its l).
Proof.
  intros Hstep. apply foldl_rel; [by intros|by intros; etrans|done].
Qed.

Lemma Forall2_forEachIndex_rel (R : relation InteractableState)
  `{!Reflexive R} `{!Transitive R}
  (body : nat -> list InteractableState -> list InteractableState) n :
  (forall i its, Forall2 R its (body i its)) ->
  forall its, Forall2 R its (forEachIndex n body its).
Proof.
  intros Hbody. apply forEachIndex_rel; [by intros|by intros; etrans|done].
Qed.

(** Plates are out of reach of link propagation, winches, platforms,
    timed buttons, conveyors and puzzle rewards. *)

Lemma triggerLinkedObjects_off links its :
  Forall2 offPlates its (triggerLinkedObjects links its).
Proof.
  unfold triggerLinkedObjects. revert its.
  apply (Forall2_foldl_rel offPlates). intros its l. unfold triggerLink.
  destruct (getI l its) as [x|] eqn:Hx; [|reflexivity].
  repeat case_bool_decide; try reflexivity;
    (apply Forall2_modifyI_rel; [apply _|]; intros a Ha;
     assert (a = x) as -> by congruence;
     apply off_of_kind; [congruence|done]).
Qed.

Lemma triggerWinchPlatforms_off links its :
  Forall2 offPlates its (triggerWinchPlatforms links its).
Proof.
  unfold triggerWinchPlatforms. revert its.
  apply (Forall2_foldl_rel offPlates). intros its l.
  unfold triggerWinchPlatform.
  destruct (getI l its) as [x|] eqn:Hx; [|reflexivity].
  case_bool_decide; [|reflexivity].
  apply Forall2_modifyI_rel; [apply _|]. intros a Ha.
  assert (a = x) as -> by congruence.
  apply off_of_kind; [congruence|].
  destruct (getField (i_state x) "waypoints") as [| | | | |[|? [|? ?]]]; done.
Qed.

Lemma updateWinchAt_off i its : Forall2 offPlates its (updateWinchAt i its).
Proof.
  unfold updateWinchAt.
  destruct (its !! i) as [x|] eqn:Hx; [|reflexivity].
  case_bool_decide as Hty; [|reflexivity].
  assert (Hstep : forall f, (forall a, sameKind a (f a)) ->
                            Forall2 offPlates its (alter f i its)).
  { intros f Hf. apply Forall2_alter_rel; [apply _|]. intros a Ha.
    apply off_of_kind; [congruence|done]. }
  destruct (winchUnpowered its (i_state x)); [by apply Hstep|].
  destruct (truthy _); [|reflexivity].
  destruct (Qgeb _ 1); [|by apply Hstep].
  etrans; [|apply triggerWinchPlatforms_off].
  rewrite list_alter_alter_eq. by apply Hstep.
Qed.

Lemma updatePlatformAt_off i its :
  Forall2 offPlates its (updatePlatformAt i its).
Proof.
  unfold updatePlatformAt.
  destruct (its !! i) as [x|] eqn:Hx; [|reflexivity].
  case_bool_decide as Hty; [|reflexivity].
  destruct (getField (i_state x) "waypoints") as [| | | | |[|? [|? ?]]];
    try reflexivity.
  destruct (truthy _); [|reflexivity].
  apply Forall2_alter_rel; [apply _|]. intros a Ha.
  apply off_of_kind; [congruence|].
  destruct (Qgeb _ 1); [done|]. by destruct (Qleb _ 0).
Qed.

Lemma updateTimedButtonAt_off i its :
  Forall2 offPlates its (updateTimedButtonAt i its).
Proof.
  unfold updateTimedButtonAt.
  destruct (its !! i) as [x|] eqn:Hx; [|reflexivity].
  case_bool_decide as Hty; [|reflexivity].
  assert (Hstep : forall f, (forall a, sameKind a (f a)) ->
                            Forall2 offPlates its (alter f i its)).
  { intros f Hf. apply Forall2_alter_rel; [apply _|]. intros a Ha.
    apply off_of_kind; [congruence|done]. }
  destruct (truthy _ && negb _ && truthy _); [|reflexivity].
  destruct (Qleb _ 0); [|by apply Hstep].
  etrans; [|apply triggerLinkedObjects_off]. by apply Hstep.
Qed.

Lemma conveyCrate_off pos st its :
  Forall2 offPlates its (map (conveyCrate pos st) its).
Proof.
  apply Forall2_fmap_r, Forall_Forall2_diag, Forall_forall.
  intros x _. unfold conveyCrate, compose.
  case_bool_decide as Hty; simpl; [|reflexivity].
  destruct (isOnConveyor _ _ _); [|reflexivity].
  apply off_of_kind; [congruence|done].
Qed.

Lemma grantReward_off reward its :
  Forall2 offPlates its (grantReward reward its).
Proof.
  unfold grantReward. destruct reward as [id|]; [|reflexivity].
  destruct (String.eqb id ""); [reflexivity|].
  destruct (getI id its) as [x|] eqn:Hx; [|reflexivity].
  case_bool_decide as Hty; [|reflexivity].
  apply Forall2_modifyI_rel; [apply _|]. intros a Ha.
  assert (a = x) as -> by congruence.
  apply off_of_kind; [congruence|done].
Qed.

(** ** The pressure-plate pass *)

Lemma checkDoorUnlock_offStill did its x :
  getI did its = Some x -> i_type x <> pressure_plate ->
  Forall2 offPlatesStill its (checkDoorUnlock did its).
Proof.
  intros Hx Hty. unfold checkDoorUnlock.
  assert (Hm : forall f, (forall a, sameShape a (f a)) ->
                         Forall2 offPlatesStill its (modifyI did f its)).
  { intros f Hf. apply Forall2_modifyI_rel; [apply _|]. intros a Ha.
    assert (a = x) as -> by congruence. by apply offStill_of_shape. }
  destruct (forallb _ _ && _); [by apply Hm|].
  destruct (0 <? _)%nat; [by apply Hm|reflexivity].
Qed.

Lemma plateChangeLink_offStill act its l :
  Forall2 offPlatesStill its (plateChangeLink act its l).
Proof.
  unfold plateChangeLink.
  destruct (getI l its) as [x|] eqn:Hx; [|reflexivity].
  case_bool_decide as Hh.
  - apply Forall2_modifyI_rel; [apply _|]. intros a Ha.
    assert (a = x) as -> by congruence.
    apply offStill_of_shape; [congruence|done].
  - case_bool_decide as Hd; [|reflexivity].
    rewrite (getI_Some_id _ _ _ Hx).
    apply (checkDoorUnlock_offStill l its x); [done|congruence].
Qed.

Lemma handlePressurePlateChange_offStill links act its :
  Forall2 offPlatesStill its (handlePressurePlateChange links act its).
Proof.
  unfold handlePressurePlateChange. revert its.
  apply (Forall2_foldl_rel offPlatesStill). intros.
  apply plateChangeLink_offStill.
Qed.

Lemma crateWeight_shape pos a b :
  sameShape a b -> crateWeight M pos b = crateWeight M pos a.
Proof.
  intros [(_ & Hty & _) Hpos]. unfold crateWeight. by rewrite Hty, Hpos.
Qed.

Lemma totalWeight_shape es its its' pos :
  Forall2 sameShape its its' ->
  totalWeight M es its' pos = totalWeight M es its pos.
Proof.
  intros H. unfold totalWeight. f_equal.
  generalize 0%Z. induction H as [|a b its its' Hab _ IH]; intros acc; [done|].
  simpl. by rewrite (crateWeight_shape pos a b Hab), IH.
Qed.

Lemma pressPlate_shape total p : sameShape p (pressPlate total p).
Proof. done. Qed.

Lemma updatePlateAt_plate es k its p :
  its !! k = Some p -> i_type p = pressure_plate ->
  Forall2 offPlatesStill
    (alter (pressPlate (totalWeight M es its (i_position p))) k its)
    (updatePlateAt M es k its).
Proof.
  intros Hp Hty. unfold updatePlateAt. rewrite Hp.
  rewrite bool_decide_eq_true_2 by done.
  assert (Heq : alter
                  (fun p0 =>
                     setField "activated"
                       (JBool (requiredWeight (i_state p)
                               <=? totalWeight M es its (i_position p))%Z)
                       (setField "currentWeight"
                          (JNum (inject_Z (totalWeight M es its (i_position p))))
                          p0)) k its
                = alter (pressPlate (totalWeight M es its (i_position p))) k its).
  { apply list_alter_ext; [|done]. intros x Hx.
    assert (x = p) as -> by congruence. done. }
  rewrite Heq.
  destruct (negb _); [|reflexivity].
  apply handlePressurePlateChange_offStill.
Qed.

Lemma updatePlateAt_other es k its :
  (forall p, its !! k = Some p -> i_type p <> pressure_plate) ->
  updatePlateAt M es k its = its.
Proof.
  intros H. unfold updatePlateAt.
  destruct (its !! k) as [p|]; [|done].
  by rewrite bool_decide_eq_false_2 by (by apply H).
Qed.

Lemma updatePlateAt_shape es k its :
  Forall2 sameShape its (updatePlateAt M es k its).
Proof.
  destruct (its !! k) as [p|] eqn:Hp.
  - destruct (decide (i_type p = pressure_plate)) as [Hty|Hty].
    + etrans.
      * apply (Forall2_alter_rel sameShape
                 (pressPlate (totalWeight M es its (i_position p))) k).
        intros. apply pressPlate_shape.
      * eapply Forall2_impl; [by apply updatePlateAt_plate|].
        by intros ? ? [? _].
    + rewrite updatePlateAt_other; [reflexivity|].
      intros p0 Hp0. rewrite Hp in Hp0. by injection Hp0 as <-.
  - rewrite updatePlateAt_other; [reflexivity|].
    intros p0 Hp0. by rewrite Hp in Hp0.
Qed.

(** Every plate, once visited, carries the weight computed from the
    positions the pass started with; the plates not yet visited are
    untouched. *)
Lemma platePass_inv es its0 k :
  Forall2 sameShape its0 (forEachIndex k (updatePlateAt M es) its0)
  /\ forall j p, its0 !! j = Some p -> i_type p = pressure_plate ->
       forEachIndex k (updatePlateAt M es) its0 !! j
       = Some (if decide (j < k)%nat
               then pressPlate (totalWeight M es its0 (i_position p)) p
               else p).
Proof.
  induction k as [|k [IHs IHp]].
  - split; [reflexivity|]. intros j p Hp _.
    by rewrite decide_False by lia.
  - rewrite forEachIndex_S.
    set (cur := forEachIndex k (updatePlateAt M es) its0) in *.
    split; [etrans; [exact IHs|apply updatePlateAt_shape]|].
    intros j p Hp Hty.
    destruct (cur !! k) as [q|] eqn:Hq.
    + destruct (decide (i_type q = pressure_plate)) as [Hqty|Hqty].
      * destruct (Forall2_lookup_r _ _ _ _ _ IHs Hq) as (q0 & Hq0 & Hsh).
        assert (Hq0ty : i_type q0 = pressure_plate).
        { destruct Hsh as [(_ & ? & _) _]. congruence. }
        pose proof (IHp k q0 Hq0 Hq0ty) as Hcur.
        rewrite decide_False in Hcur by lia.
        assert (q = q0) as -> by congruence.
        pose proof (updatePlateAt_plate es k cur q0 Hq Hqty) as Hstep.
        rewrite (totalWeight_shape es its0 cur _ IHs) in Hstep.
        destruct (decide (j = k)) as [->|Hjk].
        -- assert (p = q0) as -> by congruence.
           rewrite decide_True by lia.
           destruct (Forall2_lookup_l _ _ _ k
                       (pressPlate (totalWeight M es its0 (i_position q0)) q0)
                       Hstep) as (y & Hy & _ & Hkept).
           { rewrite list_lookup_alter_eq, Hq. done. }
           rewrite Hy. f_equal. by apply Hkept.
        -- pose proof (IHp j p Hp Hty) as Hj.
           destruct (Forall2_lookup_l _ _ _ j
                       (if decide (j < k)%nat
                        then pressPlate
                               (totalWeight M es its0 (i_position p)) p
                        else p) Hstep) as (y & Hy & _ & Hkept).
           { rewrite list_lookup_alter_ne by done. exact Hj. }
           rewrite Hy. f_equal.
           rewrite Hkept.
           ++ destruct (decide (j < k)%nat), (decide (j < Datatypes.S k)%nat);
                try done; lia.
           ++ by destruct (decide (j < k)%nat).
      * rewrite updatePlateAt_other
          by (intros q1 Hq1; rewrite Hq in Hq1; by injection Hq1 as <-).
        rewrite (IHp j p Hp Hty).
        assert (j <> k).
        { intros ->. rewrite (IHp k p Hp Hty) in Hq.
          injection Hq as <-. by destruct (decide (k < k)%nat). }
        destruct (decide (j < k)%nat), (decide (j < Datatypes.S k)%nat);
          try done; lia.
    + rewrite updatePlateAt_other
        by (intros q1 Hq1; by rewrite Hq in Hq1).
      rewrite (IHp j p Hp Hty).
      assert (j <> k).
      { intros ->. rewrite (IHp k p Hp Hty) in Hq. done. }
      destruct (decide (j < k)%nat), (decide (j < Datatypes.S k)%nat);
        try done; lia.
Qed.

Lemma foldl_weight {A} (w : A -> Z) (l : list A) (acc : Z) :
  foldl (fun a x => (a + w x)%Z) acc l = (acc + foldr Z.add 0 (map w l))%Z.
Proof.
  revert acc. induction l as [|x l IH]; intros acc; simpl; [lia|].
  rewrite IH. lia.
Qed.

Lemma totalWeight_plateLoad es its pos :
  totalWeight M es its pos = plateLoad M es its pos.
Proof.
  unfold totalWeight, plateLoad. rewrite !foldl_weight.
  assert (He : foldr Z.add 0%Z (map (entityWeight M pos) es)
               = foldr Z.add 0%Z
                   (map (fun e => roleWeight (e_type e))
                      (List.filter
                         (fun e => withinPlate M pos (e_position e)) es))).
  { induction es as [|e es IH]; [done|]. simpl.
    unfold entityWeight at 1. fold (withinPlate M pos (e_position e)).
    destruct (withinPlate M pos (e_position e)); simpl; rewrite IH; [|done].
    unfold roleWeight. case_bool_decide as He.
    - by rewrite He.
    - by destruct (e_type e). }
  assert (Hc : foldr Z.add 0%Z (map (crateWeight M pos) its)
               = (2 * Z.of_nat
                        (length
                           (List.filter
                              (fun o => bool_decide (i_type o = crate)
                                        && withinPlate M pos (i_position o))
                              its)))%Z).
  { induction its as [|o its IH]; [done|]. simpl.
    unfold crateWeight at 1. fold (withinPlate M pos (i_position o)).
    case_bool_decide; simpl; [|done].
    destruct (withinPlate M pos (i_position o)); simpl; rewrite IH; lia. }
  rewrite He, Hc. lia.
Qed.

Lemma updatePressurePlates_plate r j p :
  interactables r !! j = Some p -> i_type p = pressure_plate ->
  interactables (updatePressurePlates M r) !! j
  = Some (pressPlate
            (plateLoad M (entities r) (interactables r) (i_position p)) p).
Proof.
  intros Hp Hty. simpl.
  destruct (platePass_inv (entities r) (interactables r)
              (length (interactables r))) as [_ H].
  rewrite (H j p Hp Hty), totalWeight_plateLoad.
  apply lookup_lt_Some in Hp. by rewrite decide_True.
Qed.

(** ** What the later steps of the tick leave alone *)

Lemma sameOuter_refl a : sameOuter a a.
Proof. by repeat split. Qed.

Lemma sameOuter_trans a b c : sameOuter a b -> sameOuter b c -> sameOuter a c.
Proof.
  intros (?&?&?&?&?&?&?&?&?) (?&?&?&?&?&?&?&?&?).
  repeat split; congruence.
Qed.

Lemma updateConveyors_frame r :
  Forall2 offPlates (interactables r) (interactables (updateConveyors r))
  /\ sameOuter r (updateConveyors r)
  /\ guards (updateConveyors r) = guards r
  /\ puzzleStates (updateConveyors r) = puzzleStates r
  /\ pendingRespawns (updateConveyors r) = pendingRespawns r.
Proof.
  unfold updateConveyors.
  apply (forEachIndex_rel
           (fun a b => Forall2 offPlates (interactables a) (interactables b)
                       /\ sameOuter a b
                       /\ guards b = guards a
                       /\ puzzleStates b = puzzleStates a
                       /\ pendingRespawns b = pendingRespawns a)).
  - intros a. split; [done|]. split; [by repeat split|done].
  - intros a b c (?&?&?&?&?) (?&?&?&?&?).
    split; [by etrans|]. split; [by eapply sameOuter_trans|].
    repeat split; congruence.
  - intros i a. unfold updateConveyorAt.
    destruct (interactables a !! i) as [x|];
      [|split; [done|]; split; [by repeat split|done]].
    destruct (_ && _);
      [|split; [done|]; split; [by repeat split|done]].
    split; [apply conveyCrate_off|]. split; [by repeat split|done].
Qed.

Lemma checkHazardCollisions_frame r :
  interactables (checkHazardCollisions K M r) = interactables r
  /\ sameOuter r (checkHazardCollisions K M r)
  /\ guards (checkHazardCollisions K M r) = guards r
  /\ puzzleStates (checkHazardCollisions K M r) = puzzleStates r.
Proof.
  set (R := fun a b : Room =>
              interactables b = interactables a /\ sameOuter a b
              /\ guards b = guards a /\ puzzleStates b = puzzleStates a).
  assert (Hrefl : forall a, R a a).
  { intros a. split; [done|]. split; [by repeat split|done]. }
  assert (Htrans : forall a b c, R a b -> R b c -> R a c).
  { intros a b c (?&?&?&?) (?&?&?&?). split; [congruence|].
    split; [by eapply sameOuter_trans|]. split; congruence. }
  unfold checkHazardCollisions. apply (forEachIndex_rel R); [done..|].
  intros i a. unfold checkHazardsOf. apply (foldl_rel R); [done..|].
  intros b x. destruct (touchesHazard K M b i x); [|apply Hrefl].
  unfold respawnEntity. destruct (entities b !! i); [|apply Hrefl].
  split; [done|]. split; [by repeat split|done].
Qed.

Lemma checkGuardDetection_frame r :
  interactables (checkGuardDetection M r) = interactables r
  /\ sameOuter r (checkGuardDetection M r)
  /\ puzzleStates (checkGuardDetection M r) = puzzleStates r.
Proof.
  set (R := fun a b : Room =>
              interactables b = interactables a /\ sameOuter a b
              /\ puzzleStates b = puzzleStates a).
  assert (Hrefl : forall a, R a a).
  { intros a. split; [done|]. split; [by repeat split|done]. }
  assert (Htrans : forall a b c, R a b -> R b c -> R a c).
  { intros a b c (?&?&?) (?&?&?). split; [congruence|].
    split; [by eapply sameOuter_trans|]. congruence. }
  unfold checkGuardDetection. apply (forEachIndex_rel R); [done..|].
  intros gi a. unfold checkGuardAt.
  apply (Htrans a (set_guards (alter (detect M a) gi (guards a)) a)).
  { split; [done|]. split; [by repeat split|done]. }
  apply (forEachIndex_rel R); [done..|].
  intros ei b. unfold catchAt.
  destruct (guards b !! gi); [|apply Hrefl].
  destruct (entities b !! ei); [|apply Hrefl].
  destruct (_ && _); [|apply Hrefl].
  split; [done|]. split; [by repeat split|done].
Qed.

Lemma checkPuzzleCompletion_frame r :
  Forall2 offPlates (interactables r)
    (interactables (checkPuzzleCompletion r))
  /\ sameOuter r (checkPuzzleCompletion r)
  /\ guards (checkPuzzleCompletion r) = guards r
  /\ entities (checkPuzzleCompletion r) = entities r
  /\ pendingRespawns (checkPuzzleCompletion r) = pendingRespawns r.
Proof.
  set (R := fun a b : Room =>
              Forall2 offPlates (interactables a) (interactables b)
              /\ sameOuter a b /\ guards b = guards a
              /\ entities b = entities a
              /\ pendingRespawns b = pendingRespawns a).
  assert (Hrefl : forall a, R a a).
  { intros a. split; [done|]. split; [by repeat split|done]. }
  assert (Htrans : forall a b c, R a b -> R b c -> R a c).
  { intros a b c (?&?&?&?&?) (?&?&?&?&?). split; [by etrans|].
    split; [by eapply sameOuter_trans|]. repeat split; congruence. }
  unfold checkPuzzleCompletion. destruct (levelData r) as [L|]; [|apply Hrefl].
  apply (foldl_rel R); [done..|].
  intros a pc. unfold evalPuzzle.
  destruct (puzzleStates a !! pz_id pc) as [ps|]; [|apply Hrefl].
  destruct (completed ps); [apply Hrefl|].
  destruct (forallb _ _);
    (split; [|split; [by repeat split|done]]); [|done].
  apply grantReward_off.
Qed.

(** ** The phases of a tick *)

Lemma interactables_set_guards gs r :
  interactables (set_guards gs r) = interactables r.
Proof. reflexivity. Qed.

Lemma interactables_expirePings now r :
  interactables (expirePings now r) = interactables r.
Proof. reflexivity. Qed.

Lemma interactables_updateDistractions now r :
  interactables (updateDistractions M now r) = interactables r.
Proof. reflexivity. Qed.

Lemma guards_set_guards gs r : guards (set_guards gs r) = gs.
Proof. reflexivity. Qed.

Lemma guards_expirePings now r : guards (expirePings now r) = guards r.
Proof. reflexivity. Qed.

Lemma timeouts_set_guards gs r : timeouts (set_guards gs r) = timeouts r.
Proof. reflexivity. Qed.

Lemma timeouts_expirePings now r : timeouts (expirePings now r) = timeouts r.
Proof. reflexivity. Qed.

Lemma pings_set_guards gs r : pings (set_guards gs r) = pings r.
Proof. reflexivity. Qed.

Lemma distractions_set_guards gs r :
  distractions (set_guards gs r) = distractions r.
Proof. reflexivity. Qed.

Lemma sameOuter_set_interactables its r : sameOuter r (set_interactables its r).
Proof. by repeat split. Qed.

Lemma sameOuter_set_guards gs r : sameOuter r (set_guards gs r).
Proof. by repeat split. Qed.

Lemma updatePressurePlates_set_tick t r :
  interactables (updatePressurePlates M (set_tick t r))
  = interactables (updatePressurePlates M r).
Proof. reflexivity. Qed.

Lemma updatePressurePlates_outer r :
  sameOuter r (updatePressurePlates M r)
  /\ guards (updatePressurePlates M r) = guards r.
Proof. split; [apply sameOuter_set_interactables|reflexivity]. Qed.

Lemma updateWinches_off r :
  Forall2 offPlates (interactables r) (interactables (updateWinches r))
  /\ sameOuter r (updateWinches r) /\ guards (updateWinches r) = guards r.
Proof.
  split; [|split; [apply sameOuter_set_interactables|reflexivity]].
  unfold updateWinches, set_interactables. cbn [interactables].
  apply (Forall2_forEachIndex_rel offPlates), updateWinchAt_off.
Qed.

Lemma updatePlatforms_off r :
  Forall2 offPlates (interactables r) (interactables (updatePlatforms r))
  /\ sameOuter r (updatePlatforms r) /\ guards (updatePlatforms r) = guards r.
Proof.
  split; [|split; [apply sameOuter_set_interactables|reflexivity]].
  unfold updatePlatforms, set_interactables. cbn [interactables].
  apply (Forall2_forEachIndex_rel offPlates), updatePlatformAt_off.
Qed.

Lemma updateTimedButtons_off r :
  Forall2 offPlates (interactables r) (interactables (updateTimedButtons r))
  /\ sameOuter r (updateTimedButtons r)
  /\ guards (updateTimedButtons r) = guards r.
Proof.
  split; [|split; [apply sameOuter_set_interactables|reflexivity]].
  unfold updateTimedButtons, set_interactables. cbn [interactables].
  apply (Forall2_forEachIndex_rel offPlates), updateTimedButtonAt_off.
Qed.

(** The passes that follow the plate pass, up to [updateGuards]. *)
Lemma interactablePasses_frame a :
  let b := updateConveyors
             (updateTimedButtons
                (updatePlatforms
                   (updateWinches (updatePressurePlates M a)))) in
  Forall2 offPlates (interactables (updatePressurePlates M a))
    (interactables b)
  /\ sameOuter a b /\ guards b = guards a.
Proof.
  intros b. unfold b. clear b.
  destruct (updatePressurePlates_outer a) as [Ho0 Hg0].
  set (r0 := updatePressurePlates M a) in *.
  destruct (updateWinches_off r0) as (Hf1 & Ho1 & Hg1).
  set (r1 := updateWinches r0) in *.
  destruct (updatePlatforms_off r1) as (Hf2 & Ho2 & Hg2).
  set (r2 := updatePlatforms r1) in *.
  destruct (updateTimedButtons_off r2) as (Hf3 & Ho3 & Hg3).
  set (r3 := updateTimedButtons r2) in *.
  destruct (updateConveyors_frame r3) as (Hf4 & Ho4 & Hg4 & _).
  set (r4 := updateConveyors r3) in *.
  clearbody r0 r1 r2 r3 r4.
  split; [|split].
  - etrans; [exact Hf1|]. etrans; [exact Hf2|]. by etrans.
  - eauto using sameOuter_trans.
  - congruence.
Qed.

Lemma beforeGuards_frame r :
  Forall2 offPlates (interactables (updatePressurePlates M r))
    (interactables (beforeGuards M r))
  /\ pings (beforeGuards M r) = pings r
  /\ distractions (beforeGuards M r) = distractions r
  /\ timeouts (beforeGuards M r) = timeouts r
  /\ levelData (beforeGuards M r) = levelData r
  /\ checkpointPosition (beforeGuards M r) = checkpointPosition r
  /\ guards (beforeGuards M r) = guards r.
Proof.
  unfold beforeGuards.
  destruct (interactablePasses_frame (set_tick (tick_ r + 1)%Z r))
    as (Hf & (HL & _ & Hp & _ & Hd & Hc & _ & Ht & _) & Hg).
  rewrite updatePressurePlates_set_tick in Hf.
  repeat split; assumption.
Qed.

Lemma tick_unfold clockD clockP r :
  tick K M clockD clockP r
  = if paused r then (r, false)
    else if (updateGuardList M (guards (beforeGuards M r))).2
    then (set_guards (updateGuardList M (guards (beforeGuards M r))).1
            (beforeGuards M r), true)
    else (expirePings clockP
            (checkPuzzleCompletion
               (checkGuardDetection M (beforeDetection K M clockD r))),
          false).
Proof.
  unfold tick, beforeDetection, beforeGuards.
  destruct (paused r); [done|].
  by destruct (updateGuardList M _) as [gs []].
Qed.

Lemma tick_room clockD clockP r :
  (tick K M clockD clockP r).1
  = if paused r then r
    else if (updateGuardList M (guards (beforeGuards M r))).2
    then set_guards (updateGuardList M (guards (beforeGuards M r))).1
           (beforeGuards M r)
    else expirePings clockP
           (checkPuzzleCompletion
              (checkGuardDetection M (beforeDetection K M clockD r))).
Proof.
  rewrite tick_unfold. destruct (paused r); [done|].
  by destruct ((updateGuardList M (guards (beforeGuards M r))).2).
Qed.

(** The room handed to the detection loop, against the one that entered
    [updateGuards]. *)
Lemma beforeDetection_frame clockD r :
  interactables (beforeDetection K M clockD r)
  = interactables (beforeGuards M r)
  /\ pings (beforeDetection K M clockD r) = pings r
  /\ timeouts (beforeDetection K M clockD r) = timeouts r
  /\ levelData (beforeDetection K M clockD r) = levelData r.
Proof.
  unfold beforeDetection.
  destruct (beforeGuards_frame r) as (_ & Hp & _ & Ht & HL & _).
  set (b := beforeGuards M r) in *. clearbody b.
  set (gs := (updateGuardList M (guards b)).1). clearbody gs.
  destruct (checkHazardCollisions_frame
              (updateDistractions M clockD (set_guards gs b)))
    as (Hi & (HL' & _ & Hp' & _ & _ & _ & _ & Ht' & _) & _).
  rewrite Hi, Hp', Ht', HL'. by repeat split.
Qed.

(** The plates of the room after a tick are those the plate pass left. *)
Lemma tick_plates_off clockD clockP r :
  paused r = false ->
  Forall2 offPlates (interactables (updatePressurePlates M r))
    (interactables (tick K M clockD clockP r).1).
Proof.
  intros Hp. rewrite tick_room, Hp.
  destruct (beforeGuards_frame r) as (Hf & _).
  destruct ((updateGuardList M (guards (beforeGuards M r))).2).
  - by rewrite interactables_set_guards.
  - rewrite interactables_expirePings.
    etrans; [exact Hf|].
    destruct (beforeDetection_frame clockD r) as (<- & _).
    destruct (checkGuardDetection_frame (beforeDetection K M clockD r))
      as (<- & _).
    apply checkPuzzleCompletion_frame.
Qed.

(** C2.  After a tick of a room that is not paused, the [activated] flag
    of every pressure plate is the comparison of the threshold (1 for a
    light plate, 2 for a heavy one) with the sum of the weights (dog 1,
    panda 2, crate 2) of the entities and crates that were within the
    plate's radius when the tick began; the flag the plate had before
    plays no part, and with no weight in range the plate is
    deactivated. *)
Theorem plate_activation_is_current_weight (clockD clockP : Q) (r : Room)
  (j : nat) (p : InteractableState) :
  paused r = false ->
  interactables r !! j = Some p -> i_type p = pressure_plate ->
  let load := plateLoad M (entities r) (interactables r) (i_position p) in
  exists p',
    interactables (tick K M clockD clockP r).1 !! j = Some p'
    /\ p' = pressPlate load p
    /\ getField (i_state p') "activated"
       = JBool (requiredWeight (i_state p) <=? load)%Z
    /\ (getField (i_state p) "weightThreshold" = JStr "light" ->
        requiredWeight (i_state p) = 1%Z)
    /\ (getField (i_state p) "weightThreshold" = JStr "heavy" ->
        requiredWeight (i_state p) = 2%Z)
    /\ (load = 0%Z -> getField (i_state p') "activated" = JBool false).
Proof.
  intros Hpaused Hp Hty load.
  pose proof (updatePressurePlates_plate r j p Hp Hty) as Hpass.
  fold load in Hpass.
  destruct (Forall2_lookup_l _ _ _ j _ (tick_plates_off clockD clockP r Hpaused)
              Hpass) as (p' & Hp' & _ & Hkept).
  exists p'. split; [done|].
  assert (p' = pressPlate load p) as -> by (by apply Hkept).
  split; [done|]. split; [by unfold pressPlate; rewrite getField_setField|].
  split; [by unfold requiredWeight; intros ->|].
  split; [by unfold requiredWeight; intros ->|].
  intros H0. unfold pressPlate. rewrite getField_setField. simpl.
  rewrite H0. unfold requiredWeight. by destruct (strictEq _ _).
Qed.

(** ** Doors unlocked by plates *)

Global Instance flagKept_refl did : Reflexive (flagKept did).
Proof. by intros a. Qed.

Lemma isPlateFor_kind did a b :
  sameKind a b -> isPlateFor did b = isPlateFor did a.
Proof. intros (_ & Hty & Hl). unfold isPlateFor. by rewrite Hty, Hl. Qed.

Lemma plateFlags_rel did its its' :
  Forall2 (flagKept did) its its' -> plateFlags did its' = plateFlags did its.
Proof.
  unfold plateFlags. induction 1 as [|a b its its' [Hk Hf] _ IH]; [done|].
  simpl. rewrite (isPlateFor_kind did a b Hk).
  destruct (isPlateFor did a) eqn:Ha; [|done].
  simpl. by rewrite IH, Hf.
Qed.

Lemma offPlates_flagKept did a b : offPlates a b -> flagKept did a b.
Proof.
  intros [Hk Hp]. split; [done|]. unfold isPlateFor. intros Ha.
  apply andb_true_iff in Ha as [Ha _]. apply bool_decide_eq_true in Ha.
  by rewrite (Hp Ha).
Qed.

Lemma plateFlags_off did its its' :
  Forall2 offPlatesStill its its' -> plateFlags did its' = plateFlags did its.
Proof.
  intros H. apply plateFlags_rel. eapply Forall2_impl; [exact H|].
  intros a b Hab. by apply offPlates_flagKept, offPlatesStill_off.
Qed.

Lemma plateFlags_nonempty did its j p :
  its !! j = Some p -> isPlateFor did p = true -> plateFlags did its <> [].
Proof.
  intros Hp Hfor Hnil. unfold plateFlags in Hnil.
  apply fmap_nil_inv in Hnil.
  assert (Hin : In p (List.filter (isPlateFor did) its)).
  { apply filter_In. split; [|done].
    apply list_elem_of_In. by eapply list_elem_of_lookup_2. }
  by rewrite Hnil in Hin.
Qed.

Lemma checkDoorUnlock_verdict did its d :
  getI did its = Some d -> plateFlags did its <> [] ->
  exists d', getI did (checkDoorUnlock did its) = Some d'
             /\ i_type d' = i_type d
             /\ doorVerdict (plateFlags did its) d'.
Proof.
  intros Hd Hne. unfold checkDoorUnlock, doorVerdict, plateFlags in *.
  assert (Hlen : (0 <? length (List.filter (isPlateFor did) its))%nat = true).
  { apply Nat.ltb_lt. destruct (List.filter _ its); [done|simpl; lia]. }
  rewrite Hlen, andb_true_r.
  assert (Hall : forallb id (map plateActivated
                               (List.filter (isPlateFor did) its))
                 = forallb plateActivated (List.filter (isPlateFor did) its)).
  { generalize (List.filter (isPlateFor did) its).
    intros l. induction l as [|a l IH]; [done|]. simpl. by rewrite IH. }
  rewrite Hall.
  destruct (forallb plateActivated _);
    (eexists; split;
     [rewrite getI_modifyI by done; rewrite decide_True by done;
      rewrite Hd; reflexivity|]);
    (split; [done|]); by rewrite !getField_setField.
Qed.

Lemma checkDoorUnlock_other l its did :
  l <> did -> getI did (checkDoorUnlock l its) = getI did its.
Proof.
  intros Hne. unfold checkDoorUnlock.
  destruct (_ && _);
    [rewrite getI_modifyI by done; by rewrite decide_False|].
  destruct (0 <? _)%nat; [|done].
  rewrite getI_modifyI by done. by rewrite decide_False.
Qed.

Lemma plateChangeLink_other act its l did :
  l <> did -> getI did (plateChangeLink act its l) = getI did its.
Proof.
  intros Hne. unfold plateChangeLink.
  destruct (getI l its) as [x|] eqn:Hx; [|done].
  case_bool_decide.
  - rewrite getI_modifyI by done. by rewrite decide_False.
  - case_bool_decide; [|done].
    rewrite (getI_Some_id _ _ _ Hx). by apply checkDoorUnlock_other.
Qed.

Lemma plateChangeLink_self act its did d :
  getI did its = Some d -> i_type d = door -> plateFlags did its <> [] ->
  exists d', getI did (plateChangeLink act its did) = Some d'
             /\ i_type d' = door
             /\ doorVerdict (plateFlags did its) d'.
Proof.
  intros Hd Hty Hne. unfold plateChangeLink. rewrite Hd, Hty. simpl.
  rewrite (getI_Some_id _ _ _ Hd).
  destruct (checkDoorUnlock_verdict did its d Hd Hne) as (d' & ? & ? & ?).
  exists d'. repeat split; [done|congruence|done].
Qed.

Lemma handlePressurePlateChange_door did act links :
  forall its d,
    getI did its = Some d -> i_type d = door -> plateFlags did its <> [] ->
    exists d',
      getI did (handlePressurePlateChange links act its) = Some d'
      /\ i_type d' = door
      /\ (did ∈ links -> doorVerdict (plateFlags did its) d')
      /\ (did ∉ links -> d' = d)
      /\ (doorVerdict (plateFlags did its) d ->
          doorVerdict (plateFlags did its) d').
Proof.
  unfold handlePressurePlateChange.
  induction links as [|l links IH]; intros its d Hd Hty Hne; simpl.
  - exists d. repeat split; try done. intros H. by inversion H.
  - pose proof (plateFlags_off did _ _ (plateChangeLink_offStill act its l))
      as Hflags.
    destruct (decide (l = did)) as [->|Hl].
    + destruct (plateChangeLink_self act its did d Hd Hty Hne)
        as (d1 & Hd1 & Hty1 & Hv1).
      destruct (IH (plateChangeLink act its did) d1 Hd1 Hty1)
        as (d' & Hd' & Hty' & _ & _ & Hkeep); [by rewrite Hflags|].
      rewrite Hflags in Hkeep.
      exists d'. split; [done|]. split; [done|].
      split; [intros _; by apply Hkeep|].
      split; [intros Hnin; exfalso; apply Hnin; left|].
      intros _. by apply Hkeep.
    + destruct (IH (plateChangeLink act its l) d)
        as (d' & Hd' & Hty' & Hin & Hnin & Hkeep);
        [by rewrite plateChangeLink_other|done|by rewrite Hflags|].
      rewrite Hflags in Hin, Hkeep.
      exists d'. split; [done|]. split; [done|].
      split; [|split; [|done]].
      * intros H. apply elem_of_cons in H as [?|?]; [congruence|by apply Hin].
      * intros H. apply Hnin. intros ?. apply H. by right.
Qed.

Lemma getI_alter_other id its d k p f :
  getI id its = Some d -> its !! k = Some p -> i_type p <> i_type d ->
  (forall x, i_id (f x) = i_id x) ->
  getI id (alter f k its) = Some d.
Proof.
  intros Hd Hp Hne Hf. destruct (getI_lookup _ _ _ Hd) as (i & Hfind & Hi).
  unfold getI. rewrite list_find_alter_pres by (intros y; by rewrite Hf).
  rewrite Hfind. simpl. destruct (decide (i = k)) as [->|]; [|done].
  congruence.
Qed.

Lemma strictEq_JBool b v : strictEq (JBool b) v = true -> v = JBool b.
Proof.
  destruct v as [|b'| | | |]; simpl; try done.
  intros H. apply Bool.eqb_prop in H. by rewrite H.
Qed.

(** One step of the plate pass, seen from a door: the door is recomputed
    when the plate visited belongs to it and changes, and a door that
    agreed with its plates before the step agrees with them after it. *)
Lemma updatePlateAt_door did es k cur d :
  getI did cur = Some d -> i_type d = door -> plateFlags did cur <> [] ->
  exists d',
    getI did (updatePlateAt M es k cur) = Some d'
    /\ i_type d' = door
    /\ (forall p, cur !! k = Some p -> isPlateFor did p = true ->
          strictEq
            (JBool (requiredWeight (i_state p)
                    <=? totalWeight M es cur (i_position p))%Z)
            (getField (i_state p) "activated") = false ->
          doorVerdict (plateFlags did (updatePlateAt M es k cur)) d')
    /\ (doorVerdict (plateFlags did cur) d ->
        doorVerdict (plateFlags did (updatePlateAt M es k cur)) d').
Proof.
  intros Hd Hty Hne.
  destruct (cur !! k) as [p|] eqn:Hp.
  2:{ rewrite updatePlateAt_other by (intros q Hq; by rewrite Hp in Hq).
      exists d. split; [done|]. split; [done|]. split; [|done].
      by intros q Hq. }
  destruct (decide (i_type p = pressure_plate)) as [Hpty|Hpty].
  2:{ rewrite updatePlateAt_other
        by (intros q Hq; rewrite Hp in Hq; by injection Hq as <-).
      exists d. split; [done|]. split; [done|]. split; [|done].
      intros q Hq Hfor. injection Hq as <-. unfold isPlateFor in Hfor.
      apply andb_true_iff in Hfor as [Hfor _].
      by apply bool_decide_eq_true in Hfor. }
  set (total := totalWeight M es cur (i_position p)).
  set (its1 := alter (pressPlate total) k cur).
  assert (Hd1 : getI did its1 = Some d).
  { apply (getI_alter_other did cur d k p); [done..|congruence|done]. }
  assert (Hflags1 : (isPlateFor did p = true ->
                     plateActivated (pressPlate total p) = plateActivated p) ->
                    plateFlags did its1 = plateFlags did cur).
  { intros Hact. apply plateFlags_rel.
    apply Forall2_alter_rel; [apply _|]. intros a Ha.
    assert (a = p) as -> by congruence. by split. }
  assert (Hne1 : plateFlags did its1 <> []).
  { destruct (isPlateFor did p) eqn:Hfor.
    - apply (plateFlags_nonempty did its1 k (pressPlate total p)); [|done].
      unfold its1. by rewrite list_lookup_alter_eq, Hp.
    - rewrite Hflags1; [done|]. by intros ?. }
  unfold updatePlateAt. rewrite Hp. rewrite bool_decide_eq_true_2 by done.
  fold total.
  assert (Heq : alter
                  (fun p0 =>
                     setField "activated"
                       (JBool (requiredWeight (i_state p) <=? total)%Z)
                       (setField "currentWeight" (JNum (inject_Z total)) p0))
                  k cur = its1).
  { apply list_alter_ext; [|done]. intros x Hx.
    assert (x = p) as -> by congruence. done. }
  rewrite Heq.
  destruct (strictEq (JBool (requiredWeight (i_state p) <=? total)%Z)
              (getField (i_state p) "activated")) eqn:Hchg; simpl.
  - pose proof Hchg as Hchg'. apply strictEq_JBool in Hchg.
    assert (Hsame : plateFlags did its1 = plateFlags did cur).
    { apply Hflags1. intros _. unfold plateActivated, pressPlate.
      rewrite getField_setField. simpl. by rewrite Hchg. }
    exists d. rewrite Hsame. split; [done|]. split; [done|]. split; [|done].
    intros q Hq _ Hq'. injection Hq as <-. fold total in Hq'.
    rewrite Hchg in Hq'. by rewrite Bool.eqb_reflx in Hq'.
  - destruct (handlePressurePlateChange_door did
                (requiredWeight (i_state p) <=? total)%Z (i_linkedIds p)
                its1 d Hd1 Hty Hne1)
      as (d' & Hd' & Hty' & Hin & Hnin & Hkeep).
    rewrite (plateFlags_off did _ _
               (handlePressurePlateChange_offStill (i_linkedIds p)
                  (requiredWeight (i_state p) <=? total)%Z its1)).
    exists d'. split; [done|]. split; [done|]. split.
    + intros q Hq Hfor _. injection Hq as <-.
      apply Hin. unfold isPlateFor in Hfor.
      apply andb_true_iff in Hfor as [_ Hfor].
      by apply bool_decide_eq_true in Hfor.
    + intros Hv. destruct (decide (did ∈ i_linkedIds p)) as [Hl|Hl];
        [by apply Hin|].
      rewrite (Hnin Hl). rewrite Hflags1; [done|].
      unfold isPlateFor. rewrite (bool_decide_eq_false_2 _ Hl).
      by rewrite andb_false_r.
Qed.

Lemma forallb_id_map {A} (f : A -> bool) (l : list A) :
  forallb id (map f l) = forallb f l.
Proof. induction l as [|a l IH]; [done|]. simpl. by rewrite IH. Qed.

Lemma plateFlags_length did its its' :
  Forall2 sameShape its its' ->
  length (plateFlags did its') = length (plateFlags did its).
Proof.
  unfold plateFlags. induction 1 as [|a b its its' [Hk _] _ IH]; [done|].
  simpl. rewrite (isPlateFor_kind did a b Hk).
  destruct (isPlateFor did a); simpl; by rewrite IH.
Qed.

(** The door during the plate pass: once a plate of the door has changed,
    the door agrees with the flags its plates have at that point. *)
Lemma platePass_door did es its0 d k :
  getI did its0 = Some d -> i_type d = door -> plateFlags did its0 <> [] ->
  exists d',
    getI did (forEachIndex k (updatePlateAt M es) its0) = Some d'
    /\ i_type d' = door
    /\ ((exists j p, (j < k)%nat /\ its0 !! j = Some p
                     /\ isPlateFor did p = true
                     /\ strictEq
                          (JBool (requiredWeight (i_state p)
                                  <=? totalWeight M es its0 (i_position p))%Z)
                          (getField (i_state p) "activated") = false) ->
        doorVerdict
          (plateFlags did (forEachIndex k (updatePlateAt M es) its0)) d').
Proof.
  intros Hd Hty Hne. induction k as [|k (dk & Hdk & Htyk & IH)].
  - exists d. split; [done|]. split; [done|]. intros (j & ? & ? & _). lia.
  - rewrite forEachIndex_S.
    destruct (platePass_inv es its0 k) as [Hshape Hplates].
    set (cur := forEachIndex k (updatePlateAt M es) its0) in *.
    assert (Hnek : plateFlags did cur <> []).
    { intros Hnil. apply Hne. apply length_zero_iff_nil.
      by rewrite <- (plateFlags_length did its0 cur Hshape), Hnil. }
    destruct (updatePlateAt_door did es k cur dk Hdk Htyk Hnek)
      as (d' & Hd' & Hty' & Hnew & Hkeep).
    exists d'. split; [done|]. split; [done|].
    intros (j & p & Hj & Hp & Hfor & Hchg).
    destruct (decide (j = k)) as [->|Hjk].
    + apply (Hnew p); [|done|].
      * assert (Hpty : i_type p = pressure_plate).
        { unfold isPlateFor in Hfor.
          apply andb_true_iff in Hfor as [Hfor _].
          by apply bool_decide_eq_true in Hfor. }
        rewrite (Hplates k p Hp Hpty). by rewrite decide_False by lia.
      * by rewrite (totalWeight_shape es its0 cur _ Hshape).
    + apply Hkeep, IH. exists j, p. repeat split; [lia|done..].
Qed.

(** C3.  When the plate pass of a tick changes the [activated] flag of a
    plate whose [linkedIds] name a door, the pass leaves that door
    unlocked and open if every plate linked to it is then activated, and
    locked and closed otherwise. *)
Theorem door_follows_its_plates (r : Room) (did : string)
  (d : InteractableState) (j : nat) (p p' : InteractableState) :
  getI did (interactables r) = Some d -> i_type d = door ->
  interactables r !! j = Some p ->
  i_type p = pressure_plate -> did ∈ i_linkedIds p ->
  interactables (updatePressurePlates M r) !! j = Some p' ->
  strictEq (getField (i_state p') "activated")
    (getField (i_state p) "activated") = false ->
  exists d',
    getI did (interactables (updatePressurePlates M r)) = Some d'
    /\ if forallb plateActivated
            (List.filter (isPlateFor did)
               (interactables (updatePressurePlates M r)))
       then getField (i_state d') "locked" = JBool false
            /\ getField (i_state d') "open" = JBool true
       else getField (i_state d') "locked" = JBool true
            /\ getField (i_state d') "open" = JBool false.
Proof.
  intros Hd Hty Hp Hpty Hlink Hp' Hchg.
  assert (Hfor : isPlateFor did p = true).
  { unfold isPlateFor. by rewrite !bool_decide_eq_true_2. }
  rewrite (updatePressurePlates_plate r j p Hp Hpty) in Hp'.
  injection Hp' as <-.
  unfold pressPlate in Hchg. rewrite getField_setField in Hchg.
  simpl in Hchg. rewrite <- totalWeight_plateLoad in Hchg.
  destruct (platePass_door did (entities r) (interactables r) d
              (length (interactables r)) Hd Hty
              (plateFlags_nonempty did _ j p Hp Hfor))
    as (d' & Hd' & _ & Hv).
  exists d'. split; [exact Hd'|].
  rewrite <- forallb_id_map. apply Hv.
  exists j, p. split; [by eapply lookup_lt_Some|]. done.
Qed.

(** ** Hazard contact *)

Lemma getSpawnPosition_ext a b role :
  levelData a = levelData b -> getSpawnPosition a role = getSpawnPosition b role.
Proof. intros H. unfold getSpawnPosition. by rewrite H. Qed.

(** Out of reach of every hazard of the list, the entity is left alone. *)
Lemma checkHazards_none (l : list InteractableState) ei a x :
  entities a !! ei = Some x ->
  (forall h, h ∈ l -> hazardReaches K M h (e_position x) = false) ->
  foldl (fun acc it => if touchesHazard K M acc ei it
                       then respawnEntity ei acc else acc) a l = a.
Proof.
  intros Hx. induction l as [|h l IH]; intros Hsafe; [done|]. simpl.
  unfold touchesHazard at 2. rewrite Hx.
  rewrite (Hsafe h) by apply list_elem_of_here.
  apply IH. intros h' Hh'. apply Hsafe. by apply list_elem_of_further.
Qed.

(** What the checks of one entity may change: that entity, and the
    queue, by events that carry its identifier. *)
Lemma checkHazardsOf_effect ei a :
  let b := checkHazardsOf K M ei a in
  levelData b = levelData a /\ interactables b = interactables a
  /\ checkpointPosition b = checkpointPosition a
  /\ map e_id (entities b) = map e_id (entities a)
  /\ (forall j, j <> ei -> entities b !! j = entities a !! j)
  /\ exists evs, pendingRespawns b = pendingRespawns a ++ evs
                 /\ forall ev, ev ∈ evs ->
                      exists x, entities a !! ei = Some x
                                /\ ev_entityId ev = e_id x.
Proof.
  unfold checkHazardsOf.
  apply (foldl_rel
           (fun a b =>
              levelData b = levelData a /\ interactables b = interactables a
              /\ checkpointPosition b = checkpointPosition a
              /\ map e_id (entities b) = map e_id (entities a)
              /\ (forall j, j <> ei -> entities b !! j = entities a !! j)
              /\ exists evs, pendingRespawns b = pendingRespawns a ++ evs
                   /\ forall ev, ev ∈ evs ->
                        exists x, entities a !! ei = Some x
                                  /\ ev_entityId ev = e_id x)).
  - intros r. repeat split; try done. exists []. split; [by rewrite app_nil_r|].
    intros ev Hev. by inversion Hev.
  - intros r1 r2 r3 (H1 & H2 & H3 & H4 & H5 & evs1 & H6 & H7)
      (H1' & H2' & H3' & H4' & H5' & evs2 & H6' & H7').
    repeat split; try congruence.
    + intros j Hj. rewrite H5' by done. by apply H5.
    + exists (evs1 ++ evs2). split; [by rewrite H6', H6, app_assoc|].
      intros ev Hev. apply elem_of_app in Hev as [Hev|Hev]; [by apply H7|].
      destruct (H7' ev Hev) as (x & Hx & Hid).
      assert (Hids : e_id <$> entities r2 !! ei = e_id <$> entities r1 !! ei).
      { apply (f_equal (fun l => l !! ei)) in H4.
        by rewrite !list_lookup_fmap in H4. }
      rewrite Hx in Hids. simpl in Hids.
      destruct (entities r1 !! ei) as [y|]; [|done].
      exists y. split; [done|]. injection Hids as <-. done.
  - intros r h. destruct (touchesHazard K M r ei h) eqn:Ht.
    2:{ repeat split; try done. exists [].
        split; [by rewrite app_nil_r|]. intros ev Hev. by inversion Hev. }
    unfold touchesHazard in Ht. unfold respawnEntity.
    destruct (entities r !! ei) as [x|] eqn:Hx; [|done]. simpl.
    repeat split; try done.
    + apply list_eq. intros j. rewrite !list_lookup_fmap.
      rewrite list_lookup_alter. destruct (decide (ei = j)) as [<-|]; [|done].
      by rewrite Hx.
    + intros j Hj. by rewrite list_lookup_alter_ne.
    + eexists. split; [done|]. intros ev Hev.
      apply list_elem_of_singleton in Hev as ->. by exists x.
Qed.

Lemma eventsOf_app id l1 l2 :
  eventsOf id (l1 ++ l2) = eventsOf id l1 ++ eventsOf id l2.
Proof. unfold eventsOf. apply List.filter_app. Qed.

Lemma eventsOf_others id evs :
  (forall ev, ev ∈ evs -> ev_entityId ev <> id) -> eventsOf id evs = [].
Proof.
  intros H. induction evs as [|ev evs IH]; [done|]. simpl.
  destruct (String.eqb (ev_entityId ev) id) eqn:Heq.
  - apply String.eqb_eq in Heq. exfalso. eapply H; [|done]. left.
  - apply IH. intros ev' Hev'. apply H. by right.
Qed.

(** The first hazard of the map that reaches a position. *)
Lemma first_hazard_reached (l : list InteractableState) pos h :
  h ∈ l -> hazardReaches K M h pos = true ->
  exists before h0 after,
    l = before ++ h0 :: after
    /\ Forall (fun h' => hazardReaches K M h' pos = false) before
    /\ hazardReaches K M h0 pos = true.
Proof.
  induction l as [|a l IH]; intros Hin Hr; [by inversion Hin|].
  destruct (hazardReaches K M a pos) eqn:Ha.
  - exists [], a, l. by repeat split.
  - apply elem_of_cons in Hin as [->|Hin]; [congruence|].
    destruct (IH Hin Hr) as (before & h0 & after & -> & Hb & H0).
    exists (a :: before), h0, after. split; [done|].
    split; [by constructor|done].
Qed.

(** Once at its spawn point the entity is sent there again, with one
    more event, by every hazard that reaches the spawn point. *)
Lemma checkHazards_at_spawn (l : list InteractableState) ei e spawn a :
  entities a !! ei = Some (resetEntity spawn e) ->
  getSpawnPosition a (e_type e) = spawn ->
  let b := foldl (fun acc it => if touchesHazard K M acc ei it
                                then respawnEntity ei acc else acc) a l in
  entities b !! ei = Some (resetEntity spawn e)
  /\ pendingRespawns b
     = pendingRespawns a
       ++ replicate
            (length (List.filter (fun h' => hazardReaches K M h' spawn) l))
            {| ev_entityId := e_id e; ev_role := e_type e;
               ev_position := spawn; ev_reason := reason_hazard |}.
Proof.
  revert a. induction l as [|h l IH]; intros a Ha Hsp b; subst b.
  - simpl. split; [done|]. by rewrite app_nil_r.
  - cbn [foldl List.filter].
    assert (Ht : touchesHazard K M a ei h = hazardReaches K M h spawn).
    { unfold touchesHazard. by rewrite Ha. }
    rewrite !Ht.
    destruct (hazardReaches K M h spawn) eqn:Hh; cbv iota.
    + assert (Ha' : entities (respawnEntity ei a) !! ei
                    = Some (resetEntity spawn e)).
      { unfold respawnEntity. rewrite Ha. cbn [e_type resetEntity].
        rewrite Hsp. simpl. by rewrite list_lookup_alter_eq, Ha. }
      assert (Hsp' : getSpawnPosition (respawnEntity ei a) (e_type e)
                     = spawn).
      { rewrite <- Hsp. apply getSpawnPosition_ext.
        unfold respawnEntity. by rewrite Ha. }
      destruct (IH _ Ha' Hsp') as [He Hq]. split; [exact He|].
      rewrite Hq. unfold respawnEntity at 1. rewrite Ha.
      cbn [e_type e_id resetEntity length replicate]. rewrite Hsp. simpl.
      by rewrite <- app_assoc.
    + by apply IH.
Qed.

(** The checks of one entity that touches a hazard: the first hazard
    touched sends it to its spawn point, the later ones find it there. *)
Lemma checkHazardsOf_contact ei a e before h0 after :
  entities a !! ei = Some e ->
  interactables a = before ++ h0 :: after ->
  Forall (fun h' => hazardReaches K M h' (e_position e) = false) before ->
  hazardReaches K M h0 (e_position e) = true ->
  let spawn := getSpawnPosition a (e_type e) in
  let b := checkHazardsOf K M ei a in
  entities b !! ei = Some (resetEntity spawn e)
  /\ pendingRespawns b
     = pendingRespawns a
       ++ replicate
            (Datatypes.S
               (length (List.filter
                          (fun h' => hazardReaches K M h' spawn) after)))
            {| ev_entityId := e_id e; ev_role := e_type e;
               ev_position := spawn; ev_reason := reason_hazard |}.
Proof.
  intros He Hl Hb H0 spawn b. subst b. unfold checkHazardsOf.
  rewrite Hl, foldl_app.
  rewrite (checkHazards_none before ei a e He)
    by (by apply Forall_forall).
  cbn [foldl].
  assert (Ht : touchesHazard K M a ei h0 = true).
  { unfold touchesHazard. by rewrite He. }
  rewrite !Ht.
  assert (Ha' : entities (respawnEntity ei a) !! ei
                = Some (resetEntity spawn e)).
  { unfold respawnEntity. rewrite He. simpl.
    by rewrite list_lookup_alter_eq, He. }
  assert (Hsp' : getSpawnPosition (respawnEntity ei a) (e_type e) = spawn).
  { apply getSpawnPosition_ext. unfold respawnEntity. by rewrite He. }
  destruct (checkHazards_at_spawn after ei e spawn _ Ha' Hsp') as [Hent Hq].
  split; [exact Hent|]. rewrite Hq.
  unfold respawnEntity at 1. rewrite He. simpl.
  by rewrite <- app_assoc.
Qed.

Lemma eventsOf_replicate n ev :
  eventsOf (ev_entityId ev) (replicate n ev) = replicate n ev.
Proof.
  induction n as [|n IH]; [done|]. simpl.
  rewrite String.eqb_refl. by rewrite IH.
Qed.

(** C6 (as amended).  An entity that is within the collision radius of
    an active hazard when the hazard check of the tick runs is reset to
    its level spawn point, with zero velocity and state idle, whether or
    not a checkpoint was set.  The first hazard of the map that reaches
    it queues one respawn event (entity, role, spawn position, reason
    hazard), and so does every later hazard of the map that reaches the
    spawn point: exactly one event when no hazard reaches the spawn
    point. *)
Theorem hazard_contact_respawns_at_spawn (r : Room) (ei : nat)
  (e : EntityState) (h : InteractableState) :
  entities r !! ei = Some e -> NoDup (map e_id (entities r)) ->
  h ∈ interactables r -> hazardReaches K M h (e_position e) = true ->
  let spawn := getSpawnPosition r (e_type e) in
  let ev := {| ev_entityId := e_id e; ev_role := e_type e;
               ev_position := spawn; ev_reason := reason_hazard |} in
  let r' := checkHazardCollisions K M r in
  entities r' !! ei
  = Some {| e_id := e_id e; e_type := e_type e; e_position := spawn;
            e_velocity := mkVec2 0 0; e_facing := e_facing e;
            e_state := "idle" |}
  /\ (exists before h0 after,
        interactables r = before ++ h0 :: after
        /\ Forall (fun h' => hazardReaches K M h' (e_position e) = false)
             before
        /\ hazardReaches K M h0 (e_position e) = true
        /\ eventsOf (e_id e) (pendingRespawns r')
           = eventsOf (e_id e) (pendingRespawns r)
             ++ replicate
                  (Datatypes.S
                     (length (List.filter
                                (fun h' => hazardReaches K M h' spawn)
                                after)))
                  ev)
  /\ ((forall h', h' ∈ interactables r ->
         hazardReaches K M h' spawn = false) ->
      eventsOf (e_id e) (pendingRespawns r')
      = eventsOf (e_id e) (pendingRespawns r) ++ [ev]).
Proof.
  intros He Hnd Hh Hreach spawn ev r'.
  destruct (first_hazard_reached _ _ _ Hh Hreach)
    as (before & h0 & after & Hl & Hbefore & H0).
  set (n := Datatypes.S
              (length (List.filter (fun h' => hazardReaches K M h' spawn)
                         after))).
  assert (Hinv : forall k,
             let rk := forEachIndex k (checkHazardsOf K M) r in
             levelData rk = levelData r /\ interactables rk = interactables r
             /\ map e_id (entities rk) = map e_id (entities r)
             /\ (forall j, (k <= j)%nat -> entities rk !! j = entities r !! j)
             /\ if decide (ei < k)%nat
                then entities rk !! ei = Some (resetEntity spawn e)
                     /\ eventsOf (e_id e) (pendingRespawns rk)
                        = eventsOf (e_id e) (pendingRespawns r)
                          ++ replicate n ev
                else eventsOf (e_id e) (pendingRespawns rk)
                     = eventsOf (e_id e) (pendingRespawns r)).
  { induction k as [|k IH].
    - repeat split; try done.
    - rewrite forEachIndex_S.
      set (rk := forEachIndex k (checkHazardsOf K M) r) in *.
      destruct IH as (HL & HI & Hids & Hrest & Hcase).
      destruct (checkHazardsOf_effect k rk)
        as (HL' & HI' & _ & Hids' & Hother & evs & Hevs & Hown).
      split; [congruence|]. split; [congruence|]. split; [congruence|].
      split.
      { intros j Hj. rewrite Hother by lia. apply Hrest. lia. }
      destruct (decide (k = ei)) as [->|Hk].
      + destruct (decide (ei < ei)%nat); [lia|].
        destruct (decide (ei < Datatypes.S ei)%nat); [|lia].
        assert (Hek : entities rk !! ei = Some e)
          by (by rewrite Hrest by lia).
        assert (Hlk : interactables rk = before ++ h0 :: after)
          by congruence.
        destruct (checkHazardsOf_contact ei rk e before h0 after
                    Hek Hlk Hbefore H0) as [Hent Hq].
        rewrite (getSpawnPosition_ext rk r _ HL) in Hent, Hq.
        fold spawn in Hent, Hq. fold ev in Hq. fold n in Hq.
        split; [exact Hent|].
        rewrite Hq, eventsOf_app, Hcase. f_equal.
        apply (eventsOf_replicate n ev).
      + assert (Hnone : eventsOf (e_id e) evs = []).
        { apply eventsOf_others. intros ev' Hev' Hid.
          destruct (Hown ev' Hev') as (x & Hx & Hxid).
          assert (Hxi : map e_id (entities r) !! k = Some (e_id e)).
          { rewrite <- Hids, list_lookup_fmap, Hx. simpl. congruence. }
          assert (Hei : map e_id (entities r) !! ei = Some (e_id e)).
          { by rewrite list_lookup_fmap, He. }
          apply Hk. eapply NoDup_lookup; eauto. }
        rewrite Hevs, eventsOf_app, Hnone, app_nil_r.
        destruct (decide (ei < k)%nat) as [Hlt|Hge].
        * destruct (decide (ei < Datatypes.S k)%nat); [|lia].
          destruct Hcase as [Hent Hq].
          split; [|done]. rewrite Hother by lia. done.
        * destruct (decide (ei < Datatypes.S k)%nat); [lia|]. done. }
  destruct (Hinv (length (entities r))) as (_ & _ & _ & _ & Hfin).
  apply lookup_lt_Some in He.
  destruct (decide (ei < length (entities r))%nat); [|lia].
  destruct Hfin as [Hent Hq].
  subst r'. unfold checkHazardCollisions.
  split; [exact Hent|]. split.
  - exists before, h0, after. done.
  - intros Hsafe. rewrite Hq. f_equal. unfold n.
    assert (Hnil : List.filter (fun h' => hazardReaches K M h' spawn) after
                   = []).
    { rewrite (List.filter_ext_in _ (fun _ => false)).
      - apply List.filter_false.
      - intros h' Hin. apply Hsafe. rewrite Hl.
        apply elem_of_app. right. right. by apply list_elem_of_In. }
    by rewrite Hnil.
Qed.

(** ** The clock *)

Lemma afterPuzzles_outer clockD r :
  pings (checkPuzzleCompletion
           (checkGuardDetection M (beforeDetection K M clockD r))) = pings r
  /\ timeouts (checkPuzzleCompletion
                 (checkGuardDetection M (beforeDetection K M clockD r)))
     = timeouts r.
Proof.
  destruct (beforeDetection_frame clockD r) as (_ & Hp0 & Ht0 & _).
  set (b := beforeDetection K M clockD r) in *. clearbody b.
  destruct (checkGuardDetection_frame b)
    as (_ & (_ & _ & Hp2 & _ & _ & _ & _ & Ht2 & _) & _).
  set (c := checkGuardDetection M b) in *. clearbody c.
  destruct (checkPuzzleCompletion_frame c)
    as (_ & (_ & _ & Hp1 & _ & _ & _ & _ & Ht1 & _) & _).
  split; congruence.
Qed.

Lemma beforeDetection_clock (r : Room) (clockD clockD' : Q) :
  List.filter (unexpired clockD) (distractions r)
  = List.filter (unexpired clockD') (distractions r) ->
  beforeDetection K M clockD r = beforeDetection K M clockD' r.
Proof.
  intros Hd.
  destruct (beforeGuards_frame r) as (_ & _ & Hds & _).
  unfold beforeDetection, updateDistractions.
  rewrite !distractions_set_guards. by rewrite Hds, Hd.
Qed.

(** A tick reads the wall clock twice, to expire distractions and to
    expire pings, and nowhere else: two ticks of the same room agree
    (room and outcome) whenever their clock readings sort the
    distractions and the pings of the room the same way; and the tick
    leaves the pending callbacks as they are. *)
Lemma tick_same_expiry (r : Room)
  (clockD clockP clockD' clockP' : Q) :
  List.filter (unexpired clockD) (distractions r)
  = List.filter (unexpired clockD') (distractions r) ->
  List.filter (pingLive clockP) (pings r)
  = List.filter (pingLive clockP') (pings r) ->
  tick K M clockD clockP r = tick K M clockD' clockP' r
  /\ timeouts (tick K M clockD clockP r).1 = timeouts r.
Proof.
  intros Hd Hp. rewrite tick_room, !tick_unfold.
  rewrite <- (beforeDetection_clock r clockD clockD' Hd).
  destruct (afterPuzzles_outer clockD r) as [Hp0 Ht0].
  destruct (beforeGuards_frame r) as (_ & _ & _ & Hts & _).
  destruct (paused r); [done|].
  destruct ((updateGuardList M (guards (beforeGuards M r))).2).
  - split; [done|]. by rewrite timeouts_set_guards.
  - split; [|by rewrite timeouts_expirePings].
    unfold expirePings. by rewrite Hp0, Hp.
Qed.

Lemma sameCall_call r c c' :
  sameCall r c c' -> call K M r c = call K M r c'.
Proof.
  destruct c, c';
    try (intros Heq; exact (f_equal (call K M r) Heq)).
  intros [Hd Hp]. cbn [call].
  by rewrite (proj1 (tick_same_expiry r _ _ _ _ Hd Hp)).
Qed.

(** C9 (as amended).  Two runs of the same room that make the same
    calls in the same order (ticks, inputs, interactions, pings,
    distractions, checkpoints, queue drains, pauses, callbacks fired by
    the host), with the same clock readings and identifiers in [addPing] and
    [createDistraction], go through the same states, provided the clock
    readings of each tick sort the distractions and the pings the room
    holds at that tick the same way; and no tick runs or drops a pending
    real-time callback. *)
Theorem runs_agree_when_clocks_classify_alike (r : Room)
  (cs cs' : list Call) :
  alike K M r cs cs' ->
  trace K M r cs = trace K M r cs'
  /\ foldl (call K M) r cs = foldl (call K M) r cs'
  /\ forall clockD clockP r0,
       timeouts (tick K M clockD clockP r0).1 = timeouts r0.
Proof.
  intros H. split; [|split].
  - revert r cs' H. induction cs as [|c cs IH]; intros r [|c' cs'] H;
      try done.
    destruct H as [Hc H]. cbn [trace]. f_equal.
    rewrite <- (sameCall_call r c c' Hc). by apply IH.
  - revert r cs' H. induction cs as [|c cs IH]; intros r [|c' cs'] H;
      try done.
    destruct H as [Hc H]. cbn [foldl].
    rewrite <- (sameCall_call r c c' Hc). by apply IH.
  - intros clockD clockP r0.
    exact (proj2 (tick_same_expiry r0 clockD clockP clockD clockP
                    eq_refl eq_refl)).
Qed.

(** ** Guard alert states *)

Lemma updateGuardPatrol_alertState g g2 :
  updateGuardPatrol M g = Some g2 -> g_alertState g2 = g_alertState g.
Proof.
  unfold updateGuardPatrol. intros H.
  repeat case_match; simplify_eq; done.
Qed.

Lemma updateGuardSuspicious_alertState g :
  g_alertState (updateGuardSuspicious M g) = g_alertState g
  \/ g_alertState (updateGuardSuspicious M g) = returning.
Proof.
  unfold updateGuardSuspicious. repeat case_match; simpl; auto.
Qed.

Lemma updateGuardAlert_alertState g :
  g_alertState (updateGuardAlert M g) = g_alertState g
  \/ (g_alertState (updateGuardAlert M g) = suspicious
      /\ g_lastSeenPlayerPos g = None).
Proof.
  unfold updateGuardAlert. repeat case_match; simpl; auto.
Qed.

Lemma updateGuardReturning_alertState g :
  g_alertState (updateGuardReturning M g) = g_alertState g
  \/ g_alertState (updateGuardReturning M g) = idle.
Proof.
  unfold updateGuardReturning. repeat case_match; simpl; auto.
Qed.

Lemma updateGuard_alertState g g2 :
  updateGuard M g = Some g2 ->
  (g_alertState g2 = alert -> g_alertState g = alert)
  /\ (g_alertState g2 = suspicious ->
      g_alertState g = suspicious
      \/ (g_alertState g = alert /\ g_lastSeenPlayerPos g = None)).
Proof.
  unfold updateGuard. destruct (g_alertState g) eqn:Ha.
  - intros H. apply updateGuardPatrol_alertState in H.
    rewrite H, Ha. split; intros; discriminate.
  - intros [= <-].
    destruct (updateGuardSuspicious_alertState g) as [H|H];
      rewrite H, ?Ha; split; intros; (discriminate || by left).
  - intros [= <-].
    destruct (updateGuardAlert_alertState g) as [H|[H Hn]];
      rewrite H, ?Ha; split; intros; try discriminate; try done.
    right. done.
  - intros [= <-].
    destruct (updateGuardReturning_alertState g) as [H|H];
      rewrite H, ?Ha; split; intros; discriminate.
Qed.

Lemma updateGuardList_lookup gs0 :
  forall gi g, gs0 !! gi = Some g ->
    exists g2, (updateGuardList M gs0).1 !! gi = Some g2
               /\ (g2 = g \/ updateGuard M g = Some g2).
Proof.
  induction gs0 as [|a gs0 IH]; intros gi g Hg; [done|].
  simpl. destruct (updateGuard M a) as [a'|] eqn:Ha.
  - destruct (updateGuardList M gs0) as [rest t] eqn:Hrest. simpl.
    destruct gi as [|gi]; simpl in *.
    + injection Hg as <-. exists a'. split; [done|by right].
    + destruct (IH gi g Hg) as (g2 & Hg2 & Hor). by exists g2.
  - simpl. exists g. split; [done|by left].
Qed.

Lemma attract_position d g : g_position (attract M d g) = g_position g.
Proof. unfold attract. by repeat case_match. Qed.

Lemma hears_attract d' d g : hears M d' (attract M d g) = hears M d' g.
Proof. unfold hears. by rewrite attract_position. Qed.

Lemma attract_fold ds : forall g,
  let g3 := foldl (fun a d => attract M d a) g ds in
  (g_alertState g3 = alert -> g_alertState g = alert)
  /\ (g_alertState g3 = suspicious ->
      g_alertState g = suspicious
      \/ exists d, d ∈ ds /\ hears M d g = true /\ g_alertState g <> alert).
Proof.
  induction ds as [|d ds IH]; intros g; simpl.
  - split; [done|by left].
  - destruct (IH (attract M d g)) as [Hal Hsu]. split.
    + intros H. specialize (Hal H). revert Hal. unfold attract.
      case_bool_decide; [done|]. by destruct (hears M d g).
    + intros H. destruct (Hsu H) as [Hs|(d' & Hin & Hh & Hna)].
      * revert Hs. unfold attract. case_bool_decide as Ha; [by left|].
        destruct (hears M d g) eqn:Hh; [|by left].
        intros _. right. exists d. split; [left|done].
      * right. exists d'. split; [by right|].
        rewrite hears_attract in Hh. split; [done|].
        revert Hna. unfold attract. case_bool_decide; [done|].
        by destruct (hears M d g).
Qed.

Lemma attract_map_lookup ds : forall gs gi,
  foldl (fun gs d => map (attract M d) gs) gs ds !! gi
  = (fun g => foldl (fun a d => attract M d a) g ds) <$> gs !! gi.
Proof.
  induction ds as [|d ds IH]; intros gs gi; simpl.
  - by destruct (gs !! gi).
  - rewrite IH. change (map (attract M d) gs) with (attract M d <$> gs).
    rewrite list_lookup_fmap. by destruct (gs !! gi).
Qed.

(** The first loop of the detection: the guard is left as it was, or it
    is alert and some entity was seen. *)
Lemma detect_spec r g :
  detect M r g = g
  \/ (g_alertState (detect M r g) = alert
      /\ exists e, e ∈ entities r /\ canGuardSeeEntity M r g e = true).
Proof.
  unfold detect.
  assert (H : forall l acc,
             (forall e, e ∈ l -> e ∈ entities r) ->
             (forall e, canGuardSeeEntity M r acc e = canGuardSeeEntity M r g e) ->
             (acc = g \/ (g_alertState acc = alert
                          /\ exists e, e ∈ entities r
                                       /\ canGuardSeeEntity M r g e = true)) ->
             let res := foldl (fun acc e =>
                                 if canGuardSeeEntity M r acc e
                                 then withAlert alert 5000
                                        (Some (e_position e)) acc
                                 else acc) acc l in
             res = g \/ (g_alertState res = alert
                         /\ exists e, e ∈ entities r
                                      /\ canGuardSeeEntity M r g e = true)).
  { induction l as [|e l IH]; intros acc Hsub Hsee Hacc; [done|]. simpl.
    apply IH.
    - intros e' He'. apply Hsub. by right.
    - intros e'. destruct (canGuardSeeEntity M r acc e); apply (Hsee e').
    - destruct (canGuardSeeEntity M r acc e) eqn:He; [|done].
      right. split; [done|]. exists e. split; [apply Hsub; left|].
      by rewrite <- Hsee. }
  apply H; [done|done|by left].
Qed.

Lemma guards_respawnPlayersAtCheckpoint reason b :
  guards (respawnPlayersAtCheckpoint reason b) = guards b.
Proof. reflexivity. Qed.

Lemma catchLoop_effect gi n b :
  (forall j, j <> gi ->
     guards (forEachIndex n (catchAt M gi) b) !! j = guards b !! j)
  /\ (guards (forEachIndex n (catchAt M gi) b) !! gi = guards b !! gi
      \/ exists g0, guards (forEachIndex n (catchAt M gi) b) !! gi = Some g0
                    /\ g_alertState g0 = returning).
Proof.
  apply (forEachIndex_rel
           (fun a c =>
              (forall j, j <> gi -> guards c !! j = guards a !! j)
              /\ (guards c !! gi = guards a !! gi
                  \/ exists g0, guards c !! gi = Some g0
                                /\ g_alertState g0 = returning))).
  - intros a. split; [done|by left].
  - intros a c d [H1 H2] [H1' H2']. split.
    + intros j Hj. rewrite H1' by done. by apply H1.
    + destruct H2' as [H2'|H2']; [|by right]. by rewrite H2'.
  - intros ei a. unfold catchAt.
    destruct (guards a !! gi) as [g|] eqn:Hg; [|split; [done|by left]].
    destruct (entities a !! ei); [|split; [done|by left]].
    destruct (_ && _); [|split; [done|by left]].
    rewrite guards_set_guards, guards_respawnPlayersAtCheckpoint. split.
    + intros j Hj. by rewrite list_lookup_alter_ne.
    + right. rewrite list_lookup_alter_eq, Hg. by eexists.
Qed.

Lemma checkGuardAt_effect gi a :
  (forall j, j <> gi -> guards (checkGuardAt M gi a) !! j = guards a !! j)
  /\ (forall g, guards a !! gi = Some g ->
        exists g', guards (checkGuardAt M gi a) !! gi = Some g'
                   /\ (g' = detect M a g \/ g_alertState g' = returning)).
Proof.
  unfold checkGuardAt.
  set (a1 := set_guards (alter (detect M a) gi (guards a)) a).
  destruct (catchLoop_effect gi (length (entities a1)) a1) as [H1 H2].
  assert (Ha1 : guards a1 = alter (detect M a) gi (guards a))
    by apply guards_set_guards.
  rewrite Ha1 in H1, H2. clearbody a1. split.
  - intros j Hj. rewrite H1 by done. by rewrite list_lookup_alter_ne.
  - intros g Hg. rewrite list_lookup_alter_eq, Hg in H2. simpl in H2.
    destruct H2 as [H2|(g0 & H2 & Hr)].
    + exists (detect M a g). split; [done|by left].
    + exists g0. split; [done|by right].
Qed.

Lemma detection_guard r4 gi k :
  let rk := forEachIndex k (checkGuardAt M) r4 in
  ((k <= gi)%nat -> guards rk !! gi = guards r4 !! gi)
  /\ ((gi < k)%nat ->
      guards rk !! gi
      = guards (checkGuardAt M gi (forEachIndex gi (checkGuardAt M) r4)) !! gi).
Proof.
  induction k as [|k [IH1 IH2]]; simpl.
  - split; [done|lia].
  - rewrite forEachIndex_S.
    destruct (checkGuardAt_effect k (forEachIndex k (checkGuardAt M) r4))
      as [Hother _].
    split.
    + intros Hk. rewrite Hother by lia. apply IH1. lia.
    + intros Hk. destruct (decide (k = gi)) as [->|Hne]; [done|].
      rewrite Hother by lia. apply IH2. lia.
Qed.

Lemma checkGuardDetection_guard r4 gi g3 :
  guards r4 !! gi = Some g3 ->
  exists g5,
    guards (checkGuardDetection M r4) !! gi = Some g5
    /\ (g5 = g3
        \/ g_alertState g5 = returning
        \/ (g_alertState g5 = alert
            /\ exists e, e ∈ entities (forEachIndex gi (checkGuardAt M) r4)
                 /\ canGuardSeeEntity M (forEachIndex gi (checkGuardAt M) r4)
                      g3 e = true)).
Proof.
  intros Hg. unfold checkGuardDetection.
  destruct (detection_guard r4 gi (length (guards r4))) as [_ H].
  rewrite H by (by eapply lookup_lt_Some).
  destruct (detection_guard r4 gi gi) as [Hsame _].
  specialize (Hsame (le_n _)). rewrite Hg in Hsame.
  set (rm := forEachIndex gi (checkGuardAt M) r4) in *. clearbody rm.
  destruct (checkGuardAt_effect gi rm) as [_ Hself].
  destruct (Hself g3 Hsame) as (g' & Hg' & [->|Hr]).
  - exists (detect M rm g3). split; [done|].
    destruct (detect_spec rm g3) as [->|[Ha He]]; [by left|].
    right. right. done.
  - exists g'. split; [done|]. right. by left.
Qed.

(** C5.  Over one tick, a guard that ends in [alert] was in [alert]
    when the tick began or [canGuardSeeEntity] was true for it against
    some entity when the detection loop of that tick reached it; and a
    guard that ends in [suspicious] was in [suspicious] already, or was
    in [alert] with no last-seen position, or was not in [alert] after
    [updateGuards] and within hearing range of a distraction that had
    not expired. *)
Theorem guard_alert_needs_detection (clockD clockP : Q) (r : Room)
  (gi : nat) (g g' : GuardState) :
  guards r !! gi = Some g ->
  guards (tick K M clockD clockP r).1 !! gi = Some g' ->
  (g_alertState g' = alert ->
   g_alertState g = alert
   \/ exists gm e,
        guards (detectionTurn K M clockD gi r) !! gi = Some gm
        /\ e ∈ entities (detectionTurn K M clockD gi r)
        /\ canGuardSeeEntity M (detectionTurn K M clockD gi r) gm e = true)
  /\ (g_alertState g' = suspicious ->
      g_alertState g = suspicious
      \/ (g_alertState g = alert /\ g_lastSeenPlayerPos g = None)
      \/ exists d g2,
           (updateGuardList M (guards r)).1 !! gi = Some g2
           /\ d ∈ distractions r /\ unexpired clockD d = true
           /\ g_alertState g2 <> alert /\ hears M d g2 = true).
Proof.
  intros Hg Hg'. rewrite tick_room in Hg'.
  destruct (paused r).
  { assert (g' = g) as -> by congruence. split; [by left|by left]. }
  destruct (beforeGuards_frame r) as (_ & _ & Hds & _ & _ & _ & Hgs).
  destruct (updateGuardList_lookup (guards r) gi g Hg) as (g2 & Hg2 & Hstep).
  assert (H2 : (g_alertState g2 = alert -> g_alertState g = alert)
               /\ (g_alertState g2 = suspicious ->
                   g_alertState g = suspicious
                   \/ (g_alertState g = alert
                       /\ g_lastSeenPlayerPos g = None))).
  { destruct Hstep as [->|Hstep]; [split; [done|by left]|].
    by apply updateGuard_alertState. }
  destruct H2 as [H2a H2s].
  destruct ((updateGuardList M (guards (beforeGuards M r))).2).
  { rewrite guards_set_guards, Hgs, Hg2 in Hg'. injection Hg' as <-.
    split; [by left; apply H2a|].
    intros Hs. destruct (H2s Hs) as [?|?]; [by left|by right; left]. }
  rewrite guards_expirePings in Hg'.
  destruct (checkPuzzleCompletion_frame
              (checkGuardDetection M (beforeDetection K M clockD r)))
    as (_ & _ & Hpz & _).
  rewrite Hpz in Hg'. clear Hpz.
  set (ds := List.filter (unexpired clockD) (distractions r)).
  set (g3 := foldl (fun a d => attract M d a) g2 ds).
  assert (Hg3 : guards (beforeDetection K M clockD r) !! gi = Some g3).
  { unfold beforeDetection.
    destruct (checkHazardCollisions_frame
                (updateDistractions M clockD
                   (set_guards
                      (updateGuardList M (guards (beforeGuards M r))).1
                      (beforeGuards M r)))) as (_ & _ & -> & _).
    unfold updateDistractions.
    rewrite guards_set_guards, guards_set_guards, distractions_set_guards.
    rewrite Hds, Hgs. fold ds. by rewrite attract_map_lookup, Hg2. }
  destruct (checkGuardDetection_guard (beforeDetection K M clockD r) gi g3 Hg3)
    as (g5 & Hg5 & Hcases).
  assert (g5 = g') as -> by congruence.
  destruct (attract_fold ds g2) as [H3a H3s]. fold g3 in H3a, H3s.
  split.
  - intros Ha. destruct Hcases as [->|[Hr|[_ (e & He & Hsee)]]].
    + left. by apply H2a, H3a.
    + congruence.
    + right. exists g3, e. unfold detectionTurn. split; [|done].
      destruct (detection_guard (beforeDetection K M clockD r) gi gi)
        as [Hsame _].
      by rewrite Hsame.
  - intros Hs. destruct Hcases as [->|[Hr|[Ha _]]]; [|congruence..].
    destruct (H3s Hs) as [Hs2|(d & Hd & Hh & Hna)].
    + destruct (H2s Hs2) as [?|?]; [by left|by right; left].
    + right. right. exists d, g2. split; [done|].
      unfold ds in Hd. apply list_elem_of_In, filter_In in Hd as [Hd Hu].
      split; [by apply list_elem_of_In|]. done.
Qed.

End Properties.

(** * Further properties of the room *)

Section RoomProperties.

Variable K : Constants.
Variable M : MathLib.

(** ** Pings: creation, removal, expiry *)

Lemma deletePing_fresh id ps :
  id ∉ map p_id ps -> deletePing id ps = ps.
Proof.
  unfold deletePing. induction ps as [|q ps IH]; simpl; [done|].
  intros Hn. apply not_elem_of_cons in Hn as [Hq Hps].
  destruct (String.eqb_spec (p_id q) id) as [e|_]; [by destruct Hq|].
  simpl. by rewrite IH.
Qed.

Lemma setPing_fresh p ps :
  p_id p ∉ map p_id ps -> setPing p ps = ps ++ [p].
Proof.
  intros Hn. unfold setPing.
  destruct (list_find _ ps) as [[i q]|] eqn:Hf; [|done].
  apply list_find_Some in Hf as (Hq & Hid & _).
  destruct Hn. rewrite <- Hid. apply list_elem_of_fmap.
  exists q. split; [done|]. by eapply list_elem_of_lookup_2.
Qed.

Lemma deletePing_setPing_fresh p ps :
  p_id p ∉ map p_id ps -> deletePing (p_id p) (setPing p ps) = ps.
Proof.
  intros Hn. rewrite setPing_fresh by done.
  unfold deletePing. rewrite List.filter_app. simpl.
  rewrite String.eqb_refl. simpl. rewrite app_nil_r.
  by apply deletePing_fresh.
Qed.

(** X1. A ping made by [addPing] while the player is below the limit can
    be taken back by its author, which restores the list of pings; the
    other player cannot remove it. *)
Theorem addPing_removePing_round_trip (r r' : Room) (now : Q)
  (newId pid : string) (pos : WorldPos) (ty : PingType) (role : Role)
  (p : PingMarker) :
  players r !! pid = Some role ->
  newId ∉ map p_id (pings r) ->
  (length (pingsOf role (pings r)) < PING_MAX_PER_PLAYER K)%nat ->
  addPing K now newId pid pos ty r = (r', Some p) ->
  p ∈ pings r' /\ p_id p = newId /\ p_createdBy p = role
  /\ (removePing newId pid r').2 = true
  /\ pings (removePing newId pid r').1 = pings r
  /\ forall pid2, players r !! pid2 <> Some role ->
       removePing newId pid2 r' = (r', false).
Proof.
  intros Hrole Hfresh Hlt. unfold addPing. rewrite Hrole.
  destruct (Qltb _ _); [done|].
  destruct (Nat.leb_spec (PING_MAX_PER_PLAYER K)
              (length (pingsOf role (pings r)))) as [Hle|_]; [lia|].
  set (ping := {| p_id := newId; p_position := pos; p_type := ty;
                  p_createdBy := role; p_createdAt := now;
                  p_expiresAt := (now + PING_LIFETIME K)%Q |}).
  intros [= <- <-].
  assert (Hset : setPing ping (pings r) = pings r ++ [ping])
    by (by apply setPing_fresh).
  assert (Hfind : list_find (fun q => p_id q = newId) (pings r ++ [ping])
                  = Some (length (pings r), ping)).
  { apply list_find_Some. split; [|split; [done|]].
    - by rewrite lookup_app_r, Nat.sub_diag by lia.
    - intros j q Hj Hlen Hid.
      rewrite lookup_app_l in Hj by done.
      destruct Hfresh. rewrite <- Hid. apply list_elem_of_fmap.
      exists q. split; [done|]. by eapply list_elem_of_lookup_2. }
  destruct r as [lv pl es its ps pz tk pa lp pr gs ds cp ts].
  simpl in *. rewrite Hset.
  split; [apply elem_of_app; right; by apply list_elem_of_singleton|].
  split; [done|]. split; [done|].
  unfold removePing. simpl. rewrite Hfind. simpl.
  rewrite bool_decide_eq_true_2 by done. simpl.
  split; [done|]. split.
  - rewrite <- Hset. by apply (deletePing_setPing_fresh ping).
  - intros pid2 Hne. by rewrite bool_decide_eq_false_2.
Qed.

Lemma pings_expirePings now r :
  pings (expirePings now r) = List.filter (pingLive now) (pings r).
Proof. done. Qed.

Lemma pingLive_lt now p : pingLive now p = true <-> (now < p_expiresAt p)%Q.
Proof.
  unfold pingLive, Qgeb. rewrite negb_true_iff. apply Qleb_gt.
Qed.

(** X2. A tick that runs to its end drops exactly the pings whose expiry
    time the clock has reached; a paused tick, and a tick ended by the
    exception of the guard update, leave the pings as they were. *)
Theorem tick_expires_due_pings (clockD clockP : Q) (r : Room) :
  pings (tick K M clockD clockP r).1
  = (if paused r || (tick K M clockD clockP r).2 then pings r
     else List.filter (pingLive clockP) (pings r))
  /\ (forall p, p ∈ List.filter (pingLive clockP) (pings r)
                <-> p ∈ pings r /\ (clockP < p_expiresAt p)%Q).
Proof.
  split.
  - rewrite tick_unfold. destruct (paused r); [done|].
    destruct (updateGuardList M (guards (beforeGuards M r))).2; cbn [fst snd orb].
    + rewrite pings_set_guards.
      by destruct (beforeGuards_frame M r) as (_ & -> & _).
    + rewrite pings_expirePings.
      by destruct (afterPuzzles_outer K M clockD r) as [-> _].
  - intros p. rewrite list_elem_of_In, List.filter_In, <- list_elem_of_In.
    by rewrite pingLive_lt.
Qed.

(** ** Interactions *)

(** X3. An interaction that reports a failure leaves the room exactly as
    it was. *)
Theorem failed_interaction_changes_nothing (pid tid act : string) (r : Room) :
  success (handleInteraction pid tid act r).2 = false ->
  (handleInteraction pid tid act r).1 = r.
Proof.
  unfold handleInteraction.
  destruct (players r !! pid) as [role|]; [|done].
  destruct (getI tid (interactables r)) as [it|]; [|done].
  destruct (canInteract role it act); [|done].
  unfold processInteraction, succeeded.
  repeat case_match; cbn [fst snd success failure]; done || discriminate.
Qed.

Global Instance heavyKept_refl : Reflexive heavyKept.
Proof. by intros a. Qed.
Global Instance heavyKept_trans : Transitive heavyKept.
Proof.
  intros a b c [Hs1 H1] [Hs2 H2]. split; [by etrans|].
  intros Ht. assert (b = a) as -> by auto. auto.
Qed.

Lemma triggerLink_heavyKept its l : Forall2 heavyKept its (triggerLink its l).
Proof.
  unfold triggerLink. destruct (getI l its) as [x|] eqn:Hx; [|done].
  repeat case_bool_decide; try done.
  - apply Forall2_modifyI_rel; [apply _|]. intros a Ha. simplify_eq.
    split; [apply setField_sameShape|]. intros [?|?]; congruence.
  - apply Forall2_modifyI_rel; [apply _|]. intros a Ha. simplify_eq.
    split; [apply setField_sameShape|]. intros [?|?]; congruence.
Qed.

Lemma triggerLinkedObjects_heavyKept links its :
  Forall2 heavyKept its (triggerLinkedObjects links its).
Proof.
  unfold triggerLinkedObjects. apply Forall2_foldl_rel; [apply _..|].
  intros. apply triggerLink_heavyKept.
Qed.

Lemma modifyI_heavyKept id f its x :
  getI id its = Some x -> i_type x <> crate -> i_type x <> winch ->
  (forall a, sameShape a (f a)) ->
  Forall2 heavyKept its (modifyI id f its).
Proof.
  intros Hx Hc Hw Hf. apply Forall2_modifyI_rel; [apply _|].
  intros a Ha. simplify_eq. split; [done|]. by intros [?|?].
Qed.

(** X4. Whatever the dog asks of [handleInteraction], no interactable
    changes its place and every crate and winch stays exactly as it was:
    pushing and winching are the panda's. *)
Theorem dog_moves_no_crate_or_winch (pid tid act : string) (r : Room) :
  players r !! pid = Some dog ->
  Forall2 heavyKept (interactables r)
    (interactables (handleInteraction pid tid act r).1).
Proof.
  intros Hp. unfold handleInteraction. rewrite Hp.
  destruct (getI tid (interactables r)) as [it|] eqn:Hit; [|done].
  assert (Hid := getI_Some_id _ _ _ Hit).
  destruct (canInteract dog it act) eqn:Hcan; [|done].
  unfold canInteract in Hcan. unfold processInteraction, succeeded.
  destruct (i_type it) eqn:Hty; try done;
    repeat case_match; cbn [fst snd interactables set_interactables set_timeouts];
    try done.
  - rewrite Hid. eapply modifyI_heavyKept; [done|congruence..|].
    intros a. apply setField_sameShape.
  - etrans; [|apply triggerLinkedObjects_heavyKept].
    rewrite Hid. eapply modifyI_heavyKept; [done|congruence..|].
    intros a. apply setField_sameShape.
  - etrans; [|apply triggerLinkedObjects_heavyKept].
    rewrite Hid. eapply modifyI_heavyKept; [done|congruence..|].
    intros a. apply setField_sameShape.
  - rewrite Hid. eapply modifyI_heavyKept; [done|congruence..|].
    intros a. apply setField_sameShape.
Qed.

Lemma modifyI_lookup id f its j :
  modifyI id f its !! j
  = if decide (indexOf id its = Some j) then f <$> its !! j else its !! j.
Proof.
  unfold modifyI, indexOf.
  destruct (list_find _ its) as [[i x]|]; simpl.
  - destruct (decide (Some i = Some j)) as [Hj|Hj].
    + injection Hj as ->. apply list_lookup_alter_eq.
    + apply list_lookup_alter_ne. congruence.
  - by destruct (decide (None = Some j)).
Qed.

Lemma indexOf_modifyI id id' f its :
  (forall x, i_id (f x) = i_id x) ->
  indexOf id (modifyI id' f its) = indexOf id its.
Proof.
  intros Hf. unfold modifyI, indexOf.
  destruct (list_find (fun it => i_id it = id') its) as [[i x]|]; [|done].
  rewrite list_find_alter_pres by (intros y; by rewrite Hf).
  by destruct (list_find _ its) as [[? ?]|].
Qed.

Lemma triggerLink_modifyI its l : triggerLink its l = modifyI l toggleLinked its.
Proof.
  unfold triggerLink, modifyI, getI.
  destruct (list_find _ its) as [[i x]|] eqn:Hf; simpl; [|done].
  apply list_find_Some in Hf as (Hx & _ & _).
  assert (Hone : forall g, (forall y, its !! i = Some y -> g y = toggleLinked y) ->
                           alter g i its = alter toggleLinked i its).
  { intros g Hg. apply list_eq. intros j.
    destruct (decide (j = i)) as [->|Hne].
    - rewrite !list_lookup_alter_eq, Hx. simpl. f_equal. by apply Hg.
    - by rewrite !list_lookup_alter_ne. }
  unfold toggleLinked in *.
  repeat case_bool_decide.
  - apply Hone. intros y Hy. simplify_eq. by rewrite bool_decide_eq_true_2.
  - apply Hone. intros y Hy. simplify_eq.
    by rewrite bool_decide_eq_false_2, bool_decide_eq_true_2.
  - symmetry. apply list_eq. intros j.
    destruct (decide (j = i)) as [->|Hne].
    + rewrite list_lookup_alter_eq, Hx. simpl.
      by rewrite !bool_decide_eq_false_2.
    + by rewrite list_lookup_alter_ne.
Qed.

Lemma toggleLinked_id x : i_id (toggleLinked x) = i_id x.
Proof. unfold toggleLinked. by repeat case_bool_decide. Qed.

Lemma toggleLinked_type x : i_type (toggleLinked x) = i_type x.
Proof. unfold toggleLinked. by repeat case_bool_decide. Qed.

Lemma indexOf_triggerLinkedObjects id links : forall its,
  indexOf id (triggerLinkedObjects links its) = indexOf id its.
Proof.
  unfold triggerLinkedObjects.
  induction links as [|l links IH]; intros its; simpl; [done|].
  rewrite IH, triggerLink_modifyI.
  apply indexOf_modifyI, toggleLinked_id.
Qed.

Lemma linkCount_ext links its its' j :
  (forall id, indexOf id its' = indexOf id its) ->
  linkCount links its' j = linkCount links its j.
Proof.
  intros He. unfold linkCount. f_equal.
  induction links as [|l links IH]; simpl; [done|].
  by rewrite He, IH.
Qed.

(** Each entry is toggled once for every link that resolves to it. *)
Lemma triggerLinkedObjects_lookup links : forall its j,
  triggerLinkedObjects links its !! j
  = Nat.iter (linkCount links its j) toggleLinked <$> its !! j.
Proof.
  unfold triggerLinkedObjects.
  induction links as [|l links IH]; intros its j; simpl.
  - by destruct (its !! j).
  - rewrite IH, triggerLink_modifyI.
    rewrite (linkCount_ext links its (modifyI l toggleLinked its))
      by (intros id; apply indexOf_modifyI, toggleLinked_id).
    rewrite modifyI_lookup. unfold linkCount at 2. simpl.
    case_bool_decide as Hl; rewrite decide_bool_decide; 
      [rewrite bool_decide_eq_true_2 by done
      |rewrite bool_decide_eq_false_2 by done]; [|done].
    simpl. fold (linkCount links its j).
    destruct (its !! j) as [x|]; simpl; [|done].
    f_equal. by rewrite <- Nat.iter_succ_r.
Qed.

Lemma iter_double {A} (f : A -> A) (x : A) n :
  f (f x) = x -> Nat.iter n f (Nat.iter n f x) = x.
Proof.
  intros Hf. rewrite <- Nat.iter_add.
  induction n as [|n IH]; simpl; [done|].
  rewrite Nat.add_succ_r. simpl.
  replace (Nat.iter (n + n) f x) with x by done. done.
Qed.

Lemma iter_fixed {A} (f : A -> A) (x : A) n : f x = x -> Nat.iter n f x = x.
Proof. intros Hf. induction n; simpl; congruence. Qed.

Lemma setField_setField_id k v w it :
  i_state it !! k = Some w ->
  setField k w (setField k v it) = it.
Proof.
  intros Hk. destruct it as [i t p st ls]. unfold setField. simpl in *.
  f_equal. rewrite insert_insert_eq. by apply insert_id.
Qed.

Lemma flipLever_twice l :
  i_state l !! "position" = Some (JStr "off")
  \/ i_state l !! "position" = Some (JStr "on") ->
  flipLever (flipLever l) = l.
Proof.
  intros H. unfold flipLever at 1.
  assert (Hg : getField (i_state (flipLever l)) "position"
               = if strictEq (getField (i_state l) "position") (JStr "off")
                 then JStr "on" else JStr "off").
  { unfold flipLever. rewrite getField_setField. by case_decide. }
  rewrite Hg. unfold flipLever, getField.
  destruct H as [H|H]; rewrite H; simpl; by apply setField_setField_id.
Qed.

Lemma toggleLinked_twice x :
  (i_type x = door -> exists b, i_state x !! "open" = Some (JBool b)) ->
  (i_type x = platform -> exists b, i_state x !! "moving" = Some (JBool b)) ->
  toggleLinked (toggleLinked x) = x.
Proof.
  intros Hd Hp. unfold toggleLinked at 1. rewrite toggleLinked_type.
  unfold toggleLinked.
  case_bool_decide as Hdoor.
  - destruct (Hd Hdoor) as [b Hb]. unfold flipOpen.
    rewrite getField_setField. rewrite decide_True by done.
    unfold getField at 1. rewrite Hb. simpl. rewrite negb_involutive.
    by apply setField_setField_id.
  - case_bool_decide as Hplat; [|done].
    destruct (Hp Hplat) as [b Hb].
    rewrite getField_setField. rewrite decide_True by done.
    unfold getField at 1. rewrite Hb. simpl. rewrite negb_involutive.
    by apply setField_setField_id.
Qed.

(** The room after a lever was toggled. *)
Lemma toggle_lever_room pid lid role l r :
  players r !! pid = Some role ->
  getI lid (interactables r) = Some l -> i_type l = lever ->
  canInteract role l "toggle" = true ->
  (handleInteraction pid lid "toggle" r).1
  = set_interactables
      (triggerLinkedObjects (i_linkedIds l)
         (modifyI lid flipLever (interactables r))) r.
Proof.
  intros Hp Hl Hty Hcan. unfold handleInteraction.
  rewrite Hp, Hl, Hcan. unfold processInteraction. rewrite Hty.
  rewrite (getI_Some_id _ _ _ Hl). done.
Qed.

Lemma getI_indexOf id its x :
  getI id its = Some x <-> exists j, indexOf id its = Some j /\ its !! j = Some x.
Proof.
  unfold getI, indexOf. split.
  - destruct (list_find _ its) as [[j y]|] eqn:Hf; [|done].
    simpl. intros [= ->]. exists j. split; [done|].
    by apply list_find_Some in Hf as (? & _).
  - intros (j & Hj & Hx).
    destruct (list_find _ its) as [[j' y]|] eqn:Hf; [|done].
    simpl in *. injection Hj as ->.
    apply list_find_Some in Hf as (? & _). congruence.
Qed.

Lemma linkCount_pos links its j :
  (0 < linkCount links its j)%nat ->
  exists id, id ∈ links /\ indexOf id its = Some j.
Proof.
  unfold linkCount. induction links as [|l links IH]; simpl; [lia|].
  case_bool_decide as Hl.
  - intros _. exists l. split; [apply list_elem_of_here|done].
  - intros Hpos. destruct (IH Hpos) as (id & ? & ?).
    exists id. split; [by apply list_elem_of_further|done].
Qed.

(** X5. Toggling a lever twice brings the room back: the lever returns
    to its position and every linked door and platform to its state. *)
Theorem lever_toggled_twice_restores_room (pid lid : string) (role : Role)
  (l : InteractableState) (r : Room) :
  players r !! pid = Some role ->
  getI lid (interactables r) = Some l -> i_type l = lever ->
  canInteract role l "toggle" = true ->
  (i_state l !! "position" = Some (JStr "off")
   \/ i_state l !! "position" = Some (JStr "on")) ->
  (forall id x, id ∈ i_linkedIds l -> getI id (interactables r) = Some x ->
     (i_type x = door -> exists b, i_state x !! "open" = Some (JBool b))
     /\ (i_type x = platform ->
         exists b, i_state x !! "moving" = Some (JBool b))) ->
  let r1 := (handleInteraction pid lid "toggle" r).1 in
  success (handleInteraction pid lid "toggle" r).2 = true
  /\ success (handleInteraction pid lid "toggle" r1).2 = true
  /\ (handleInteraction pid lid "toggle" r1).1 = r.
Proof.
  intros Hp Hl Hty Hcan Hpos Hlinks r1.
  set (its := interactables r) in *.
  set (links := i_linkedIds l) in *.
  set (its1 := triggerLinkedObjects links (modifyI lid flipLever its)).
  assert (Hr1 : r1 = set_interactables its1 r)
    by (by apply (toggle_lever_room pid lid role l r)).
  clearbody r1. subst r1.
  apply getI_indexOf in Hl as Hjl. destruct Hjl as (jl & Hjl & Hljl).
  assert (Hidx1 : forall id, indexOf id its1 = indexOf id its).
  { intros id. unfold its1. rewrite indexOf_triggerLinkedObjects.
    by apply indexOf_modifyI. }
  assert (Hlever : forall y n, i_type y = lever ->
                               Nat.iter n toggleLinked y = y).
  { intros y n Hy. apply iter_fixed. unfold toggleLinked.
    rewrite !bool_decide_eq_false_2; congruence. }
  assert (Hlook1 : forall j,
             its1 !! j
             = Nat.iter (linkCount links its j) toggleLinked
                 <$> (if decide (j = jl) then flipLever <$> its !! j
                      else its !! j)).
  { intros j. unfold its1. rewrite triggerLinkedObjects_lookup.
    rewrite (linkCount_ext links its (modifyI lid flipLever its))
      by (intros id; by apply indexOf_modifyI).
    rewrite modifyI_lookup, Hjl.
    destruct (decide (j = jl)) as [->|Hne].
    - by rewrite decide_True.
    - rewrite decide_False; [done|congruence]. }
  assert (Hl1 : getI lid its1 = Some (flipLever l)).
  { apply getI_indexOf. exists jl. split; [by rewrite Hidx1|].
    rewrite Hlook1, decide_True, Hljl by done. simpl.
    by rewrite Hlever. }
  assert (Hcan1 : canInteract role (flipLever l) "toggle" = true).
  { revert Hcan. unfold canInteract.
    change (i_type (flipLever l)) with (i_type l). rewrite Hty.
    unfold flipLever. rewrite getField_setField.
    by rewrite decide_False. }
  split.
  { unfold handleInteraction. rewrite Hp.
    fold its. rewrite Hl, Hcan. unfold processInteraction.
    by rewrite Hty. }
  split.
  { unfold handleInteraction.
    change (players (set_interactables its1 r)) with (players r).
    change (interactables (set_interactables its1 r)) with its1.
    rewrite Hp, Hl1, Hcan1. unfold processInteraction.
    change (i_type (flipLever l)) with (i_type l). by rewrite Hty. }
  rewrite (toggle_lever_room pid lid role (flipLever l)); [|done..].
  change (interactables (set_interactables its1 r)) with its1.
  change (i_linkedIds (flipLever l)) with links.
  assert (Hits : triggerLinkedObjects links (modifyI lid flipLever its1) = its).
  { apply list_eq. intros j.
    rewrite triggerLinkedObjects_lookup.
    rewrite (linkCount_ext links its (modifyI lid flipLever its1))
      by (intros id; rewrite indexOf_modifyI by done; apply Hidx1).
    rewrite modifyI_lookup, Hidx1, Hjl, Hlook1.
    destruct (decide (j = jl)) as [->|Hne].
    - rewrite !decide_True by done. rewrite Hljl. simpl.
      rewrite (Hlever (flipLever l)) by done.
      rewrite (Hlever (flipLever (flipLever l))) by done.
      by rewrite flipLever_twice.
    - rewrite decide_False by congruence.
      destruct (its !! j) as [x|] eqn:Hx; simpl; [|done].
      f_equal.
      destruct (Nat.eq_dec (linkCount links its j) 0) as [->|Hc]; [done|].
      destruct (linkCount_pos links its j) as (id & Hid & Hidj); [lia|].
      destruct (Hlinks id x Hid) as [Hd Hpl].
      { apply getI_indexOf. by exists j. }
      apply iter_double. by apply toggleLinked_twice. }
  rewrite Hits. unfold its. by destruct r.
Qed.

Lemma triggerLinkedObjects_sameKind links its :
  Forall2 sameKind its (triggerLinkedObjects links its).
Proof.
  eapply Forall2_impl; [apply triggerLinkedObjects_off|]. by intros a b [? _].
Qed.

Lemma modifyI_sameKind id f its :
  (forall a, sameKind a (f a)) -> Forall2 sameKind its (modifyI id f its).
Proof. intros Hf. apply Forall2_modifyI_rel; [apply _|]. auto. Qed.

Lemma setField_sameKind k v a : sameKind a (setField k v a).
Proof. apply setField_sameShape. Qed.

Lemma pushCrate_sameKind x y a : sameKind a (pushCrate x y a).
Proof. done. Qed.

(** X6. An interaction only ever writes the state and place of
    interactables: none is added or removed, none changes its id, type
    or links; players, entities, pings, guards, puzzle progress, the
    respawn queue and the tick counter are untouched, and the only
    callback it can register is the one of a crate push. *)
Theorem interaction_writes_interactables_only (pid tid act : string)
  (r : Room) :
  let r' := (handleInteraction pid tid act r).1 in
  Forall2 sameKind (interactables r) (interactables r')
  /\ entities r' = entities r /\ players r' = players r
  /\ pings r' = pings r /\ guards r' = guards r
  /\ puzzleStates r' = puzzleStates r
  /\ pendingRespawns r' = pendingRespawns r
  /\ tick_ r' = tick_ r /\ levelData r' = levelData r
  /\ (timeouts r' = timeouts r
      \/ timeouts r' = timeouts r ++ [ {| to_crate := tid; to_delay := 200 |} ]).
Proof.
  assert (Hsame : Forall2 sameKind (interactables r) (interactables r)
                  /\ entities r = entities r /\ players r = players r
                  /\ pings r = pings r /\ guards r = guards r
                  /\ puzzleStates r = puzzleStates r
                  /\ pendingRespawns r = pendingRespawns r
                  /\ tick_ r = tick_ r /\ levelData r = levelData r
                  /\ (timeouts r = timeouts r
                      \/ timeouts r
                         = timeouts r ++ [ {| to_crate := tid; to_delay := 200 |} ])).
  { repeat split; try done. by left. }
  unfold handleInteraction.
  destruct (players r !! pid) as [role|]; [|done].
  destruct (getI tid (interactables r)) as [it|] eqn:Hit; [|done].
  assert (Hid := getI_Some_id _ _ _ Hit).
  destruct (canInteract role it act); [|done].
  unfold processInteraction, succeeded. rewrite Hid.
  destruct (i_type it); try done;
    repeat case_match; try done;
    cbn [fst snd interactables set_interactables set_timeouts entities
         players pings guards puzzleStates pendingRespawns tick_ levelData
         timeouts];
    (split; [|repeat split; try done; by (left + right)]).
  - apply modifyI_sameKind. intros a. apply setField_sameKind.
  - etrans; [|apply triggerLinkedObjects_sameKind].
    apply modifyI_sameKind. intros a. apply setField_sameKind.
  - apply modifyI_sameKind. intros a. apply pushCrate_sameKind.
  - apply modifyI_sameKind. intros a. apply setField_sameKind.
  - apply modifyI_sameKind. intros a. apply setField_sameKind.
  - etrans; [|apply triggerLinkedObjects_sameKind].
    apply modifyI_sameKind. intros a. apply setField_sameKind.
  - apply modifyI_sameKind. intros a. apply setField_sameKind.
Qed.

(** ** The tick as a chain of passes *)

(** A relation that every pass of the tick respects holds between the
    room whose counter was advanced and the room the tick leaves. *)
Lemma tick_rel (R : Room -> Room -> Prop) (clockD clockP : Q) :
  (forall a, R a a) -> (forall a b c, R a b -> R b c -> R a c) ->
  (forall a, R a (updatePressurePlates M a)) ->
  (forall a, R a (updateWinches a)) ->
  (forall a, R a (updatePlatforms a)) ->
  (forall a, R a (updateTimedButtons a)) ->
  (forall a, R a (updateConveyors a)) ->
  (forall a, R a (set_guards (updateGuardList M (guards a)).1 a)) ->
  (forall a, R a (updateDistractions M clockD a)) ->
  (forall a, R a (checkHazardCollisions K M a)) ->
  (forall a, R a (checkGuardDetection M a)) ->
  (forall a, R a (checkPuzzleCompletion a)) ->
  (forall a, R a (expirePings clockP a)) ->
  forall r, paused r = false ->
    R (set_tick (tick_ r + 1)%Z r) (tick K M clockD clockP r).1.
Proof.
  intros Hrefl Htrans Hpl Hwi Hpf Htb Hco Hgu Hdi Hha Hde Hpu Hex r Hp.
  rewrite tick_room, Hp.
  assert (Hbg : R (set_tick (tick_ r + 1)%Z r) (beforeGuards M r)).
  { unfold beforeGuards.
    eapply Htrans; [|apply Hco]. eapply Htrans; [|apply Htb].
    eapply Htrans; [|apply Hpf]. eapply Htrans; [|apply Hwi]. apply Hpl. }
  unfold beforeDetection.
  set (b := beforeGuards M r) in *. clearbody b.
  destruct ((updateGuardList M (guards b)).2).
  - eapply Htrans; [exact Hbg|]. apply Hgu.
  - eapply Htrans; [|apply Hex]. eapply Htrans; [|apply Hpu].
    eapply Htrans; [|apply Hde]. eapply Htrans; [|apply Hha].
    eapply Htrans; [|apply Hdi]. eapply Htrans; [exact Hbg|]. apply Hgu.
Qed.

Lemma tick_counter clockD clockP r :
  paused r = false ->
  tick_ (tick K M clockD clockP r).1 = (tick_ r + 1)%Z
  /\ paused (tick K M clockD clockP r).1 = false.
Proof.
  intros Hp.
  pose (R := fun a b : Room => tick_ b = tick_ a /\ paused b = paused a).
  assert (Hout : forall a b, sameOuter a b -> R a b).
  { intros a b (_&_&_&_&_&_&?&_&?). by split. }
  assert (H : R (set_tick (tick_ r + 1)%Z r) (tick K M clockD clockP r).1).
  { apply tick_rel; try done.
    - intros a b c [? ?] [? ?]. split; congruence.
    - intros a. apply Hout, updateConveyors_frame.
    - intros a. apply Hout, checkHazardCollisions_frame.
    - intros a. apply Hout, checkGuardDetection_frame.
    - intros a. apply Hout, checkPuzzleCompletion_frame. }
  destruct H as [-> ->]. by split.
Qed.

(** X7. Ticks in a row that do not end in an exception, on a room that
    is not paused, advance the counter by one each and leave the room
    unpaused. *)
Theorem ticks_advance_counter (clock : nat -> Q) (n : nat) (r : Room) :
  paused r = false -> (ticks K M clock n r).2 = false ->
  tick_ (ticks K M clock n r).1 = (tick_ r + Z.of_nat n)%Z
  /\ paused (ticks K M clock n r).1 = false.
Proof.
  intros Hp. induction n as [|n IH].
  - intros _. simpl. split; [lia|done].
  - cbn [ticks].
    destruct (ticks K M clock n r) as [r1 threw] eqn:Hn.
    destruct threw; [done|]. intros Hthrew.
    destruct IH as [IH1 IH2]; [done|]. cbn [fst] in IH1, IH2.
    destruct (tick_counter (clock n) (clock n) r1 IH2) as [-> ->].
    split; [lia|done].
Qed.

(** ** Identity of the objects of the room *)

Global Instance sameEntity_refl : Reflexive sameEntity.
Proof. by intros a. Qed.
Global Instance sameEntity_trans : Transitive sameEntity.
Proof. intros a b c [? ?] [? ?]. split; congruence. Qed.

Lemma Forall2_alter_entity (f : EntityState -> EntityState) i es :
  (forall a, sameEntity a (f a)) -> Forall2 sameEntity es (alter f i es).
Proof.
  intros Hf. revert i. induction es as [|e es IH]; intros i.
  - destruct i; constructor.
  - destruct i as [|i]; constructor.
    + apply Hf.
    + reflexivity.
    + reflexivity.
    + apply IH.
Qed.

Lemma Forall2_map_entity (f : EntityState -> EntityState) es :
  (forall a, sameEntity a (f a)) -> Forall2 sameEntity es (map f es).
Proof. intros Hf. induction es; simpl; constructor; auto. Qed.

Lemma updatePressurePlates_sameKind r :
  Forall2 sameKind (interactables r) (interactables (updatePressurePlates M r)).
Proof.
  unfold updatePressurePlates, set_interactables. cbn [interactables].
  destruct (platePass_inv M (entities r) (interactables r)
              (length (interactables r))) as [H _].
  eapply Forall2_impl; [exact H|]. by intros a b [? _].
Qed.

Lemma offPlates_sameKind its its' :
  Forall2 offPlates its its' -> Forall2 sameKind its its'.
Proof. intros H. eapply Forall2_impl; [exact H|]. by intros a b [? _]. Qed.

(** X8. A tick neither adds nor removes an interactable or an entity, and
    changes no id, type, link list or role: it only writes states and
    positions. *)
Theorem tick_keeps_objects (clockD clockP : Q) (r : Room) :
  Forall2 sameKind (interactables r)
    (interactables (tick K M clockD clockP r).1)
  /\ Forall2 sameEntity (entities r) (entities (tick K M clockD clockP r).1)
  /\ players (tick K M clockD clockP r).1 = players r
  /\ levelData (tick K M clockD clockP r).1 = levelData r.
Proof.
  destruct (paused r) eqn:Hp.
  { rewrite tick_room, Hp. by repeat split. }
  pose (R := fun a b : Room =>
               Forall2 sameKind (interactables a) (interactables b)
               /\ Forall2 sameEntity (entities a) (entities b)
               /\ players b = players a /\ levelData b = levelData a).
  assert (Hrefl : forall a, R a a) by (intros a; by repeat split).
  assert (Htrans : forall a b c, R a b -> R b c -> R a c).
  { intros a b c (?&?&?&?) (?&?&?&?).
    split; [by etrans|]. split; [by etrans|]. split; congruence. }
  assert (Hits : forall a b,
             Forall2 sameKind (interactables a) (interactables b) ->
             entities b = entities a -> sameOuter a b -> R a b).
  { intros a b Hk He (HL & Hpl & _). split; [done|].
    rewrite He. by repeat split. }
  assert (Hent : forall a b,
             interactables b = interactables a ->
             Forall2 sameEntity (entities a) (entities b) ->
             sameOuter a b -> R a b).
  { intros a b Hi He (HL & Hpl & _). unfold R. rewrite Hi. by repeat split. }
  apply (tick_rel R clockD clockP) in Hp; try done.
  - intros a. apply Hits; [apply updatePressurePlates_sameKind|done|].
    apply updatePressurePlates_outer.
  - intros a. destruct (updateWinches_off a) as (Hf & Ho & _).
    apply Hits; [by apply offPlates_sameKind|done|done].
  - intros a. destruct (updatePlatforms_off a) as (Hf & Ho & _).
    apply Hits; [by apply offPlates_sameKind|done|done].
  - intros a. destruct (updateTimedButtons_off a) as (Hf & Ho & _).
    apply Hits; [by apply offPlates_sameKind|done|done].
  - intros a. unfold updateConveyors. apply (forEachIndex_rel R); [done..|].
    intros i b. unfold updateConveyorAt.
    destruct (interactables b !! i) as [x|]; [|done].
    destruct (_ && _); [|done].
    split; [|split; [|done]].
    + apply offPlates_sameKind, conveyCrate_off.
    + apply Forall2_map_entity. intros e. unfold conveyEntity.
      by destruct (isOnConveyor _ _ _).
  - intros a. unfold checkHazardCollisions.
    apply (forEachIndex_rel R); [done..|].
    intros i b. unfold checkHazardsOf. apply (foldl_rel R); [done..|].
    intros c x. destruct (touchesHazard K M c i x); [|done].
    unfold respawnEntity. destruct (entities c !! i); [|done].
    split; [done|]. split; [|done].
    by apply Forall2_alter_entity.
  - intros a. unfold checkGuardDetection.
    apply (forEachIndex_rel R); [done..|].
    intros gi b. unfold checkGuardAt.
    apply (Htrans b (set_guards (alter (detect M b) gi (guards b)) b)); [done|].
    apply (forEachIndex_rel R); [done..|].
    intros ei c. unfold catchAt.
    destruct (guards c !! gi); [|done].
    destruct (entities c !! ei); [|done].
    destruct (_ && _); [|done].
    split; [done|]. split; [|done].
    by apply Forall2_map_entity.
  - intros a. destruct (checkPuzzleCompletion_frame a) as (Hf & Ho & _ & He & _).
    apply Hits; [by apply offPlates_sameKind|done|done].
Qed.

(** ** Guards *)

Lemma nearestStep_bound pos route : forall i ni nd,
  (ni < Nat.max i 1)%nat ->
  let '(i', ni', _) := foldl (nearestStep M pos) (i, ni, nd) route in
  i' = (i + length route)%nat /\ (ni' < Nat.max i' 1)%nat.
Proof.
  induction route as [|wp route IH]; intros i ni nd Hni; cbn [foldl].
  - simpl. split; [lia|done].
  - assert (Hstep : exists b c,
               nearestStep M pos (i, ni, nd) wp = (Datatypes.S i, b, c)
               /\ (b < Nat.max (Datatypes.S i) 1)%nat).
    { unfold nearestStep. destruct nd as [d|]; [destruct (Qltb _ d)|];
        eexists _, _; (split; [done|lia]). }
    destruct Hstep as (b & c & -> & Hb). specialize (IH _ b c Hb).
    destruct (foldl _ _ route) as [[i' ni'] nd'].
    destruct IH as [-> ?]. simpl. split; lia.
Qed.

Lemma nearestWaypoint_lt pos route :
  route <> [] -> (nearestWaypoint M pos route < length route)%nat.
Proof.
  intros Hne. unfold nearestWaypoint.
  pose proof (nearestStep_bound pos route 0 0 None) as H.
  destruct (foldl _ _ route) as [[i' ni'] nd']. simpl.
  destruct H as [-> H]; [lia|].
  destruct route; [done|]. simpl in *. lia.
Qed.

Lemma patrolOk_ext g g' :
  g_patrolRoute g' = g_patrolRoute g ->
  g_patrolIndex g' = g_patrolIndex g ->
  g_patrolDirection g' = g_patrolDirection g ->
  patrolOk g -> patrolOk g'.
Proof. unfold patrolOk. intros -> -> ->. done. Qed.

Lemma updateGuardPatrol_ok g :
  patrolOk g -> exists g', updateGuardPatrol M g = Some g' /\ patrolOk g'.
Proof.
  intros Hok. unfold updateGuardPatrol.
  destruct Hok as [Hnil|(Hlen & Hidx & Hdir)].
  { rewrite Hnil. simpl. exists g. split; [done|by left]. }
  destruct (Z.eqb_spec (Z.of_nat (length (g_patrolRoute g))) 0); [lia|].
  destruct (Z.ltb_spec (g_patrolIndex g) 0); [lia|].
  destruct (Z.leb_spec (Z.of_nat (length (g_patrolRoute g))) (g_patrolIndex g));
    [lia|]. simpl.
  destruct (g_patrolRoute g !! Z.to_nat (g_patrolIndex g)) as [target|] eqn:Ht.
  2:{ apply lookup_ge_None in Ht. lia. }
  destruct (Qltb _ _).
  - destruct (Z.leb_spec (Z.of_nat (length (g_patrolRoute g)))
                (g_patrolIndex g + g_patrolDirection g)).
    { eexists. split; [done|]. right. simpl. split; [done|]. split; [lia|].
      by right. }
    destruct (Z.ltb_spec (g_patrolIndex g + g_patrolDirection g) 0).
    { eexists. split; [done|]. right. simpl. split; [done|]. split; [lia|].
      by left. }
    eexists. split; [done|]. right. simpl. split; [done|]. split; [lia|done].
  - eexists. split; [done|]. right. simpl. by repeat split; try lia.
Qed.

Lemma updateGuardSuspicious_ok g :
  patrolOk g -> patrolOk (updateGuardSuspicious M g).
Proof.
  apply patrolOk_ext; unfold updateGuardSuspicious; by repeat case_match.
Qed.

Lemma updateGuardAlert_ok g : patrolOk g -> patrolOk (updateGuardAlert M g).
Proof. apply patrolOk_ext; unfold updateGuardAlert; by repeat case_match. Qed.

Lemma updateGuardReturning_ok g :
  patrolOk g -> patrolOk (updateGuardReturning M g).
Proof.
  intros Hok. unfold updateGuardReturning.
  destruct (g_patrolRoute g) as [|w ws] eqn:Hr; [by left|].
  rewrite <- Hr.
  pose proof (nearestWaypoint_lt (g_position g) (g_patrolRoute g)) as Hlt.
  destruct (g_patrolRoute g !! _) as [target|]; [|done].
  destruct (Qltb _ _).
  - destruct Hok as [Hnil|(Hlen & Hidx & Hdir)]; [congruence|].
    right. simpl. split; [done|]. split; [|done].
    assert (Hne : g_patrolRoute g <> []) by congruence.
    specialize (Hlt Hne). lia.
  - revert Hok. by apply patrolOk_ext.
Qed.

Lemma updateGuard_ok g :
  patrolOk g -> exists g', updateGuard M g = Some g' /\ patrolOk g'.
Proof.
  intros Hok. unfold updateGuard. destruct (g_alertState g).
  - by apply updateGuardPatrol_ok.
  - eexists. split; [done|]. by apply updateGuardSuspicious_ok.
  - eexists. split; [done|]. by apply updateGuardAlert_ok.
  - eexists. split; [done|]. by apply updateGuardReturning_ok.
Qed.

Lemma updateGuardList_ok gs :
  Forall patrolOk gs ->
  (updateGuardList M gs).2 = false /\ Forall patrolOk (updateGuardList M gs).1.
Proof.
  induction 1 as [|g gs Hg Hgs [IH1 IH2]]; simpl; [done|].
  destruct (updateGuard_ok g Hg) as (g' & -> & Hg').
  destruct (updateGuardList M gs) as [rest threw]. simpl in *.
  split; [done|]. by constructor.
Qed.

Lemma withAlert_ok a t s g : patrolOk g -> patrolOk (withAlert a t s g).
Proof. by apply patrolOk_ext. Qed.

Lemma attract_ok d g : patrolOk g -> patrolOk (attract M d g).
Proof. unfold attract. repeat case_match; auto using withAlert_ok. Qed.

Lemma detect_ok r g : patrolOk g -> patrolOk (detect M r g).
Proof.
  unfold detect. generalize (entities r). intros es. revert g.
  induction es as [|e es IH]; intros g Hg; simpl; [done|].
  apply IH. destruct (canGuardSeeEntity M r g e); auto using withAlert_ok.
Qed.

Lemma Forall_alter_ok (f : GuardState -> GuardState) i gs :
  (forall g, patrolOk g -> patrolOk (f g)) ->
  Forall patrolOk gs -> Forall patrolOk (alter f i gs).
Proof.
  intros Hf Hgs. revert i. induction Hgs as [|g gs Hg Hgs IH]; intros i.
  - destruct i; constructor.
  - destruct i as [|i]; constructor; auto.
Qed.

Lemma updateDistractions_ok now r :
  Forall patrolOk (guards r) ->
  Forall patrolOk (guards (updateDistractions M now r)).
Proof.
  unfold updateDistractions. rewrite guards_set_guards.
  generalize (List.filter (unexpired now) (distractions r)). intros ds.
  generalize (guards r). induction ds as [|d ds IH]; intros gs Hgs; simpl;
    [done|].
  apply IH. apply Forall_fmap. eapply Forall_impl; [exact Hgs|].
  intros g. apply attract_ok.
Qed.

Lemma checkGuardDetection_ok r :
  Forall patrolOk (guards r) ->
  Forall patrolOk (guards (checkGuardDetection M r)).
Proof.
  pose (R := fun a b : Room =>
               Forall patrolOk (guards a) -> Forall patrolOk (guards b)).
  assert (Hrefl : forall a, R a a) by (intros a Ha; exact Ha).
  assert (Htrans : forall a b c, R a b -> R b c -> R a c)
    by (intros a b c Hab Hbc Ha; apply Hbc, Hab, Ha).
  unfold checkGuardDetection. apply (forEachIndex_rel R); [done..|].
  intros gi a. unfold checkGuardAt.
  apply (Htrans a (set_guards (alter (detect M a) gi (guards a)) a)).
  { intros Ha. rewrite guards_set_guards.
    apply Forall_alter_ok; [|done]. intros g. apply detect_ok. }
  apply (forEachIndex_rel R); [done..|].
  intros ei b. unfold catchAt.
  destruct (guards b !! gi); [|apply Hrefl].
  destruct (entities b !! ei); [|apply Hrefl].
  destruct (_ && _); [|apply Hrefl].
  intros Hb. rewrite guards_set_guards, guards_respawnPlayersAtCheckpoint.
  apply Forall_alter_ok; [|done]. intros g0. apply withAlert_ok.
Qed.

Lemma tick_patrolOk clockD clockP r :
  Forall patrolOk (guards r) ->
  (tick K M clockD clockP r).2 = false
  /\ Forall patrolOk (guards (tick K M clockD clockP r).1).
Proof.
  intros Hok. destruct (paused r) eqn:Hp.
  { rewrite tick_unfold, Hp. done. }
  split.
  - rewrite tick_unfold, Hp.
    destruct (beforeGuards_frame M r) as (_&_&_&_&_&_&->).
    destruct (updateGuardList_ok _ Hok) as [-> _]. done.
  - pose (R := fun a b : Room =>
                 Forall patrolOk (guards a) -> Forall patrolOk (guards b)).
    assert (Hsame : forall a b, guards b = guards a -> R a b)
      by (intros a b Hg; unfold R; by rewrite Hg).
    apply (tick_rel R clockD clockP) in Hp; [by apply Hp|..].
    + intros a Ha; exact Ha.
    + intros a b c Hab Hbc Ha; apply Hbc, Hab, Ha.
    + intros a. by apply Hsame.
    + intros a. apply Hsame, updateWinches_off.
    + intros a. apply Hsame, updatePlatforms_off.
    + intros a. apply Hsame, updateTimedButtons_off.
    + intros a. apply Hsame, updateConveyors_frame.
    + intros a Ha. rewrite guards_set_guards.
      by apply updateGuardList_ok.
    + intros a Ha. by apply updateDistractions_ok.
    + intros a. apply Hsame, checkHazardCollisions_frame.
    + intros a Ha. by apply checkGuardDetection_ok.
    + intros a. apply Hsame, checkPuzzleCompletion_frame.
    + intros a. by apply Hsame.
Qed.

(** X9. When every guard of the room has a patrol it can follow (no
    route, or at least two waypoints with the index inside the route and
    a unit direction), no number of ticks ends in the exception of the
    guard update, and the guards keep such a patrol. *)
Theorem patrols_in_range_never_throw (clock : nat -> Q) (n : nat) (r : Room) :
  Forall patrolOk (guards r) ->
  (ticks K M clock n r).2 = false
  /\ Forall patrolOk (guards (ticks K M clock n r).1).
Proof.
  intros Hok. induction n as [|n [IH1 IH2]]; [done|].
  cbn [ticks]. destruct (ticks K M clock n r) as [r1 threw].
  simpl in IH1, IH2. subst threw. by apply tick_patrolOk.
Qed.

(** X10. A patrol route of a single waypoint breaks the guard update: the
    idle guard that stands on its waypoint steps its index out of the
    route, the next update of that guard throws, and so does
    [updateGuards] of any room that holds it. *)
Theorem single_waypoint_patrol_throws (g : GuardState) (w : WorldPos) :
  g_alertState g = idle -> g_patrolRoute g = [w] -> g_patrolIndex g = 0%Z ->
  g_patrolDirection g <> 0%Z ->
  Qltb (distance M (px w - px (g_position g)) (py w - py (g_position g)))
    0.2 = true ->
  exists g', updateGuard M g = Some g'
             /\ g_alertState g' = idle
             /\ (g_patrolIndex g' = -1 \/ g_patrolIndex g' = 1)%Z
             /\ updateGuard M g' = None
             /\ forall gs rest,
                  (updateGuardList M (gs ++ g' :: rest)).2 = true.
Proof.
  intros Hst Hr Hi Hd Hnear.
  assert (Hnone : forall g', g_alertState g' = idle -> g_patrolRoute g' = [w] ->
                    (g_patrolIndex g' = -1 \/ g_patrolIndex g' = 1)%Z ->
                    updateGuard M g' = None).
  { intros g' Hst' Hr' Hi'. unfold updateGuard, updateGuardPatrol.
    rewrite Hst', Hr'. simpl. by destruct Hi' as [-> | ->]. }
  assert (Hlist : forall g', updateGuard M g' = None ->
            forall gs rest, (updateGuardList M (gs ++ g' :: rest)).2 = true).
  { intros g' Hg' gs rest. induction gs as [|x gs IH]; simpl.
    - by rewrite Hg'.
    - destruct (updateGuard M x); [|done].
      by destruct (updateGuardList M (gs ++ g' :: rest)) as [? ?]. }
  unfold updateGuard at 1. rewrite Hst. unfold updateGuardPatrol.
  rewrite Hr, Hi. simpl. rewrite Hnear.
  change (Z.of_nat 1) with 1%Z.
  destruct (Z.leb_spec 1 (0 + g_patrolDirection g)).
  - eexists. split; [done|]. split; [done|]. split; [by left|].
    split; [|apply Hlist]; by apply Hnone; simpl; auto.
  - destruct (Z.ltb_spec (0 + g_patrolDirection g) 0); [|lia].
    eexists. split; [done|]. split; [done|]. split; [by right|].
    split; [|apply Hlist]; by apply Hnone; simpl; auto.
Qed.

Lemma updateGuardSuspicious_step g :
  g_alertTimer (updateGuardSuspicious M g) = (g_alertTimer g - 50)%Q
  /\ (if Qleb (g_alertTimer g - 50) 0
      then g_alertState (updateGuardSuspicious M g) = returning
           /\ g_lastSeenPlayerPos (updateGuardSuspicious M g) = None
      else g_alertState (updateGuardSuspicious M g) = g_alertState g
           /\ g_lastSeenPlayerPos (updateGuardSuspicious M g)
              = g_lastSeenPlayerPos g).
Proof.
  unfold updateGuardSuspicious. cbn [withAlert g_lastSeenPlayerPos].
  destruct (g_lastSeenPlayerPos g) as [seen|] eqn:Hseen.
  - destruct (Qgtb _ _); cbn [stepToward withMotion withAlert g_alertTimer
                               g_alertState g_lastSeenPlayerPos];
      destruct (Qleb (g_alertTimer g - 50) 0); by repeat split.
  - cbn [withAlert g_alertTimer g_alertState g_lastSeenPlayerPos].
    destruct (Qleb (g_alertTimer g - 50) 0); by repeat split.
Qed.

Lemma suspicious_countdown g n :
  g_alertState g = suspicious ->
  (50 * inject_Z (Z.of_nat n) < g_alertTimer g)%Q ->
  exists gn, updateGuardTimes M n g = Some gn
             /\ g_alertState gn = suspicious
             /\ (g_alertTimer gn == g_alertTimer g - 50 * inject_Z (Z.of_nat n))%Q
             /\ g_lastSeenPlayerPos gn = g_lastSeenPlayerPos g.
Proof.
  intros Hst. induction n as [|n IH]; intros Hlt.
  - exists g. repeat split; try done.
    change (inject_Z (Z.of_nat 0)) with 0%Q. lra.
  - assert (Hn : (inject_Z (Z.of_nat (Datatypes.S n))
                  == inject_Z (Z.of_nat n) + 1)%Q).
    { rewrite Nat2Z.inj_succ. unfold Z.succ. rewrite inject_Z_plus. done. }
    rewrite Hn in Hlt.
    destruct IH as (gn & Hgn & Hsn & Htn & Hln); [lra|].
    exists (updateGuardSuspicious M gn).
    cbn [updateGuardTimes]. rewrite Hgn. simpl.
    unfold updateGuard at 1. rewrite Hsn.
    destruct (updateGuardSuspicious_step gn) as [Ht Hs].
    split; [done|].
    assert (Hpos : (0 < g_alertTimer gn - 50)%Q).
    { lra. }
    apply Qleb_gt in Hpos. rewrite Hpos in Hs. destruct Hs as [Hs1 Hs2].
    split; [congruence|]. split; [|congruence].
    rewrite Ht. lra.
Qed.

(** X11. A suspicious guard counts its timer down by 50 at every update:
    it stays suspicious, with the position it investigates, as long as
    the timer stays above zero, and the update that brings the timer to
    zero or below makes it return to its patrol and forget the
    position. *)
Theorem suspicion_times_out (g : GuardState) (n : nat) :
  g_alertState g = suspicious ->
  (50 * inject_Z (Z.of_nat n) < g_alertTimer g)%Q ->
  (exists gn, updateGuardTimes M n g = Some gn
              /\ g_alertState gn = suspicious
              /\ (g_alertTimer gn
                  == g_alertTimer g - 50 * inject_Z (Z.of_nat n))%Q
              /\ g_lastSeenPlayerPos gn = g_lastSeenPlayerPos g)
  /\ ((g_alertTimer g <= 50 * inject_Z (Z.of_nat (Datatypes.S n)))%Q ->
      exists g', updateGuardTimes M (Datatypes.S n) g = Some g'
                 /\ g_alertState g' = returning
                 /\ g_lastSeenPlayerPos g' = None).
Proof.
  intros Hst Hlt.
  destruct (suspicious_countdown g n Hst Hlt) as (gn & Hgn & Hsn & Htn & Hln).
  split; [by exists gn|]. intros Hle.
  exists (updateGuardSuspicious M gn).
  cbn [updateGuardTimes]. rewrite Hgn. simpl.
  unfold updateGuard at 1. rewrite Hsn. split; [done|].
  destruct (updateGuardSuspicious_step gn) as [_ Hs].
  assert (Hzero : (g_alertTimer gn - 50 <= 0)%Q).
  { rewrite Nat2Z.inj_succ in Hle. unfold Z.succ in Hle.
    rewrite inject_Z_plus in Hle. change (inject_Z 1) with 1%Q in Hle. lra. }
  apply Qleb_le in Hzero. by rewrite Hzero in Hs.
Qed.

(** ** Distractions and the checkpoint *)

Lemma distractions_expirePings now r :
  distractions (expirePings now r) = distractions r.
Proof. reflexivity. Qed.

Lemma distractions_updateDistractions now r :
  distractions (updateDistractions M now r)
  = List.filter (unexpired now) (distractions r).
Proof. reflexivity. Qed.

(** X12. A tick that runs to its end keeps exactly the distractions that
    are younger than their duration at the clock reading of the tick (a
    whistle lasts 3000 ms, a rock 2000 ms); a paused tick, and a tick
    ended by the exception of the guard update, keep them all. *)
Theorem tick_drops_expired_distractions (clockD clockP : Q) (r : Room) :
  distractions (tick K M clockD clockP r).1
  = (if paused r || (tick K M clockD clockP r).2 then distractions r
     else List.filter (unexpired clockD) (distractions r))
  /\ (forall t0 pos ty d,
        In d (distractions (createDistraction t0 pos ty r)) <->
        In d (distractions r)
        \/ d = {| d_position := pos; d_type := ty; d_createdAt := t0;
                  d_duration := match ty with
                                | whistle => 3000
                                | rock => 2000
                                end |})
  /\ (forall d, unexpired clockD d = true
                <-> (clockD - d_createdAt d < d_duration d)%Q).
Proof.
  split; [|split].
  - rewrite tick_unfold. destruct (paused r); [done|].
    destruct (beforeGuards_frame M r) as (_ & _ & Hd & _).
    unfold beforeDetection.
    set (b := beforeGuards M r) in *. clearbody b.
    destruct (updateGuardList M (guards b)) as [gs threw].
    cbn [fst snd orb]. destruct threw; cbn [fst snd].
    + by rewrite distractions_set_guards.
    + rewrite distractions_expirePings.
      set (r3 := updateDistractions M clockD (set_guards gs b)).
      assert (H3 : distractions r3
                   = List.filter (unexpired clockD) (distractions r)).
      { unfold r3. rewrite distractions_updateDistractions.
        by rewrite distractions_set_guards, Hd. }
      clearbody r3.
      destruct (checkHazardCollisions_frame K M r3)
        as (_ & (_&_&_&_&H4&_) & _).
      set (r4 := checkHazardCollisions K M r3) in *. clearbody r4.
      destruct (checkGuardDetection_frame M r4) as (_ & (_&_&_&_&H5&_) & _).
      set (r5 := checkGuardDetection M r4) in *. clearbody r5.
      destruct (checkPuzzleCompletion_frame r5) as (_ & (_&_&_&_&H6&_) & _).
      congruence.
  - intros t0 pos ty d. unfold createDistraction.
    change (distractions (set_distractions ?l r)) with l.
    rewrite in_app_iff. simpl. split; intros [?|?]; auto.
    + destruct H as [?|[]]; auto.
  - intros d. apply Qltb_lt.
Qed.

Lemma checkpointFor_setCheckpoint dogPos pandaPos r role :
  checkpointFor (setCheckpoint dogPos pandaPos r) role
  = match role with dog => dogPos | panda => pandaPos end.
Proof. done. Qed.

(** X13. When an alert guard is within 0.8 of an entity, every entity of
    the room is sent back to the checkpoint of its role (the positions
    given to [setCheckpoint], else the spawn points), stopped and idle,
    one respawn event of reason [guard] is queued per entity, and the
    guard gives up the chase. *)
Theorem caught_players_return_to_checkpoint (gi ei : nat) (g : GuardState)
  (e : EntityState) (r : Room) :
  guards r !! gi = Some g -> entities r !! ei = Some e ->
  g_alertState g = alert ->
  Qltb (distance M (px (e_position e) - px (g_position g))
                   (py (e_position e) - py (g_position g))) 0.8 = true ->
  let r' := catchAt M gi ei r in
  entities r'
  = map (fun x => resetEntity (checkpointFor r (e_type x)) x) (entities r)
  /\ pendingRespawns r'
     = pendingRespawns r
       ++ map (fun x => {| ev_entityId := e_id x; ev_role := e_type x;
                           ev_position := checkpointFor r (e_type x);
                           ev_reason := reason_guard |}) (entities r)
  /\ guards r' !! gi
     = Some (withAlert returning (g_alertTimer g) None g)
  /\ (forall dogPos pandaPos role,
        checkpointFor (setCheckpoint dogPos pandaPos r) role
        = match role with dog => dogPos | panda => pandaPos end)
  /\ (checkpointPosition r = None ->
      forall role, checkpointFor r role = getSpawnPosition r role).
Proof.
  intros Hg He Hal Hnear r'. unfold r', catchAt.
  rewrite Hg, He, Hnear, bool_decide_eq_true_2 by done.
  cbn [andb]. rewrite guards_respawnPlayersAtCheckpoint.
  split; [done|]. split; [done|]. split.
  - rewrite guards_set_guards, list_lookup_alter_eq, Hg. done.
  - split; [done|]. intros Hnone role. unfold checkpointFor. by rewrite Hnone.
Qed.

(** ** Puzzles *)

Lemma puzzlesAdvance_refl a : puzzlesAdvance a a.
Proof.
  intros id. destruct (a !! id) as [ps|]; [|done].
  destruct (completed ps); [done|by exists ps].
Qed.

Lemma puzzlesAdvance_trans a b c :
  puzzlesAdvance a b -> puzzlesAdvance b c -> puzzlesAdvance a c.
Proof.
  intros Hab Hbc id. specialize (Hab id). specialize (Hbc id).
  destruct (a !! id) as [ps|].
  - destruct (completed ps) eqn:Hc.
    + rewrite Hab, Hc in Hbc. done.
    + destruct Hab as [ps' Hab]. rewrite Hab in Hbc.
      destruct (completed ps'); [by exists ps'|done].
  - by rewrite Hab in Hbc.
Qed.

Lemma evalPuzzle_advance a pc :
  puzzlesAdvance (puzzleStates a) (puzzleStates (evalPuzzle a pc)).
Proof.
  unfold evalPuzzle.
  destruct (puzzleStates a !! pz_id pc) as [ps|] eqn:Hps;
    [|apply puzzlesAdvance_refl].
  destruct (completed ps) eqn:Hc; [apply puzzlesAdvance_refl|].
  assert (H : forall v, puzzlesAdvance (puzzleStates a)
                          (<[pz_id pc := v]> (puzzleStates a))).
  { intros v id. destruct (decide (id = pz_id pc)) as [->|Hne].
    - rewrite Hps, Hc, lookup_insert_eq. by exists v.
    - rewrite lookup_insert_ne by done.
      destruct (puzzleStates a !! id) as [qs|]; [|done].
      destruct (completed qs); [done|by exists qs]. }
  destruct (forallb _ _); apply H.
Qed.

Lemma checkPuzzleCompletion_advance a :
  puzzlesAdvance (puzzleStates a) (puzzleStates (checkPuzzleCompletion a)).
Proof.
  unfold checkPuzzleCompletion.
  destruct (levelData a) as [L|]; [|apply puzzlesAdvance_refl].
  apply (foldl_rel (fun x y => puzzlesAdvance (puzzleStates x) (puzzleStates y))).
  - intros x. apply puzzlesAdvance_refl.
  - intros x y z. apply puzzlesAdvance_trans.
  - intros x pc. apply evalPuzzle_advance.
Qed.

Lemma tick_puzzlesAdvance clockD clockP r :
  puzzlesAdvance (puzzleStates r) (puzzleStates (tick K M clockD clockP r).1).
Proof.
  destruct (paused r) eqn:Hp.
  { rewrite tick_room, Hp. apply puzzlesAdvance_refl. }
  pose (R := fun a b : Room => puzzlesAdvance (puzzleStates a) (puzzleStates b)).
  assert (Hsame : forall a b, puzzleStates b = puzzleStates a -> R a b).
  { intros a b Hab. unfold R. rewrite Hab. apply puzzlesAdvance_refl. }
  apply (tick_rel R clockD clockP) in Hp; [exact Hp|..].
  - intros a. apply puzzlesAdvance_refl.
  - intros a b c. apply puzzlesAdvance_trans.
  - intros a. by apply Hsame.
  - intros a. by apply Hsame.
  - intros a. by apply Hsame.
  - intros a. by apply Hsame.
  - intros a. apply Hsame, updateConveyors_frame.
  - intros a. by apply Hsame.
  - intros a. by apply Hsame.
  - intros a. apply Hsame, checkHazardCollisions_frame.
  - intros a. apply Hsame, checkGuardDetection_frame.
  - intros a. apply checkPuzzleCompletion_advance.
  - intros a. by apply Hsame.
Qed.

Lemma count_le_length {A} (f : A -> bool) (l : list A) :
  (length (List.filter f l) <= length l)%nat.
Proof. induction l as [|x l IH]; simpl; [done|]. destruct (f x); simpl; lia. Qed.

Lemma forallb_count {A} (f : A -> bool) (l : list A) :
  forallb f l = true <-> length (List.filter f l) = length l.
Proof.
  induction l as [|x l IH]; simpl; [done|].
  pose proof (count_le_length f l).
  destruct (f x); simpl; [rewrite IH; lia|]. split; [done|lia].
Qed.

Lemma count_advance (a : gmap string PlayerPuzzleState) :
  forall b, puzzlesAdvance a b ->
    (length (List.filter (fun kv => completed kv.2) (map_to_list a))
     <= length (List.filter (fun kv => completed kv.2) (map_to_list b)))%nat
    /\ size b = size a.
Proof.
  induction a as [|k v a Hk IH] using map_ind; intros b Hab.
  - assert (b = ∅) as ->.
    { apply map_eq. intros id. specialize (Hab id).
      by rewrite lookup_empty in Hab |- *. }
    done.
  - assert (Hb : exists v', b !! k = Some v'
                            /\ (completed v = true -> v' = v)).
    { specialize (Hab k). rewrite lookup_insert_eq in Hab.
      destruct (completed v).
      - by exists v.
      - destruct Hab as [v' ?]. by exists v'. }
    destruct Hb as (v' & Hbk & Hv').
    assert (Hdel : puzzlesAdvance a (delete k b)).
    { intros id. specialize (Hab id).
      destruct (decide (id = k)) as [->|Hne].
      - by rewrite Hk, lookup_delete_eq.
      - by rewrite lookup_insert_ne, <- (lookup_delete_ne b k id) in Hab. }
    destruct (IH _ Hdel) as [IHc IHs].
    assert (Hbi : b = <[k := v']> (delete k b)).
    { by rewrite insert_delete_eq, insert_id. }
    rewrite Hbi.
    rewrite !map_size_insert_None by (done || apply lookup_delete_eq).
    split; [|by rewrite IHs].
    assert (Hperm : forall (m : gmap string PlayerPuzzleState) x,
               m !! k = None ->
               length (List.filter (fun kv => completed kv.2)
                         (map_to_list (<[k := x]> m)))
               = ((if completed x then 1 else 0)
                  + length (List.filter (fun kv => completed kv.2)
                              (map_to_list m)))%nat).
    { intros m x Hm.
      assert (Hp := map_to_list_insert m k x Hm).
      assert (Hl : forall l1 l2 : list (string * PlayerPuzzleState),
                 l1 ≡ₚ l2 ->
                 length (List.filter (fun kv => completed kv.2) l1)
                 = length (List.filter (fun kv => completed kv.2) l2)).
      { induction 1 as [|y l1 l2 _ IHp|y z l1|l1 l2 l3 _ IH1 _ IH2]; simpl.
        - done.
        - destruct (completed y.2); simpl; congruence.
        - by destruct (completed y.2), (completed z.2).
        - congruence. }
      rewrite (Hl _ _ Hp). simpl. by destruct (completed x). }
    rewrite !Hperm by (done || apply lookup_delete_eq).
    destruct (completed v) eqn:Hc.
    + rewrite (Hv' eq_refl), Hc. lia.
    + destruct (completed v'); lia.
Qed.

(** X14. A puzzle that is completed stays completed, with the objective
    flags it was completed with, whatever later ticks find; no tick adds
    or drops a puzzle, so the number of completed puzzles never goes
    down and a completed level stays completed. *)
Theorem completed_puzzles_are_final (clockD clockP : Q) (r : Room) :
  let r' := (tick K M clockD clockP r).1 in
  (forall id ps, puzzleStates r !! id = Some ps -> completed ps = true ->
                 puzzleStates r' !! id = Some ps)
  /\ getTotalPuzzleCount r' = getTotalPuzzleCount r
  /\ (getCompletedPuzzleCount r <= getCompletedPuzzleCount r')%nat
  /\ (isLevelComplete r = true -> isLevelComplete r' = true).
Proof.
  intros r'. pose proof (tick_puzzlesAdvance clockD clockP r) as Hadv.
  fold r' in Hadv.
  destruct (count_advance _ _ Hadv) as [Hc Hs].
  split; [|split; [done|split; [done|]]].
  - intros id ps Hps Hdone. specialize (Hadv id).
    by rewrite Hps, Hdone in Hadv.
  - unfold isLevelComplete. rewrite !andb_true_iff, !forallb_count.
    rewrite !length_map_to_list. rewrite Hs. intros [Hall Hpos].
    split; [|done].
    pose proof (count_le_length (fun kv : string * PlayerPuzzleState =>
                                   completed kv.2)
                  (map_to_list (puzzleStates r'))) as Hle.
    rewrite length_map_to_list in Hle. lia.
Qed.

(** X15. The level is complete exactly when the room has at least one
    puzzle and the count of completed puzzles equals the total; the
    completed count never exceeds the total, and a level without puzzles
    is never complete. *)
Theorem level_complete_iff_all_puzzles_completed (r : Room) :
  (isLevelComplete r = true
   <-> (0 < getTotalPuzzleCount r)%nat
       /\ getCompletedPuzzleCount r = getTotalPuzzleCount r)
  /\ (getCompletedPuzzleCount r <= getTotalPuzzleCount r)%nat
  /\ (puzzleStates r = ∅ -> isLevelComplete r = false)
  /\ (isLevelComplete r = true <->
      puzzleStates r <> ∅
      /\ forall id ps, puzzleStates r !! id = Some ps -> completed ps = true).
Proof.
  unfold isLevelComplete, getCompletedPuzzleCount, getTotalPuzzleCount.
  pose proof (count_le_length (fun kv : string * PlayerPuzzleState =>
                                 completed kv.2)
                (map_to_list (puzzleStates r))) as Hle.
  rewrite length_map_to_list in Hle.
  split; [|split; [done|split]].
  - rewrite andb_true_iff, forallb_count, length_map_to_list.
    rewrite Nat.ltb_lt. tauto.
  - intros ->. by rewrite map_size_empty, andb_false_r.
  - rewrite andb_true_iff, Nat.ltb_lt, forallb_forall.
    assert (Hne : (0 < size (puzzleStates r))%nat <-> puzzleStates r <> ∅).
    { rewrite <- map_size_non_empty_iff. lia. }
    rewrite Hne. split.
    + intros [H1 H2]. split; [done|]. intros id ps Hps.
      apply (H1 (id, ps)). apply list_elem_of_In.
      by apply elem_of_map_to_list.
    + intros [H1 H2]. split; [|done]. intros [id ps] Hin.
      apply list_elem_of_In, elem_of_map_to_list in Hin.
      by apply (H2 id ps).
Qed.

(** ** Platforms *)

Lemma forEachIndex_ext {A} (f g : nat -> A -> A) n :
  (forall i a, f i a = g i a) ->
  forall a, forEachIndex n f a = forEachIndex n g a.
Proof.
  intros Hfg a. induction n as [|n IH]; [done|].
  by rewrite !forEachIndex_S, IH, Hfg.
Qed.

Lemma forEachIndex_alter {A} (step : A -> A) n (l : list A) j :
  forEachIndex n (fun i l => alter step i l) l !! j
  = if decide (j < n)%nat then step <$> l !! j else l !! j.
Proof.
  induction n as [|n IH]; [by destruct (decide _); [lia|]|].
  rewrite forEachIndex_S.
  destruct (decide (j = n)) as [->|Hne].
  - rewrite list_lookup_alter_eq, IH.
    rewrite decide_False by lia. by rewrite decide_True by lia.
  - rewrite list_lookup_alter_ne, IH by done.
    destruct (decide (j < n)%nat); [by rewrite decide_True by lia|].
    by rewrite decide_False by lia.
Qed.

Lemma alter_same {A} (f : A -> A) i (l : list A) :
  (forall x, l !! i = Some x -> f x = x) -> alter f i l = l.
Proof.
  intros Hf. apply list_eq. intros j.
  destruct (decide (j = i)) as [->|Hne].
  - rewrite list_lookup_alter_eq. destruct (l !! i) eqn:Hi; [|done].
    simpl. f_equal. by apply Hf.
  - by rewrite list_lookup_alter_ne.
Qed.

Lemma alter_at {A} (f g : A -> A) i (l : list A) :
  (forall x, l !! i = Some x -> f x = g x) -> alter f i l = alter g i l.
Proof.
  intros Hf. apply list_eq. intros j.
  destruct (decide (j = i)) as [->|Hne].
  - rewrite !list_lookup_alter_eq. destruct (l !! i) eqn:Hi; [|done].
    simpl. f_equal. by apply Hf.
  - by rewrite !list_lookup_alter_ne.
Qed.

Lemma updatePlatformAt_alter i its :
  updatePlatformAt i its = alter platformStep i its.
Proof.
  unfold updatePlatformAt.
  destruct (its !! i) as [it|] eqn:Hit.
  2:{ symmetry. apply alter_same. congruence. }
  assert (Hskip : platformStep it = it -> its = alter platformStep i its).
  { intros Hs. symmetry. apply alter_same. congruence. }
  case_bool_decide as Hty.
  2:{ apply Hskip. unfold platformStep. by rewrite bool_decide_eq_false_2. }
  destruct (getField (i_state it) "waypoints") as [| | | | |[|start [|end_ rest]]]
    eqn:Hw;
    try (apply Hskip; unfold platformStep;
         by rewrite bool_decide_eq_true_2, Hw by done).
  destruct (truthy (getField (i_state it) "moving")) eqn:Hm.
  2:{ apply Hskip. unfold platformStep.
      by rewrite bool_decide_eq_true_2, Hw, Hm by done. }
  apply alter_at. intros x Hx. simplify_eq.
  unfold platformStep. rewrite bool_decide_eq_true_2, Hw, Hm by done.
  by repeat case_match.
Qed.

Lemma updatePlatforms_lookup r j :
  interactables (updatePlatforms r) !! j = platformStep <$> interactables r !! j.
Proof.
  unfold updatePlatforms, set_interactables. cbn [interactables].
  rewrite (forEachIndex_ext _ (fun i l => alter platformStep i l))
    by apply updatePlatformAt_alter.
  rewrite forEachIndex_alter.
  destruct (decide (j < length (interactables r))%nat) as [|Hge]; [done|].
  rewrite lookup_ge_None_2 by lia. done.
Qed.

Lemma numField_setField k q it : numField (i_state (setField k (JNum q) it)) k = q.
Proof. unfold numField. rewrite getField_setField. by rewrite decide_True. Qed.

Lemma numField_setField_ne k k' v it :
  k <> k' -> numField (i_state (setField k v it)) k' = numField (i_state it) k'.
Proof.
  intros Hne. unfold numField. rewrite getField_setField.
  by rewrite decide_False.
Qed.

(** X16. After the platform pass a moving platform with two waypoints or
    more has its path parameter within [0, 1] (clamped at the ends, where
    the direction is reversed) and sits on the segment between its first
    two waypoints at that parameter; every other entry, platform or not,
    is exactly as it was. *)
Theorem platform_stays_on_its_track (r : Room) (j : nat)
  (p : InteractableState) :
  interactables r !! j = Some p ->
  let runs := bool_decide (i_type p = platform)
              && truthy (getField (i_state p) "moving")
              && match getField (i_state p) "waypoints" with
                 | JPath (_ :: _ :: _) => true
                 | _ => false
                 end in
  exists p', interactables (updatePlatforms r) !! j = Some p'
    /\ (runs = false -> p' = p)
    /\ (runs = true ->
        forall w0 w1 rest,
          getField (i_state p) "waypoints" = JPath (w0 :: w1 :: rest) ->
          let moved := (numField (i_state p) "currentPosition"
                        + numField (i_state p) "direction"
                          * numField (i_state p) "speed" * 0.02)%Q in
          let t := numField (i_state p') "currentPosition" in
          (0 <= t <= 1)%Q
          /\ i_position p' = mkPos (lerp (px w0) (px w1) t)
                               (lerp (py w0) (py w1) t)
                               (lerp (pz w0) (pz w1) t)
          /\ ((1 <= moved)%Q ->
              t = 1%Q /\ numField (i_state p') "direction" = (-1)%Q)
          /\ ((moved <= 0)%Q ->
              t = 0%Q /\ numField (i_state p') "direction" = 1%Q)
          /\ ((0 < moved < 1)%Q ->
              t = moved
              /\ numField (i_state p') "direction"
                 = numField (i_state p) "direction")).
Proof.
  intros Hp runs. exists (platformStep p).
  split; [by rewrite updatePlatforms_lookup, Hp|].
  unfold runs, platformStep. clear runs.
  case_bool_decide as Hty; [|split; [done|by intros [=]]].
  cbn [andb].
  destruct (truthy (getField (i_state p) "moving")) eqn:Hm.
  2:{ split; [by repeat case_match|]. by intros [=]. }
  cbn [andb].
  destruct (getField (i_state p) "waypoints")
    as [| | | | |[|start [|end_ rest0]]] eqn:Hw;
    try (split; [done|by intros [=]]).
  split; [by intros [=]|]. intros _ w0 w1 rest [= <- <- <-].
  cbv zeta.
  set (moved := (numField (i_state p) "currentPosition"
                 + numField (i_state p) "direction"
                   * numField (i_state p) "speed" * 0.02)%Q).
  unfold Qgeb.
  destruct (Qleb 1 moved) eqn:H1.
  - apply Qleb_le in H1.
    change (i_state (setPosition ?a ?b)) with (i_state b).
    change (i_position (setPosition ?a ?b)) with a.
    rewrite numField_setField_ne, !numField_setField by done.
    split; [split; lra|]. split; [done|]. split; [done|].
    split; intros ?; lra.
  - apply Qleb_gt in H1. destruct (Qleb moved 0) eqn:H0.
    + apply Qleb_le in H0.
      change (i_state (setPosition ?a ?b)) with (i_state b).
      change (i_position (setPosition ?a ?b)) with a.
      rewrite numField_setField_ne, !numField_setField by done.
      split; [split; lra|]. split; [done|]. split; [intros ?; lra|].
      split; [done|]. intros ?; lra.
    + apply Qleb_gt in H0.
      change (i_state (setPosition ?a ?b)) with (i_state b).
      change (i_position (setPosition ?a ?b)) with a.
      rewrite numField_setField, numField_setField_ne by done.
      split; [split; lra|]. split; [done|]. split; [intros ?; lra|].
      split; [intros ?; lra|]. done.
Qed.

(** ** Conveyors *)

Global Instance beltKept_refl : Reflexive beltKept.
Proof. by intros a. Qed.

Lemma conveyCrate_beltKept pos st its :
  Forall2 beltKept its (map (conveyCrate pos st) its).
Proof.
  induction its as [|x its IH]; simpl; constructor; [|done].
  unfold conveyCrate. case_bool_decide as Hc; [|done].
  destruct (isOnConveyor _ _ _); [|done]. cbn [andb].
  split; [apply setPosition_sameKind|]. congruence.
Qed.

Lemma Forall2_beltKept_trans its1 its2 its3 :
  Forall2 beltKept its1 its2 -> Forall2 beltKept its2 its3 ->
  Forall2 beltKept its1 its3.
Proof.
  intros H12. revert its3. induction H12 as [|a b l1 l2 [Hk Hb] _ IH];
    intros its3 H23; inversion H23 as [|b' c l2' l3 [Hk' Hb'] Hrest]; subst;
    constructor; auto.
  split; [by etrans|]. intros Ht.
  assert (b = a) as -> by auto. auto.
Qed.

(** X17. The conveyor pass moves only what stands on a running belt: an
    entity, and a crate, that is within the footprint of no active
    conveyor keeps its place, whatever else the belts carry. *)
Theorem conveyors_move_only_what_they_carry (r : Room) :
  (forall ei e, entities r !! ei = Some e ->
     (forall c, c ∈ interactables r -> activeBelt c = true ->
        isOnConveyor (e_position e) (i_position c) (i_state c) = false) ->
     entities (updateConveyors r) !! ei = Some e)
  /\ (forall j x, interactables r !! j = Some x -> i_type x = crate ->
        (forall c, c ∈ interactables r -> activeBelt c = true ->
           isOnConveyor (i_position x) (i_position c) (i_state c) = false) ->
        interactables (updateConveyors r) !! j = Some x)
  /\ ((forall c, c ∈ interactables r -> activeBelt c = false) ->
      updateConveyors r = r).
Proof.
  assert (Hbelts : forall n,
             Forall2 beltKept (interactables r)
               (interactables (forEachIndex n updateConveyorAt r))).
  { intros n. induction n as [|n IH]; [done|].
    rewrite forEachIndex_S. set (cur := forEachIndex n updateConveyorAt r) in *.
    clearbody cur. unfold updateConveyorAt.
    destruct (interactables cur !! n) as [it|]; [|done].
    destruct (_ && _); [|done].
    cbn [interactables set_interactables].
    eapply Forall2_beltKept_trans; [exact IH|]. apply conveyCrate_beltKept. }
  assert (Hbelt : forall n i it,
             interactables (forEachIndex n updateConveyorAt r) !! i = Some it ->
             activeBelt it = true ->
             it ∈ interactables r).
  { intros n i it Hit Hact.
    destruct (Forall2_lookup_r _ _ _ _ _ (Hbelts n) Hit) as (it0 & H0 & Hk & Hsame).
    unfold activeBelt in Hact. apply andb_true_iff in Hact as [Hty _].
    apply bool_decide_eq_true in Hty.
    destruct Hk as (_ & Hty0 & _).
    assert (it = it0) as -> by (apply Hsame; congruence).
    by eapply list_elem_of_lookup_2. }
  split; [|split].
  - intros ei e He Hoff. unfold updateConveyors.
    generalize (length (interactables r)). intros n.
    induction n as [|n IH]; [done|].
    rewrite forEachIndex_S. specialize (Hbelt n n).
    set (cur := forEachIndex n updateConveyorAt r) in *. clearbody cur.
    unfold updateConveyorAt.
    destruct (interactables cur !! n) as [it|] eqn:Hit; [|done].
    destruct (_ && _) eqn:Hact; [|done].
    cbn [entities set_interactables set_entities].
    rewrite list_lookup_fmap, IH. simpl. f_equal.
    unfold conveyEntity. by rewrite (Hoff it (Hbelt it eq_refl Hact) Hact).
  - intros j x Hx Hty Hoff. unfold updateConveyors.
    generalize (length (interactables r)). intros n.
    induction n as [|n IH]; [done|].
    rewrite forEachIndex_S. specialize (Hbelt n n).
    set (cur := forEachIndex n updateConveyorAt r) in *. clearbody cur.
    unfold updateConveyorAt.
    destruct (interactables cur !! n) as [it|] eqn:Hit; [|done].
    destruct (_ && _) eqn:Hact; [|done].
    cbn [interactables set_interactables].
    rewrite list_lookup_fmap, IH. simpl. f_equal.
    unfold conveyCrate. rewrite (Hoff it (Hbelt it eq_refl Hact) Hact).
    by rewrite andb_false_r.
  - intros Hnone. unfold updateConveyors.
    generalize (length (interactables r)). intros n.
    induction n as [|n IH]; [done|].
    rewrite forEachIndex_S, IH. unfold updateConveyorAt.
    destruct (interactables r !! n) as [it|] eqn:Hit; [|done].
    assert (Hin : it ∈ interactables r) by (by eapply list_elem_of_lookup_2).
    specialize (Hnone it Hin). unfold activeBelt in Hnone.
    by rewrite Hnone.
Qed.

(** ** Input *)

Lemma isPositionWalkable_inBounds r L x y z radius :
  levelData r = Some L -> isPositionWalkable r x y radius = true ->
  inBounds L radius (mkPos x y z).
Proof.
  intros HL. unfold isPositionWalkable. rewrite HL.
  destruct (Qltb x radius) eqn:H1; [done|].
  destruct (Qgeb x (width L - radius)) eqn:H2; [done|].
  destruct (Qltb y radius) eqn:H3; [done|].
  destruct (Qgeb y (height L - radius)) eqn:H4; [done|].
  intros _. unfold Qgeb in *.
  apply Qltb_ge in H1, H3. apply Qleb_gt in H2, H4. by repeat split.
Qed.

(** X18. An input moves the entity of its player and nothing else; the
    entity lands on the position [validatePosition] accepts: where it
    was, or a walkable place, so an entity within the bounds of the level
    stays within them; with no level loaded the position sent by the
    client is taken as it is.  An input of an unknown player, or of a
    player without entity, changes nothing. *)
Theorem input_moves_only_its_player (pid : string) (tickNo : Z)
  (input : InputState) (position : WorldPos) (r : Room) :
  let r' := handleInput K pid tickNo input position r in
  (forall role ei e,
     players r !! pid = Some role ->
     findEntity (entityIdOf role) (entities r) = Some (ei, e) ->
     interactables r' = interactables r
     /\ (forall j, j <> ei -> entities r' !! j = entities r !! j)
     /\ exists e',
          entities r' !! ei = Some e'
          /\ e_id e' = e_id e /\ e_type e' = e_type e
          /\ (e_position e' = e_position e
              \/ isPositionWalkable r (px (e_position e'))
                   (py (e_position e')) (collisionRadius K role) = true)
          /\ (levelData r = None -> e_position e' = position)
          /\ (forall L, levelData r = Some L ->
                inBounds L (collisionRadius K role) (e_position e) ->
                inBounds L (collisionRadius K role) (e_position e')))
  /\ (players r !! pid = None -> r' = r)
  /\ (forall role, players r !! pid = Some role ->
        findEntity (entityIdOf role) (entities r) = None -> r' = r).
Proof.
  intros r'. unfold r', handleInput. clear r'.
  split; [|split].
  - intros role ei e Hp He. rewrite Hp, He.
    apply list_find_Some in He as (Hei & _ & _).
    cbn [interactables entities set_entities].
    split; [done|]. split.
    { intros j Hj. by rewrite list_lookup_insert_ne. }
    eexists. split.
    { apply list_lookup_insert_eq. by eapply lookup_lt_Some. }
    cbn [e_id e_type e_position].
    split; [done|]. split; [done|].
    assert (Hv : validatePosition K r (e_position e) position role
                 = e_position e
                 \/ isPositionWalkable r
                      (px (validatePosition K r (e_position e) position role))
                      (py (validatePosition K r (e_position e) position role))
                      (collisionRadius K role) = true).
    { unfold validatePosition.
      destruct (levelData r) as [L|] eqn:HL.
      - destruct (isPositionWalkable r (px position) (py position) _) eqn:H1;
          [by right|].
        destruct (isPositionWalkable r (px position) (py (e_position e)) _)
          eqn:H2; [by right|].
        destruct (isPositionWalkable r (px (e_position e)) (py position) _)
          eqn:H3; [by right|by left].
      - right. unfold isPositionWalkable. by rewrite HL. }
    split; [exact Hv|]. split.
    + intros HL. unfold validatePosition. by rewrite HL.
    + intros L HL Hin. destruct Hv as [-> | Hw]; [done|].
      destruct (validatePosition K r (e_position e) position role)
        as [x y z] eqn:Hpos.
      by eapply isPositionWalkable_inBounds.
  - by intros ->.
  - by intros role -> ->.
Qed.

End RoomProperties.

(** * Machinery: winches, crates, plates, puzzle rewards *)

Section Machinery.

Variable K : Constants.
Variable M : MathLib.

(** ** Winches *)

Global Instance winchPassKept_refl : Reflexive winchPassKept.
Proof. by intros a. Qed.

Global Instance platformOnly_refl : Reflexive platformOnly.
Proof. by intros a. Qed.
Global Instance platformOnly_trans : Transitive platformOnly.
Proof.
  intros a b c [Hk1 H1] [Hk2 H2]. split; [by etrans|].
  intros Hp. assert (b = a) as -> by auto. auto.
Qed.

Global Instance raisedKept_refl : Reflexive raisedKept.
Proof. by intros a. Qed.
Global Instance raisedKept_trans : Transitive raisedKept.
Proof.
  intros a b c (Hk1 & H1) (Hk2 & H2).
  split; [by etrans|]. intros Hty.
  destruct (H1 Hty) as [Hw1 Hr1].
  destruct H2 as [Hw2 Hr2]; [destruct Hk1 as (_ & <- & _); done|].
  split; [congruence|auto].
Qed.

Lemma getI_Forall2 (R : relation InteractableState) id its its' :
  (forall a b, R a b -> i_id a = i_id b) ->
  Forall2 R its its' ->
  option_Forall2 R (getI id its) (getI id its').
Proof.
  intros Hid H. unfold getI.
  induction H as [|a b l l' Hab _ IH]; simpl; [constructor|].
  rewrite <- (Hid _ _ Hab).
  destruct (decide (i_id a = id)); simpl; [by constructor|].
  destruct (list_find _ l) as [[? ?]|], (list_find _ l') as [[? ?]|];
    simpl in *; inversion IH; subst; by constructor.
Qed.

Lemma winchUnpowered_kept its0 cur st :
  Forall2 winchPassKept its0 cur ->
  winchUnpowered cur st = winchUnpowered its0 st.
Proof.
  intros H. unfold winchUnpowered.
  destruct (getField st "poweredById") as [| | |src| |]; try done.
  pose proof (getI_Forall2 winchPassKept src its0 cur) as Hg.
  destruct Hg as [a b [Hk Hsame]|]; [by intros a b [[? _] _]|done| |done].
  destruct Hk as (_ & Hty & _). rewrite <- Hty.
  case_bool_decide as Hl; [|done].
  rewrite Hsame by congruence. done.
Qed.

Lemma triggerWinchPlatforms_platformOnly links its :
  Forall2 platformOnly its (triggerWinchPlatforms links its).
Proof.
  unfold triggerWinchPlatforms. revert its.
  apply (Forall2_foldl_rel platformOnly). intros its l.
  unfold triggerWinchPlatform.
  destruct (getI l its) as [x|] eqn:Hx; [|reflexivity].
  case_bool_decide as Hty; [|reflexivity].
  apply Forall2_modifyI_rel; [apply _|]. intros a Ha. simplify_eq.
  split; [|congruence].
  destruct (getField (i_state x) "waypoints") as [| | | | |[|? [|? ?]]]; done.
Qed.

(** The winch pass entry by entry: the winch at [i] takes its step,
    platforms may be raised, the rest is kept. *)
Lemma updateWinchAt_winch i its w :
  its !! i = Some w -> i_type w = winch ->
  Forall2 platformOnly (<[i := winchStep its w]> its) (updateWinchAt i its).
Proof.
  intros Hw Hty. unfold updateWinchAt, winchStep. rewrite Hw.
  rewrite bool_decide_eq_true_2 by done.
  assert (Hset : forall f, alter f i its = <[i := f w]> its).
  { intros f. apply list_eq. intros j.
    destruct (decide (j = i)) as [->|Hne].
    - rewrite list_lookup_alter_eq, Hw, list_lookup_insert_eq; [done|].
      by eapply lookup_lt_Some.
    - by rewrite list_lookup_alter_ne, list_lookup_insert_ne. }
  destruct (winchUnpowered its (i_state w)); [by rewrite Hset|].
  destruct (truthy _).
  2:{ by rewrite list_insert_id by done. }
  destruct (Qgeb _ 1); [|by rewrite Hset].
  rewrite list_alter_alter_eq, Hset. simpl.
  apply triggerWinchPlatforms_platformOnly.
Qed.

Lemma updateWinchAt_skip i its :
  (forall w, its !! i = Some w -> i_type w <> winch) ->
  updateWinchAt i its = its.
Proof.
  intros H. unfold updateWinchAt. destruct (its !! i) as [w|] eqn:Hw; [|done].
  by rewrite bool_decide_eq_false_2 by (by apply H).
Qed.

Lemma winchStep_kind its w : sameKind w (winchStep its w).
Proof. unfold winchStep. by repeat case_match. Qed.

Lemma winchPass_inv its0 k :
  let cur := forEachIndex k updateWinchAt its0 in
  Forall2 winchPassKept its0 cur
  /\ forall j w, its0 !! j = Some w -> i_type w = winch ->
       cur !! j = Some (if decide (j < k)%nat then winchStep its0 w else w).
Proof.
  induction k as [|k [IH1 IH2]]; cbv zeta.
  { split; [done|]. intros j w Hw _. by rewrite decide_False by lia. }
  rewrite forEachIndex_S.
  set (cur := forEachIndex k updateWinchAt its0) in *. clearbody cur.
  assert (Hflip : forall j (x y : InteractableState), j <> k ->
             (if decide (j < Datatypes.S k)%nat then x else y)
             = (if decide (j < k)%nat then x else y)).
  { intros j x y Hne. destruct (decide (j < k)%nat);
      [by rewrite decide_True by lia|by rewrite decide_False by lia]. }
  destruct (its0 !! k) as [a|] eqn:Ha.
  2:{ assert (cur !! k = None) as Hnone.
      { apply lookup_ge_None. apply lookup_ge_None in Ha.
        by rewrite <- (Forall2_length _ _ _ IH1). }
      rewrite updateWinchAt_skip by (intros w; congruence).
      split; [done|]. intros j w Hw Hty.
      rewrite Hflip by congruence. by apply IH2. }
  destruct (decide (i_type a = winch)) as [Hty|Hty].
  - assert (Hk : cur !! k = Some a).
    { rewrite (IH2 k a Ha Hty). by rewrite decide_False by lia. }
    pose proof (updateWinchAt_winch k cur a Hk Hty) as Hrel.
    assert (Hstep : winchStep cur a = winchStep its0 a).
    { unfold winchStep. by rewrite (winchUnpowered_kept its0 cur). }
    rewrite Hstep in Hrel.
    assert (Hlen : length its0 = length (updateWinchAt k cur)).
    { rewrite <- (Forall2_length _ _ _ Hrel), length_insert.
      by eapply Forall2_length. }
    split.
    + apply Forall2_same_length_lookup. split; [done|].
      intros j x y Hx Hy.
      destruct (Forall2_lookup_l _ _ _ _ _ IH1 Hx) as (c & Hc & Hkc & Hsc).
      destruct (decide (j = k)) as [->|Hne].
      * assert (x = a) as -> by congruence.
        eapply Forall2_lookup_r in Hrel as (z & Hz & Hkz & _); [|exact Hy].
        rewrite list_lookup_insert_eq in Hz by (by eapply lookup_lt_Some).
        injection Hz as <-. split; [|congruence].
        etrans; [apply winchStep_kind|exact Hkz].
      * eapply Forall2_lookup_r in Hrel as (z & Hz & Hkz & Hsz); [|exact Hy].
        rewrite list_lookup_insert_ne in Hz by done.
        assert (z = c) as -> by congruence.
        split; [by etrans|]. intros Hp Hw.
        assert (c = x) as -> by auto. auto.
    + intros j w Hw Htyw. destruct (decide (j = k)) as [->|Hne].
      * simplify_eq. rewrite decide_True by lia.
        eapply Forall2_lookup_l in Hrel as (y & Hy & _ & Hsame);
          [|apply list_lookup_insert_eq; by eapply lookup_lt_Some].
        rewrite Hy. f_equal. apply Hsame.
        destruct (winchStep_kind its0 a) as (_ & <- & _). congruence.
      * rewrite Hflip by done.
        eapply Forall2_lookup_l in Hrel as (y & Hy & _ & Hsame);
          [|rewrite list_lookup_insert_ne by done; by apply IH2].
        rewrite Hy. f_equal. apply Hsame.
        destruct (decide (j < k)%nat); [|congruence].
        destruct (winchStep_kind its0 w) as (_ & <- & _). congruence.
  - assert (Hskip : updateWinchAt k cur = cur).
    { apply updateWinchAt_skip. intros w Hw.
      destruct (Forall2_lookup_l _ _ _ _ _ IH1 Ha) as (c & Hc & (_ & Hkc & _) & _).
      congruence. }
    rewrite Hskip. split; [done|]. intros j w Hw Htyw.
    rewrite Hflip by congruence. by apply IH2.
Qed.

(** X19. The winch pass treats every winch on its own: a winch whose
    power lever is not on stops operating; otherwise an operating winch
    extends by 0.02, never beyond 1, and stops when it reaches 1; a winch
    that is not operating is left as it was.  Nothing but winches and
    platforms is written. *)
Theorem winch_extension_is_capped (r : Room) (j : nat) (w : InteractableState) :
  interactables r !! j = Some w -> i_type w = winch ->
  let st := i_state w in
  let unpowered := winchUnpowered (interactables r) st in
  let e := Math_min 1 (numField st "extended" + 0.02)%Q in
  exists w',
    interactables (updateWinches r) !! j = Some w'
    /\ (unpowered = true -> w' = setField "operating" (JBool false) w)
    /\ (unpowered = false -> truthy (getField st "operating") = false ->
        w' = w)
    /\ (unpowered = false -> truthy (getField st "operating") = true ->
        numField (i_state w') "extended" = e /\ (e <= 1)%Q
        /\ ((numField st "extended" + 0.02 < 1)%Q ->
            e = (numField st "extended" + 0.02)%Q
            /\ truthy (getField (i_state w') "operating") = true)
        /\ ((1 <= numField st "extended" + 0.02)%Q ->
            e = 1%Q
            /\ getField (i_state w') "operating" = JBool false))
    /\ Forall2 winchPassKept (interactables r)
         (interactables (updateWinches r)).
Proof.
  intros Hw Hty st unpowered e.
  destruct (winchPass_inv (interactables r) (length (interactables r)))
    as [Hkept Hwin].
  exists (winchStep (interactables r) w).
  split.
  { unfold updateWinches, set_interactables. cbn [interactables].
    rewrite (Hwin j w Hw Hty). apply lookup_lt_Some in Hw.
    by rewrite decide_True. }
  split; [|split; [|split; [|exact Hkept]]]; unfold winchStep;
    fold st; fold unpowered.
  - by intros ->.
  - by intros -> ->.
  - intros -> Hop. rewrite Hop. fold e.
    assert (He : (e <= 1)%Q /\
                 ((numField st "extended" + 0.02 < 1)%Q ->
                  e = (numField st "extended" + 0.02)%Q)
                 /\ ((1 <= numField st "extended" + 0.02)%Q -> e = 1%Q)).
    { unfold e, Math_min.
      destruct (Qltb (numField st "extended" + 0.02) 1) eqn:Hlt.
      - apply Qltb_lt in Hlt. split; [lra|]. split; [done|]. intros ?; lra.
      - apply Qltb_ge in Hlt. split; [lra|]. split; [intros ?; lra|done]. }
    destruct He as (He1 & He2 & He3).
    unfold Qgeb. destruct (Qleb 1 e) eqn:Hge.
    + rewrite numField_setField_ne, numField_setField by done.
      split; [done|]. split; [done|]. split.
      * intros Hlt. apply Qleb_le in Hge. rewrite (He2 Hlt) in Hge. lra.
      * intros H1. split; [by apply He3|].
        by rewrite getField_setField, decide_True.
    + rewrite numField_setField by done.
      split; [done|]. split; [done|]. split.
      * intros Hlt. split; [by apply He2|].
        by rewrite getField_setField, decide_False.
      * intros H1. apply Qleb_gt in Hge. rewrite (He3 H1) in Hge. lra.
Qed.

Lemma raiseFields_waypoints q :
  getField (i_state (setField "moving" (JBool false)
                       (setField "currentPosition" (JNum 1) q))) "waypoints"
  = getField (i_state q) "waypoints".
Proof. rewrite !getField_setField. by rewrite !decide_False. Qed.

(** The write of [triggerWinchPlatforms] on one platform. *)
Lemma raise_is_raised q q' :
  q' = match getField (i_state q) "waypoints" with
       | JPath (_ :: w1 :: _) =>
           setPosition w1
             (setField "moving" (JBool false)
                (setField "currentPosition" (JNum 1) q))
       | _ => setField "moving" (JBool false)
                (setField "currentPosition" (JNum 1) q)
       end ->
  sameKind q q' /\ raised q'
  /\ getField (i_state q') "waypoints" = getField (i_state q) "waypoints".
Proof.
  intros ->.
  assert (Hflat : forall pos,
             raised (setPosition pos
                       (setField "moving" (JBool false)
                          (setField "currentPosition" (JNum 1) q)))
             <-> (forall w0 w1 rest,
                    getField (i_state q) "waypoints" = JPath (w0 :: w1 :: rest) ->
                    pos = w1)).
  { intros pos. unfold raised. cbn [i_state i_position setPosition].
    rewrite raiseFields_waypoints.
    rewrite !getField_setField, decide_False, !decide_True by done.
    tauto. }
  destruct (getField (i_state q) "waypoints")
    as [| | | | |[|w0 [|w1 rest]]] eqn:Hw.
  all: split; [done|]; split;
    [|by (cbn [i_state setPosition]; rewrite raiseFields_waypoints)].
  all: try (apply (Hflat (i_position q)); by intros v0 v1 vs [=]).
  apply Hflat. by intros v0 v1 vs [= <- <- <-].
Qed.

Lemma triggerWinchPlatform_raisedKept its l :
  Forall2 raisedKept its (triggerWinchPlatform its l).
Proof.
  unfold triggerWinchPlatform.
  destruct (getI l its) as [x|] eqn:Hx; [|reflexivity].
  case_bool_decide as Hty; [|reflexivity].
  apply Forall2_modifyI_rel; [apply _|]. intros a Ha. simplify_eq.
  destruct (raise_is_raised x _ eq_refl) as (Hk & Hr & Hw).
  split; [exact Hk|]. intros _. split; [exact Hw|by intros _].
Qed.

Lemma triggerWinchPlatforms_raisedKept links its :
  Forall2 raisedKept its (triggerWinchPlatforms links its).
Proof.
  unfold triggerWinchPlatforms. revert its.
  apply (Forall2_foldl_rel raisedKept). intros its l.
  apply triggerWinchPlatform_raisedKept.
Qed.

Lemma updateWinchAt_raisedKept i its :
  Forall2 raisedKept its (updateWinchAt i its).
Proof.
  unfold updateWinchAt.
  destruct (its !! i) as [x|] eqn:Hx; [|reflexivity].
  case_bool_decide as Hty; [|reflexivity].
  assert (Hstep : forall f, (forall a, sameKind a (f a)) ->
                            Forall2 raisedKept its (alter f i its)).
  { intros f Hf. apply Forall2_alter_rel; [apply _|]. intros a Ha.
    split; [done|]. intros Hp. congruence. }
  destruct (winchUnpowered its (i_state x)); [by apply Hstep|].
  destruct (truthy _); [|reflexivity].
  destruct (Qgeb _ 1); [|by apply Hstep].
  etrans; [|apply triggerWinchPlatforms_raisedKept].
  rewrite list_alter_alter_eq. by apply Hstep.
Qed.

Lemma getI_raisedKept lid its its' p :
  Forall2 raisedKept its its' ->
  getI lid its = Some p -> i_type p = platform ->
  exists p', getI lid its' = Some p' /\ i_type p' = platform
             /\ getField (i_state p') "waypoints"
                = getField (i_state p) "waypoints"
             /\ (raised p -> raised p').
Proof.
  intros H Hp Hty.
  assert (Hg : option_Forall2 raisedKept (getI lid its) (getI lid its')).
  { apply getI_Forall2; [|done]. by intros a b [[? _] _]. }
  rewrite Hp in Hg. inversion Hg as [a b [Hk Hrest] Ha Hb|]; subst.
  exists b. split; [done|]. destruct (Hrest Hty) as [Hw Hr].
  destruct Hk as (_ & <- & _). done.
Qed.

(** A link that is visited raises its platform, and later visits keep it
    raised. *)
Lemma triggerWinchPlatforms_raises lid links : forall its p,
  getI lid its = Some p -> i_type p = platform ->
  exists p', getI lid (triggerWinchPlatforms links its) = Some p'
             /\ i_type p' = platform
             /\ getField (i_state p') "waypoints"
                = getField (i_state p) "waypoints"
             /\ (raised p \/ lid ∈ links -> raised p').
Proof.
  unfold triggerWinchPlatforms.
  induction links as [|l links IH]; intros its p Hp Hty; simpl.
  - exists p. split; [done|]. split; [done|]. split; [done|].
    intros [?|Hin]; [done|]. by apply elem_of_nil in Hin.
  - assert (Hone : exists q, getI lid (triggerWinchPlatform its l) = Some q
                             /\ i_type q = platform
                             /\ getField (i_state q) "waypoints"
                                = getField (i_state p) "waypoints"
                             /\ (raised p \/ l = lid -> raised q)).
    { destruct (getI_raisedKept lid its (triggerWinchPlatform its l) p
                  (triggerWinchPlatform_raisedKept its l) Hp Hty)
        as (q & Hq & Htq & Hwq & Hrq).
      exists q. split; [done|]. split; [done|]. split; [done|].
      intros [Hr| ->]; [auto|].
      revert Hq. unfold triggerWinchPlatform. rewrite Hp.
      rewrite bool_decide_eq_true_2 by done.
      rewrite getI_modifyI.
      2:{ intros it. by destruct (getField (i_state it) "waypoints")
                          as [| | | | |[|? [|? ?]]]. }
      rewrite decide_True, Hp by done. simpl. intros [= <-].
      by destruct (raise_is_raised p _ eq_refl) as (_ & ? & _). }
    destruct Hone as (q & Hq & Htq & Hwq & Hrq).
    destruct (IH _ q Hq Htq) as (p' & Hp' & Htp' & Hwp' & Hrp').
    exists p'. split; [done|]. split; [done|]. split; [congruence|].
    intros [Hr|Hin]; apply Hrp'.
    + left. auto.
    + apply elem_of_cons in Hin as [->|Hin]; [left; auto|by right].
Qed.

(** X20. A powered, operating winch that reaches full extension in the
    winch pass raises the platforms it is linked to: after the pass each
    of them has [currentPosition] 1, is not moving and, when it has two
    waypoints or more, sits on the second one. *)
Theorem full_winch_raises_its_platforms (r : Room) (j : nat)
  (w p : InteractableState) (lid : string) :
  interactables r !! j = Some w -> i_type w = winch ->
  winchUnpowered (interactables r) (i_state w) = false ->
  truthy (getField (i_state w) "operating") = true ->
  (1 <= numField (i_state w) "extended" + 0.02)%Q ->
  lid ∈ i_linkedIds w ->
  getI lid (interactables r) = Some p -> i_type p = platform ->
  exists p',
    getI lid (interactables (updateWinches r)) = Some p'
    /\ i_type p' = platform
    /\ getField (i_state p') "currentPosition" = JNum 1
    /\ getField (i_state p') "moving" = JBool false
    /\ getField (i_state p') "waypoints" = getField (i_state p) "waypoints"
    /\ forall w0 w1 rest,
         getField (i_state p) "waypoints" = JPath (w0 :: w1 :: rest) ->
         i_position p' = w1.
Proof.
  intros Hw Hty Hpow Hop Hfull Hlid Hp Htp.
  set (its0 := interactables r) in *.
  assert (Hmain : forall k, (j < k)%nat ->
            exists p', getI lid (forEachIndex k updateWinchAt its0) = Some p'
                       /\ i_type p' = platform
                       /\ getField (i_state p') "waypoints"
                          = getField (i_state p) "waypoints"
                       /\ raised p').
  { intros k Hk. induction k as [|k IH]; [lia|].
    rewrite forEachIndex_S.
    destruct (decide (j = k)) as [<-|Hne].
    - clear IH.
      destruct (winchPass_inv its0 j) as [Hkept Hwin].
      specialize (Hwin j w Hw Hty). rewrite decide_False in Hwin by lia.
      assert (Hpre : Forall2 raisedKept its0 (forEachIndex j updateWinchAt its0)).
      { apply (Forall2_forEachIndex_rel raisedKept).
        apply updateWinchAt_raisedKept. }
      set (cur := forEachIndex j updateWinchAt its0) in *. clearbody cur.
      destruct (getI_raisedKept lid its0 cur p Hpre Hp Htp)
        as (q & Hq & Htq & Hwq & _).
      unfold updateWinchAt. rewrite Hwin.
      rewrite bool_decide_eq_true_2 by done.
      rewrite (winchUnpowered_kept its0 cur) by done.
      rewrite Hpow, Hop.
      assert (Hge : Qgeb (Math_min 1 (numField (i_state w) "extended" + 0.02)) 1
                    = true).
      { unfold Qgeb, Math_min.
        destruct (Qltb _ 1) eqn:Hlt; [apply Qltb_lt in Hlt; lra|].
        by apply Qleb_le. }
      rewrite Hge, list_alter_alter_eq.
      match goal with
      | |- context [alter ?f j cur] =>
          assert (Hq2 : getI lid (alter f j cur) = Some q)
      end.
      { eapply getI_alter_other; [exact Hq|exact Hwin|congruence|done]. }
      destruct (triggerWinchPlatforms_raises lid (i_linkedIds w) _ q Hq2 Htq)
        as (p' & Hp' & Htp' & Hwp' & Hrp').
      exists p'. split; [exact Hp'|]. split; [done|].
      split; [congruence|]. apply Hrp'. by right.
    - destruct IH as (q & Hq & Htq & Hwq & Hrq); [lia|].
      destruct (getI_raisedKept lid _ _ q
                  (updateWinchAt_raisedKept k _) Hq Htq)
        as (p' & Hp' & Htp' & Hwp' & Hrp').
      exists p'. split; [done|]. split; [done|]. split; [congruence|auto]. }
  destruct (Hmain (length its0)) as (p' & Hp' & Htp' & Hwp' & (H1 & H2 & H3)).
  { by eapply lookup_lt_Some. }
  exists p'. split; [exact Hp'|]. split; [done|]. split; [done|].
  split; [done|]. split; [done|].
  intros w0 w1 rest Hway. apply (H3 w0 w1 rest). congruence.
Qed.

(** ** The crate push and its callback *)

(** X21. A successful crate push sets [beingPushed] and registers one
    callback with a delay of 200; when the host fires that callback the
    flag is cleared, the crate stays where the push put it, and no
    callback of the push is left pending. *)
Theorem push_callback_clears_flag (r : Room) (pid cid : string)
  (c : InteractableState) :
  players r !! pid = Some panda ->
  getI cid (interactables r) = Some c -> i_type c = crate ->
  success (handleInteraction pid cid "push" r).2 = true ->
  let r1 := (handleInteraction pid cid "push" r).1 in
  let r2 := fireTimeout (length (timeouts r)) r1 in
  timeouts r1 = timeouts r ++ [ {| to_crate := cid; to_delay := 200 |} ]
  /\ timeouts r2 = timeouts r
  /\ exists c1 c2,
       getI cid (interactables r1) = Some c1
       /\ getI cid (interactables r2) = Some c2
       /\ getField (i_state c1) "beingPushed" = JBool true
       /\ c2 = setField "beingPushed" (JBool false) c1
       /\ getField (i_state c2) "beingPushed" = JBool false
       /\ i_position c2 = i_position c1.
Proof.
  intros Hp Hc Hty. unfold handleInteraction. rewrite Hp, Hc.
  unfold canInteract. rewrite Hty. simpl.
  unfold processInteraction. rewrite Hty, (getI_Some_id _ _ _ Hc). simpl.
  destruct (findEntity _ _) as [[ei e]|]; [|by intros [=]].
  set (newX := (px (i_position c) + _)%Q).
  set (newY := (py (i_position c) + _)%Q).
  destruct (isValidCratePosition r newX newY); [|by intros [=]].
  intros _. unfold succeeded. cbn [fst].
  set (its1 := modifyI cid (pushCrate newX newY) (interactables r)).
  assert (H1 : getI cid its1 = Some (pushCrate newX newY c)).
  { unfold its1. rewrite getI_modifyI by done.
    by rewrite decide_True, Hc by done. }
  cbn [timeouts set_timeouts]. split; [done|].
  unfold fireTimeout. cbn [timeouts set_timeouts].
  rewrite lookup_app_r, Nat.sub_diag by lia. cbn [lookup list_lookup to_crate].
  cbn [timeouts set_timeouts interactables set_interactables].
  split.
  { rewrite delete_middle. apply app_nil_r. }
  exists (pushCrate newX newY c),
         (setField "beingPushed" (JBool false) (pushCrate newX newY c)).
  split; [exact H1|]. split.
  { rewrite getI_modifyI by done. by rewrite decide_True, H1 by done. }
  split; [|split; [done|split; [|done]]].
  - unfold pushCrate. cbn [i_state setPosition].
    rewrite getField_setField, decide_False by done.
    rewrite getField_setField, decide_False by done.
    by rewrite getField_setField, decide_True.
  - by rewrite getField_setField, decide_True.
Qed.

(** ** Pressure plates and hazards *)

Lemma handlePressurePlateChange_other links act id : forall its,
  id ∉ links ->
  getI id (handlePressurePlateChange links act its) = getI id its.
Proof.
  unfold handlePressurePlateChange.
  induction links as [|l links IH]; intros its Hn; simpl; [done|].
  apply not_elem_of_cons in Hn as [Hl Hn].
  rewrite IH by done. apply plateChangeLink_other. congruence.
Qed.

Lemma plateChangeLink_hazard act its hid h :
  getI hid its = Some h -> i_type h = hazard ->
  getI hid (plateChangeLink act its hid)
  = Some (setField "active" (JBool (negb act)) h).
Proof.
  intros Hh Hty. unfold plateChangeLink. rewrite Hh.
  rewrite bool_decide_eq_true_2 by done.
  rewrite getI_modifyI by done. by rewrite decide_True, Hh by done.
Qed.

Lemma setField_idem k v x : setField k v (setField k v x) = setField k v x.
Proof.
  destruct x as [i t p st ls]. unfold setField. simpl. f_equal.
  apply insert_insert_eq.
Qed.

Lemma handlePressurePlateChange_hazard links act hid : forall its h,
  getI hid its = Some h -> i_type h = hazard ->
  getI hid (handlePressurePlateChange links act its)
  = Some (if decide (hid ∈ links)
          then setField "active" (JBool (negb act)) h else h).
Proof.
  unfold handlePressurePlateChange.
  induction links as [|l links IH]; intros its h Hh Hty; cbn [foldl].
  - destruct (decide (hid ∈ [])) as [Hin|]; [|done].
    by apply elem_of_nil in Hin.
  - destruct (decide (l = hid)) as [->|Hne].
    + rewrite (IH _ (setField "active" (JBool (negb act)) h));
        [|by apply plateChangeLink_hazard|done].
      rewrite (decide_True (P := hid ∈ hid :: links))
        by apply list_elem_of_here.
      destruct (decide (hid ∈ links)); [by rewrite setField_idem|done].
    + rewrite (IH _ h); [| |done].
      2:{ rewrite plateChangeLink_other by done. done. }
      destruct (decide (hid ∈ links)) as [Hin|Hin].
      * by rewrite decide_True by (by apply list_elem_of_further).
      * rewrite decide_False; [done|].
        intros [?|?]%elem_of_cons; congruence.
Qed.

(** X22. A pressure plate switches the hazards linked to it: in the
    plate pass, a hazard that a single plate links to is set to active
    exactly when the plate is not activated, on the tick the plate's
    flag changes; while the flag does not change the hazard is left as
    it is. *)
Theorem plate_switches_its_hazard (r : Room) (j : nat)
  (p h : InteractableState) (hid : string) :
  interactables r !! j = Some p -> i_type p = pressure_plate ->
  hid ∈ i_linkedIds p ->
  getI hid (interactables r) = Some h -> i_type h = hazard ->
  (forall k q, interactables r !! k = Some q -> i_type q = pressure_plate ->
     hid ∈ i_linkedIds q -> k = j) ->
  let load := plateLoad M (entities r) (interactables r) (i_position p) in
  let act := (requiredWeight (i_state p) <=? load)%Z in
  let unchanged := strictEq (JBool act) (getField (i_state p) "activated") in
  getI hid (interactables (updatePressurePlates M r))
  = Some (if unchanged then h
          else setField "active" (JBool (negb act)) h)
  /\ (unchanged = false ->
      exists h', getI hid (interactables (updatePressurePlates M r)) = Some h'
                 /\ getField (i_state h') "active" = JBool (negb act)).
Proof.
  intros Hp Hty Hlink Hh Hth Honly load act unchanged.
  set (its0 := interactables r) in *. set (es := entities r) in *.
  assert (Hmain : forall k,
            getI hid (forEachIndex k (updatePlateAt M es) its0)
            = Some (if decide (j < k)%nat
                    then (if unchanged then h
                          else setField "active" (JBool (negb act)) h)
                    else h)).
  { induction k as [|k IH].
    { by rewrite decide_False by lia. }
    rewrite forEachIndex_S.
    destruct (platePass_inv M es its0 k) as [Hshape Hplates].
    set (cur := forEachIndex k (updatePlateAt M es) its0) in *. clearbody cur.
    set (hk := if decide (j < k)%nat
               then (if unchanged then h
                     else setField "active" (JBool (negb act)) h)
               else h) in *.
    assert (Hthk : i_type hk = hazard).
    { unfold hk. by repeat case_match. }
    assert (Hflip : forall (x y : InteractableState), j <> k ->
               (if decide (j < Datatypes.S k)%nat then x else y)
               = (if decide (j < k)%nat then x else y)).
    { intros x y Hne. destruct (decide (j < k)%nat);
        [by rewrite decide_True by lia|by rewrite decide_False by lia]. }
    destruct (its0 !! k) as [q|] eqn:Hq.
    2:{ assert (cur !! k = None) as Hnone.
        { apply lookup_ge_None. apply lookup_ge_None in Hq.
          by rewrite <- (Forall2_length _ _ _ Hshape). }
        unfold updatePlateAt. rewrite Hnone.
        rewrite Hflip by congruence. exact IH. }
    destruct (decide (i_type q = pressure_plate)) as [Htq|Htq].
    2:{ rewrite updatePlateAt_other.
        - rewrite Hflip by congruence. exact IH.
        - intros x Hx.
          destruct (Forall2_lookup_l _ _ _ _ _ Hshape Hq)
            as (y & Hy & ((_ & Hk & _) & _)).
          congruence. }
    assert (Hcur : cur !! k = Some q).
    { rewrite (Hplates k q Hq Htq). by rewrite decide_False by lia. }
    unfold updatePlateAt. rewrite Hcur.
    rewrite bool_decide_eq_true_2 by done. cbv zeta.
    rewrite (totalWeight_shape M es its0 cur) by done.
    set (total := totalWeight M es its0 (i_position q)).
    set (its1 := alter _ k cur).
    assert (H1 : getI hid its1 = Some hk).
    { unfold its1. eapply getI_alter_other; [exact IH|exact Hcur|congruence|done]. }
    destruct (decide (k = j)) as [->|Hne].
    - assert (q = p) as -> by congruence.
      assert (hk = h) as Hhk by (unfold hk; by rewrite decide_False by lia).
      rewrite Hhk in H1.
      rewrite decide_True by lia.
      unfold total. rewrite totalWeight_plateLoad. fold load. fold act.
      fold unchanged. destruct unchanged; simpl; [done|].
      rewrite (handlePressurePlateChange_hazard _ _ hid _ h) by done.
      by rewrite decide_True.
    - rewrite Hflip by congruence. fold hk.
      destruct (strictEq _ (getField (i_state q) "activated")); [done|].
      cbn [negb]. rewrite handlePressurePlateChange_other; [done|].
      intros Hin. apply Hne. by apply (Honly k q). }
  assert (Hres := Hmain (length its0)).
  rewrite decide_True in Hres by (by eapply lookup_lt_Some).
  split; [exact Hres|]. intros Hch. rewrite Hch in Hres.
  eexists. split; [exact Hres|].
  by rewrite getField_setField, decide_True.
Qed.

(** ** Puzzle completion and its reward *)

Global Instance openKept_refl : Reflexive openKept.
Proof. by intros a. Qed.
Global Instance openKept_trans : Transitive openKept.
Proof.
  intros a b c [Hk1 H1] [Hk2 H2]. split; [by etrans|].
  intros Hty Ha. apply H2; [|by apply H1].
  destruct Hk1 as (_ & <- & _). done.
Qed.

Lemma reward_opens d :
  openDoor (setField "open" (JBool true) (setField "locked" (JBool false) d)).
Proof.
  split.
  - by rewrite getField_setField, decide_True.
  - rewrite getField_setField, decide_False by done.
    by rewrite getField_setField, decide_True.
Qed.

Lemma grantReward_openKept reward its :
  Forall2 openKept its (grantReward reward its).
Proof.
  unfold grantReward. destruct reward as [rid|]; [|reflexivity].
  destruct (String.eqb rid ""); [reflexivity|].
  destruct (getI rid its) as [x|] eqn:Hx; [|reflexivity].
  case_bool_decide; [|reflexivity].
  apply Forall2_modifyI_rel; [apply _|]. intros a Ha.
  split; [done|]. intros _ _. apply reward_opens.
Qed.

Lemma evalPuzzle_openKept a pc :
  Forall2 openKept (interactables a) (interactables (evalPuzzle a pc)).
Proof.
  unfold evalPuzzle.
  destruct (puzzleStates a !! pz_id pc) as [ps|]; [|reflexivity].
  destruct (completed ps); [reflexivity|].
  destruct (forallb _ _); [|reflexivity].
  apply grantReward_openKept.
Qed.

(** X30. If the first puzzle of the level is not completed and all its
    required objectives hold when the puzzle pass starts, the pass
    completes it and unlocks and opens the door named as its reward;
    both are still so when the pass ends, whatever the later puzzles
    do. *)
Theorem completed_puzzle_opens_its_reward (r : Room) (L : LevelData)
  (pc : PuzzleConfig) (rest : list PuzzleConfig) (ps : PlayerPuzzleState) :
  levelData r = Some L -> puzzles L = pc :: rest ->
  puzzleStates r !! pz_id pc = Some ps -> completed ps = false ->
  Forall (fun o => o_optional o = true
                   \/ checkObjective r (o_condition o) = true)
    (pz_objectives pc) ->
  let r' := checkPuzzleCompletion r in
  (exists ps', puzzleStates r' !! pz_id pc = Some ps'
               /\ completed ps' = true)
  /\ forall did d,
       pz_completionReward pc = Some did -> did <> "" ->
       getI did (interactables r) = Some d -> i_type d = door ->
       exists d', getI did (interactables r') = Some d'
                  /\ getField (i_state d') "open" = JBool true
                  /\ getField (i_state d') "locked" = JBool false.
Proof.
  intros HL Hpz Hps Hc Hobj r'.
  assert (Hall : forallb (fun oc : Objective * bool => o_optional oc.1 || oc.2)
                   (map (fun o => (o, checkObjective r (o_condition o)))
                      (pz_objectives pc)) = true).
  { apply forallb_forall. intros [o b] Hin.
    apply in_map_iff in Hin as (o' & [= <- <-] & Hin).
    rewrite Forall_forall in Hobj. cbn [fst snd].
    destruct (Hobj o') as [Ho|Ho]; [by apply list_elem_of_In| |];
      rewrite Ho; [done|apply orb_true_r]. }
  set (r1 := evalPuzzle r pc).
  assert (Hr' : r' = foldl evalPuzzle r1 rest).
  { unfold r', checkPuzzleCompletion. by rewrite HL, Hpz. }
  assert (Hr1 : puzzleStates r1 !! pz_id pc
                = Some {| completed := true;
                          objectives :=
                            foldl (fun m oc => <[o_id oc.1 := oc.2]> m)
                              (objectives ps)
                              (map (fun o => (o, checkObjective r
                                                   (o_condition o)))
                                 (pz_objectives pc)) |}
                /\ interactables r1
                   = grantReward (pz_completionReward pc) (interactables r)).
  { unfold r1, evalPuzzle. rewrite Hps, Hc, Hall.
    cbn [puzzleStates interactables set_interactables set_puzzleStates].
    split; [apply lookup_insert_eq|done]. }
  destruct Hr1 as [Hp1 Hi1].
  assert (Hadv : puzzlesAdvance (puzzleStates r1) (puzzleStates r')).
  { rewrite Hr'.
    apply (foldl_rel (fun x y => puzzlesAdvance (puzzleStates x)
                                   (puzzleStates y))).
    - intros x. apply puzzlesAdvance_refl.
    - intros x y z. apply puzzlesAdvance_trans.
    - intros x p. apply evalPuzzle_advance. }
  assert (Hkept : Forall2 openKept (interactables r1) (interactables r')).
  { rewrite Hr'.
    apply (foldl_rel (fun x y => Forall2 openKept (interactables x)
                                   (interactables y))).
    - intros x. reflexivity.
    - intros x y z. apply transitivity.
    - intros x p. apply evalPuzzle_openKept. }
  clearbody r' r1. split.
  - specialize (Hadv (pz_id pc)). rewrite Hp1 in Hadv. cbn [completed] in Hadv.
    eexists. split; [exact Hadv|done].
  - intros did d Hrew Hne Hd Hty.
    assert (H1 : getI did (interactables r1)
                 = Some (setField "open" (JBool true)
                           (setField "locked" (JBool false) d))).
    { rewrite Hi1, Hrew. unfold grantReward.
      apply String.eqb_neq in Hne. rewrite Hne, Hd.
      rewrite bool_decide_eq_true_2 by done.
      rewrite getI_modifyI by done. by rewrite decide_True, Hd by done. }
    assert (Hg : option_Forall2 openKept (getI did (interactables r1))
                   (getI did (interactables r'))).
    { apply getI_Forall2; [|done]. by intros a b [[? _] _]. }
    rewrite H1 in Hg. inversion Hg as [a d' [Hk Hopen] Ha Hb|]; subst.
    exists d'. split; [done|]. apply Hopen; [done|apply reward_opens].
Qed.

End Machinery.

(** * The lobby, the room manager and game control *)

Section Lobby.

Variable K : Constants.
Variable M : MathLib.

(** ** Players joining and leaving *)

Lemma getPlayerByRole_None role o :
  lobbyOk o -> truthyId (getPlayerByRole role o) = false ->
  forall id, players (sim o) !! id <> Some role.
Proof.
  intros (Hnd & Hdom & Hne & Huniq & Hsz) Hf id Hid.
  unfold getPlayerByRole in Hf.
  destruct (list_find _ (playerOrder o)) as [[i x]|] eqn:Hfind; simpl in Hf.
  - apply list_find_Some in Hfind as (Hx & _ & _).
    apply negb_false_iff, String.eqb_eq in Hf. subst x.
    apply Hne. by eapply list_elem_of_lookup_2.
  - apply list_find_None in Hfind. rewrite Forall_forall in Hfind.
    apply (Hfind id); [|done]. apply Hdom. by rewrite Hid.
Qed.

Lemma getPlayerByRole_Some role o id :
  lobbyOk o -> players (sim o) !! id = Some role ->
  getPlayerByRole role o = Some id /\ truthyId (getPlayerByRole role o) = true.
Proof.
  intros (Hnd & Hdom & Hne & Huniq & Hsz) Hid.
  assert (Hin : id ∈ playerOrder o) by (apply Hdom; by rewrite Hid).
  unfold getPlayerByRole.
  destruct (list_find _ (playerOrder o)) as [[i x]|] eqn:Hfind; simpl.
  - apply list_find_Some in Hfind as (Hx & Hrole & _).
    assert (x = id) as -> by (by eapply Huniq).
    split; [done|]. apply negb_true_iff, String.eqb_neq. intros ->. done.
  - apply list_find_None in Hfind. rewrite Forall_forall in Hfind.
    by destruct (Hfind id Hin).
Qed.

Lemma newRoom_ok now code level creator :
  creator <> "" -> lobbyOk (newRoom now code level creator).
Proof.
  intros Hc. unfold lobbyOk, newRoom. cbn [sim playerOrder players].
  split; [apply NoDup_singleton|]. split.
  { intros id. rewrite list_elem_of_singleton.
    destruct (decide (id = creator)) as [->|Hne].
    - rewrite lookup_singleton_eq. split; [by eexists|done].
    - rewrite lookup_singleton_ne by done. split; [done|by intros [? ?]]. }
  split; [by rewrite list_elem_of_singleton|]. split.
  { intros id1 id2 role H1 H2.
    apply lookup_singleton_Some in H1 as [<- _].
    by apply lookup_singleton_Some in H2 as [<- _]. }
  rewrite map_size_singleton. lia.
Qed.

Lemma addPlayer_ok pid role o :
  pid <> "" -> lobbyOk o -> lobbyOk (addPlayer pid role o).1.
Proof.
  intros Hpid Hok. unfold addPlayer.
  destruct (Nat.leb_spec 2 (size (players (sim o)))) as [|Hlt]; [done|].
  destruct (truthyId (getPlayerByRole role o)) eqn:Hby; [done|].
  pose proof (getPlayerByRole_None role o Hok Hby) as Hfree.
  destruct Hok as (Hnd & Hdom & Hne & Huniq & Hsz).
  unfold lobbyOk. cbn [fst sim playerOrder].
  change (players (createPlayerEntity role (set_players ?ps ?r))) with ps.
  assert (Horder : forall id, id ∈ orderWith pid (playerOrder o)
                              <-> id = pid \/ id ∈ playerOrder o).
  { intros id. unfold orderWith. case_bool_decide as Hin.
    - split; [by right|]. by intros [->|?].
    - rewrite elem_of_app, list_elem_of_singleton. tauto. }
  split.
  { unfold orderWith. case_bool_decide as Hin; [done|].
    apply NoDup_app. split; [done|]. split; [|apply NoDup_singleton].
    intros x Hx Hx'. apply list_elem_of_singleton in Hx'. by subst. }
  split.
  { intros id. rewrite Horder, Hdom.
    destruct (decide (id = pid)) as [->|Hn].
    - rewrite lookup_insert_eq. split; [by eexists|by left].
    - rewrite lookup_insert_ne by done. split; [by intros [?|?]|by right]. }
  split.
  { rewrite Horder. by intros [?|?]. }
  split.
  { intros id1 id2 r0 H1 H2.
    destruct (decide (id1 = pid)) as [->|Hn1],
             (decide (id2 = pid)) as [->|Hn2]; [done| | |].
    - rewrite lookup_insert_eq in H1. rewrite lookup_insert_ne in H2 by done.
      simplify_eq. by destruct (Hfree id2).
    - rewrite lookup_insert_eq in H2. rewrite lookup_insert_ne in H1 by done.
      simplify_eq. by destruct (Hfree id1).
    - rewrite lookup_insert_ne in H1, H2 by done. by eapply Huniq. }
  pose proof (map_size_insert pid role (players (sim o))) as Hs.
  destruct (players (sim o) !! pid); unfold id in Hs; lia.
Qed.

Lemma removePlayer_ok pid o : lobbyOk o -> lobbyOk (removePlayer pid o).
Proof.
  intros (Hnd & Hdom & Hne & Huniq & Hsz).
  unfold lobbyOk, removePlayer. cbn [sim playerOrder].
  change (players (set_entities ?es (set_players ?ps ?r))) with ps.
  assert (Horder : forall id,
             id ∈ List.filter (fun x => negb (String.eqb x pid)) (playerOrder o)
             <-> id <> pid /\ id ∈ playerOrder o).
  { intros id. rewrite list_elem_of_In, List.filter_In, <- list_elem_of_In.
    rewrite negb_true_iff, String.eqb_neq. tauto. }
  split.
  { clear -Hnd. induction Hnd as [|x l Hx Hl IH]; simpl; [constructor|].
    destruct (negb (String.eqb x pid)); [|done].
    constructor; [|done]. intros Hin. apply Hx.
    apply list_elem_of_In, List.filter_In in Hin as [Hin _].
    by apply list_elem_of_In. }
  split.
  { intros id. rewrite Horder, Hdom.
    destruct (decide (id = pid)) as [->|Hn].
    - rewrite lookup_delete_eq. split; [by intros [? _]|by intros [? ?]].
    - rewrite lookup_delete_ne by done. tauto. }
  split.
  { rewrite Horder. by intros [_ ?]. }
  split.
  { intros id1 id2 r0 H1 H2.
    apply lookup_delete_Some in H1 as [_ H1].
    apply lookup_delete_Some in H2 as [_ H2]. by eapply Huniq. }
  pose proof (map_size_delete pid (players (sim o))) as Hs.
  destruct (players (sim o) !! pid); unfold id in Hs; lia.
Qed.

(** X23. Whatever players join and leave a room after it was created,
    as long as no id is the empty string, the room holds at most two
    players and no role is held by two of them. *)
Theorem lobby_holds_two_players_of_distinct_roles (now : Q)
  (code level creator : string) (ops : list LobbyOp) :
  creator <> "" -> ("" ∉ joiners ops) ->
  let o := foldl applyOp (newRoom now code level creator) ops in
  (size (players (sim o)) <= 2)%nat
  /\ (forall id1 id2 role,
        getPlayerRole id1 o = Some role -> getPlayerRole id2 o = Some role ->
        id1 = id2)
  /\ (forall id, id ∈ playerOrder o <-> is_Some (getPlayerRole id o)).
Proof.
  intros Hc Hj o.
  assert (Hok : lobbyOk o).
  { unfold o. clear o.
    pose proof (newRoom_ok now code level creator Hc) as H0.
    revert H0. generalize (newRoom now code level creator).
    induction ops as [|op ops IH]; intros o0 H0; simpl; [done|].
    apply IH.
    - destruct op as [pid role|pid]; simpl in Hj; [|done].
      by apply not_elem_of_cons in Hj as [_ ?].
    - destruct op as [pid role|pid]; simpl.
      + apply addPlayer_ok; [|done]. simpl in Hj.
        apply not_elem_of_cons in Hj as [? _]. congruence.
      + by apply removePlayer_ok. }
  destruct Hok as (_ & Hdom & _ & Huniq & Hsz). done.
Qed.

Lemma setEntity_all (P : EntityState -> Prop) e es :
  P e -> Forall P es -> Forall P (setEntity e es).
Proof.
  intros He Hes. unfold setEntity.
  destruct (list_find _ es) as [[i x]|].
  - by apply Forall_insert.
  - apply Forall_app. split; [done|]. by constructor.
Qed.

(** X24. The creator of a room is registered as the dog but is given no
    entity: as long as the creator stays and nobody joins under the
    creator's id (or under the empty id), every entity of the room is the
    panda's, and the inputs of the creator change nothing. *)
Theorem creator_is_given_no_entity (now : Q)
  (code level creator : string) (joins : list (string * Role)) :
  creator <> "" ->
  Forall (fun j => j.1 <> "" /\ j.1 <> creator) joins ->
  let o := foldl (fun o j => (addPlayer j.1 j.2 o).1)
             (newRoom now code level creator) joins in
  getPlayerRole creator o = Some dog
  /\ Forall (fun e => e_type e = panda /\ e_id e = "panda_entity")
       (entities (sim o))
  /\ forall tickNo input position,
       handleInput K creator tickNo input position (sim o) = sim o.
Proof.
  intros Hc Hj o.
  assert (Hinv : lobbyOk o /\ players (sim o) !! creator = Some dog
                 /\ Forall (fun e => e_type e = panda
                                     /\ e_id e = "panda_entity")
                      (entities (sim o))).
  { unfold o. clear o.
    assert (H0 : lobbyOk (newRoom now code level creator)
                 /\ players (sim (newRoom now code level creator)) !! creator
                    = Some dog
                 /\ Forall (fun e => e_type e = panda
                                     /\ e_id e = "panda_entity")
                      (entities (sim (newRoom now code level creator)))).
    { split; [by apply newRoom_ok|]. split; [apply lookup_singleton_eq|].
      constructor. }
    revert H0. generalize (newRoom now code level creator).
    induction Hj as [|[pid role] joins [Hp1 Hp2] _ IH]; intros o0 H0;
      simpl; [done|].
    apply IH. destruct H0 as (Hok & Hdog & Hes).
    split; [by apply addPlayer_ok|].
    simpl in Hp1, Hp2. unfold addPlayer.
    destruct (2 <=? size (players (sim o0)))%nat; [done|].
    destruct (truthyId (getPlayerByRole role o0)) eqn:Hby; [done|].
    assert (role = panda) as ->.
    { destruct role; [|done].
      destruct (getPlayerByRole_Some dog o0 creator Hok Hdog) as [_ Ht].
      congruence. }
    cbn [fst sim].
    change (players (createPlayerEntity panda (set_players ?ps ?r))) with ps.
    split; [by rewrite lookup_insert_ne|].
    unfold createPlayerEntity. cbn [entities set_entities set_players].
    by apply setEntity_all. }
  destruct Hinv as (Hok & Hdog & Hes).
  split; [exact Hdog|]. split; [exact Hes|].
  intros tickNo input position. unfold handleInput. rewrite Hdog.
  destruct (findEntity (entityIdOf dog) (entities (sim o)))
    as [[ei e]|] eqn:Hfind; [|done].
  apply list_find_Some in Hfind as (He & Hid & _).
  rewrite Forall_forall in Hes.
  destruct (Hes e) as [_ Hpid]; [by eapply list_elem_of_lookup_2|].
  rewrite Hpid in Hid. discriminate Hid.
Qed.

(** ** The room manager *)

Section Manager.

Variable toUpperCase : string -> string.
Variable CLIENT_URL : option string.

Lemma pickCode_free has draws fuel : forall a k,
  (a <= k)%nat -> (k - a <= fuel)%nat -> (k < 99)%nat ->
  (forall i, (a <= i < k)%nat -> has (draws i) = true) ->
  has (draws k) = false ->
  pickCode has draws fuel a = (draws k, Datatypes.S k).
Proof.
  induction fuel as [|fuel IH]; intros a k Hak Hfuel Hk Htaken Hfree.
  - assert (a = k) as -> by lia. done.
  - cbn [pickCode]. destruct (decide (a = k)) as [->|Hne].
    + by rewrite Hfree.
    + rewrite Htaken by lia.
      destruct (Nat.ltb_spec (Datatypes.S a) 100); [|lia]. cbn [andb].
      apply IH; try lia; [|done]. intros i Hi. apply Htaken. lia.
Qed.

Lemma pickCode_exhausted has draws fuel : forall a,
  (a <= 99)%nat -> (99 - a <= fuel)%nat ->
  (forall i, (a <= i < 99)%nat -> has (draws i) = true) ->
  pickCode has draws fuel a = (draws 99%nat, 100%nat).
Proof.
  induction fuel as [|fuel IH]; intros a Ha Hfuel Htaken.
  - assert (a = 99%nat) as -> by lia. done.
  - cbn [pickCode]. destruct (decide (a = 99%nat)) as [->|Hne].
    + by rewrite andb_false_r.
    + rewrite Htaken by lia.
      destruct (Nat.ltb_spec (Datatypes.S a) 100); [|lia]. cbn [andb].
      apply IH; try lia. intros i Hi. apply Htaken. lia.
Qed.

(** X25. [createRoom] draws codes until one is free, but gives up after
    the 100th draw without looking at it: it succeeds, with the first
    free code, exactly when one of the first 99 draws is free; when the
    first 99 draws are all taken it fails and leaves the rooms as they
    were, even if the 100th code is free. *)
Theorem createRoom_uses_the_first_99_draws (draws : nat -> string) (now : Q)
  (creator level : string) (rooms : gmap string RoomObject) :
  (forall k, (k < 99)%nat ->
     (forall i, (i < k)%nat -> is_Some (rooms !! draws i)) ->
     rooms !! draws k = None ->
     let out := createRoom CLIENT_URL draws now creator level rooms in
     out.1 = <[draws k := newRoom now (draws k) level creator]> rooms
     /\ cr_success out.2 = true /\ cr_roomCode out.2 = Some (draws k))
  /\ ((forall i, (i < 99)%nat -> is_Some (rooms !! draws i)) ->
      createRoom CLIENT_URL draws now creator level rooms
      = (rooms, {| cr_success := false; cr_roomCode := None;
                   cr_qrCodeUrl := None;
                   cr_error := Some "Could not generate unique room code" |})).
Proof.
  split.
  - intros k Hk Htaken Hfree out. unfold out, createRoom.
    rewrite (pickCode_free _ draws 100 0 k); try lia.
    + destruct (Nat.leb_spec 100 (Datatypes.S k)); [lia|]. done.
    + intros i Hi. apply bool_decide_eq_true. apply Htaken. lia.
    + apply bool_decide_eq_false. rewrite Hfree. by intros [? ?].
  - intros Htaken. unfold createRoom.
    rewrite (pickCode_exhausted _ draws 100 0); try lia; [done|].
    intros i Hi. apply bool_decide_eq_true. apply Htaken. lia.
Qed.

(** X26. The player who joins a room just created is the panda, whatever
    role it prefers; the room is then full and ready, and every further
    join is refused as full. *)
Theorem second_player_is_the_panda (now : Q) (c level creator pid : string)
  (preferred : option Role) (rooms : gmap string RoomObject) :
  toUpperCase c = c -> creator <> "" -> pid <> "" -> pid <> creator ->
  let rooms1 := <[c := newRoom now c level creator]> rooms in
  let out := joinRoom toUpperCase c pid preferred rooms1 in
  out.2 = {| jr_success := true; jr_role := Some panda; jr_error := None;
             jr_errorCode := None |}
  /\ exists o2,
       getRoom toUpperCase c out.1 = Some o2
       /\ getPlayerRole creator o2 = Some dog
       /\ getPlayerRole pid o2 = Some panda
       /\ isFull o2 = true /\ status o2 = st_ready
       /\ forall pid' preferred',
            joinRoom toUpperCase c pid' preferred' out.1
            = (out.1, joinFailure "Room is full" "full").
Proof.
  intros Hup Hc Hpid Hne rooms1 out.
  set (o1 := newRoom now c level creator) in *.
  assert (Hok : lobbyOk o1) by (by apply newRoom_ok).
  assert (Hdog : players (sim o1) !! creator = Some dog)
    by apply lookup_singleton_eq.
  destruct (getPlayerByRole_Some dog o1 creator Hok Hdog) as [_ Htd].
  assert (Hnop : truthyId (getPlayerByRole panda o1) = false).
  { unfold getPlayerByRole, o1, newRoom. cbn [sim players playerOrder].
    cbn [list_find]. rewrite lookup_singleton_eq.
    by rewrite decide_False. }
  assert (Hsz : size (players (sim o1)) = 1%nat) by apply map_size_singleton.
  assert (Hjoin : joinRoom toUpperCase c pid preferred rooms1
                  = (<[c := (addPlayer pid panda o1).1]> rooms1,
                     {| jr_success := true; jr_role := Some panda;
                        jr_error := None; jr_errorCode := None |})).
  { unfold joinRoom. rewrite Hup. unfold rooms1 at 1.
    rewrite lookup_insert_eq. unfold isFull. rewrite Hsz. cbn [Nat.eqb].
    by rewrite Htd, Hnop. }
  unfold out. rewrite Hjoin. cbn [fst snd]. split; [done|].
  set (o2 := (addPlayer pid panda o1).1).
  assert (Ho2 : players (sim o2)
                = <[pid := panda]> (players (sim o1))
                /\ status o2 = st_ready).
  { unfold o2, addPlayer. rewrite Hsz, Hnop. cbn [Nat.leb fst sim status].
    change (players (createPlayerEntity panda (set_players ?ps ?r))) with ps.
    split; [done|].
    rewrite map_size_insert_None, Hsz; [done|].
    unfold o1, newRoom. cbn [sim players].
    by rewrite lookup_singleton_ne. }
  destruct Ho2 as [Hps Hst].
  assert (Hfull : isFull o2 = true).
  { unfold isFull. rewrite Hps, map_size_insert_None, Hsz; [done|].
    unfold o1, newRoom. cbn [sim players]. by rewrite lookup_singleton_ne. }
  exists o2. unfold getRoom, getPlayerRole. rewrite Hup, lookup_insert_eq, Hps.
  split; [done|]. split; [by rewrite lookup_insert_ne|].
  split; [apply lookup_insert_eq|]. split; [done|]. split; [done|].
  intros pid' preferred'. unfold joinRoom.
  by rewrite Hup, lookup_insert_eq, Hfull.
Qed.

(** X27. The sweep removes exactly the rooms that have no player and
    were created more than the timeout (300000 ms) ago; a room that still
    has a player, and so every room that was just created, survives any
    sweep. *)
Theorem sweep_removes_only_empty_old_rooms (now : Q)
  (rooms : gmap string RoomObject) :
  (forall c, cleanupStaleRooms now rooms !! c
             = match rooms !! c with
               | Some o => if stale now o then None else Some o
               | None => None
               end)
  /\ (forall o, stale now o = true
                <-> players (sim o) = ∅ /\ (300000 < now - createdAt o)%Q)
  /\ (forall c o, rooms !! c = Some o -> players (sim o) <> ∅ ->
        cleanupStaleRooms now rooms !! c = Some o)
  /\ (forall t code level creator,
        stale now (newRoom t code level creator) = false).
Proof.
  assert (Hstale : forall o, stale now o = true
                     <-> players (sim o) = ∅ /\ (300000 < now - createdAt o)%Q).
  { intros o. unfold stale, isEmpty, Qgtb, ROOM_TIMEOUT.
    rewrite andb_true_iff, Nat.eqb_eq, Qltb_lt, map_size_empty_iff. done. }
  assert (Hlook : forall c, cleanupStaleRooms now rooms !! c
                    = match rooms !! c with
                      | Some o => if stale now o then None else Some o
                      | None => None
                      end).
  { intros c. unfold cleanupStaleRooms.
    destruct (rooms !! c) as [o|] eqn:Hc.
    - destruct (stale now o) eqn:Hs.
      + apply map_lookup_filter_None. right. intros x Hx. simpl.
        rewrite Hc in Hx. injection Hx as <-. by rewrite Hs.
      + apply map_lookup_filter_Some. by split.
    - apply map_lookup_filter_None. by left. }
  split; [exact Hlook|]. split; [exact Hstale|]. split.
  - intros c o Hc Hne. rewrite Hlook, Hc.
    destruct (stale now o) eqn:Hs; [|done].
    apply Hstale in Hs as [? _]. done.
  - intros t code level creator.
    destruct (stale now (newRoom t code level creator)) eqn:Hs; [|done].
    apply Hstale in Hs as [Hs _]. unfold newRoom in Hs. cbn [sim players] in Hs.
    by apply (map_non_empty_singleton creator dog) in Hs.
Qed.

End Manager.

(** ** Game control *)

Section Control.

Variable getLevel : string -> option Level.

Lemma paused_initializeLevel lid r :
  paused (initializeLevel getLevel lid r) = paused r.
Proof. unfold initializeLevel. by destruct (getLevel lid). Qed.

(** X28. The [status] of a room and the [paused] flag that stops the tick
    are written together by [setPaused] only: a player who leaves a
    playing room turns the status to paused while the simulation goes on
    ticking, and [startGame] turns the status to playing while a room
    that was paused stays frozen. *)
Theorem status_is_not_the_pause_flag (clockD clockP now : Q) (pid : string)
  (o : RoomObject) :
  (paused (sim (removePlayer pid o)) = paused (sim o)
   /\ (status o = st_playing -> status (removePlayer pid o) = st_paused)
   /\ (paused (sim o) = false ->
       tick_ (tick K M clockD clockP (sim (removePlayer pid o))).1
       = (tick_ (sim o) + 1)%Z))
  /\ (paused (sim (startGame getLevel now o)) = paused (sim o)
      /\ status (startGame getLevel now o) = st_playing
      /\ (paused (sim o) = true ->
          tick K M clockD clockP (sim (startGame getLevel now o))
          = (sim (startGame getLevel now o), false)))
  /\ (forall b, paused (sim (setPaused b o)) = b
                /\ status (setPaused b o)
                   = if b then st_paused else st_playing).
Proof.
  split; [|split].
  - split; [done|]. split.
    + intros Hst. unfold removePlayer. cbn [status].
      by rewrite bool_decide_eq_true_2.
    + intros Hp.
      destruct (tick_counter K M clockD clockP (sim (removePlayer pid o)))
        as [Ht _]; [done|].
      rewrite Ht. done.
  - assert (Hp : paused (sim (startGame getLevel now o)) = paused (sim o)).
    { unfold startGame. cbn [sim]. by rewrite paused_initializeLevel. }
    split; [exact Hp|]. split; [done|].
    intros Hpaused. unfold tick. by rewrite Hp, Hpaused.
  - intros b. split; [done|by destruct b].
Qed.

Lemma moveToSpawn_idem L e : moveToSpawn L (moveToSpawn L e) = moveToSpawn L e.
Proof.
  destruct e as [id ty pos vel fac st]. unfold moveToSpawn. simpl.
  destruct ty; [destruct (spawns_dog L) eqn:Hs|destruct (spawns_panda L) eqn:Hs];
    simpl; by rewrite ?Hs.
Qed.

Lemma freshPuzzles_lookup (pcs all : list PuzzleConfig) :
  forall m : gmap string PlayerPuzzleState,
  (forall pc, pc ∈ pcs -> pc ∈ all) ->
  (forall id ps, m !! id = Some ps ->
     exists pc, pc ∈ all /\ pz_id pc = id /\ ps = freshPuzzleState pc) ->
  forall id ps,
    foldl (fun m pc => <[pz_id pc := freshPuzzleState pc]> m) m pcs !! id
    = Some ps ->
    exists pc, pc ∈ all /\ pz_id pc = id /\ ps = freshPuzzleState pc.
Proof.
  induction pcs as [|pc pcs IH]; intros m Hsub Hm id ps; simpl; [apply Hm|].
  apply IH.
  - intros x Hx. apply Hsub. by apply list_elem_of_further.
  - intros id' ps'. destruct (decide (id' = pz_id pc)) as [->|Hne].
    + rewrite lookup_insert_eq. intros [= <-]. exists pc.
      split; [apply Hsub, list_elem_of_here|done].
    + rewrite lookup_insert_ne by done. apply Hm.
Qed.

Lemma freshPuzzles_dom (pcs : list PuzzleConfig) :
  forall (m : gmap string PlayerPuzzleState) pc,
  pc ∈ pcs \/ is_Some (m !! pz_id pc) ->
  is_Some (foldl (fun m pc => <[pz_id pc := freshPuzzleState pc]> m) m pcs
             !! pz_id pc).
Proof.
  induction pcs as [|x pcs IH]; intros m pc [Hin|Hm]; simpl.
  - by apply elem_of_nil in Hin.
  - done.
  - apply IH. apply elem_of_cons in Hin as [->|Hin]; [|by left].
    right. rewrite lookup_insert_eq. by eexists.
  - apply IH. right. destruct (decide (pz_id pc = pz_id x)) as [->|Hne].
    + rewrite lookup_insert_eq. by eexists.
    + by rewrite lookup_insert_ne.
Qed.

(** X29. Starting the game loads the level of the room afresh: level
    data, interactables and puzzle states are those of the level
    whatever the room held before (every puzzle of the level has a
    state, none is completed), the counter restarts at 0 and the players
    stand on the spawn points the level gives; pings, the respawn queue,
    the checkpoint and the pause flag are kept.  Starting twice is
    starting once. *)
Theorem startGame_loads_the_level_afresh (level : Level) (now1 now2 : Q)
  (o : RoomObject) :
  getLevel (levelId o) = Some level ->
  let o1 := startGame getLevel now1 o in
  startGame getLevel now2 o1 = startGame getLevel now2 o
  /\ levelData (sim o1) = Some (lv_data level)
  /\ tick_ (sim o1) = 0%Z /\ status o1 = st_playing /\ startedAt o1 = now1
  /\ interactables (sim o1)
     = foldl loadInteractable [] (lv_interactables level)
  /\ (forall id ps, puzzleStates (sim o1) !! id = Some ps ->
        completed ps = false
        /\ exists pc, pc ∈ puzzles (lv_data level) /\ pz_id pc = id
                      /\ ps = freshPuzzleState pc)
  /\ (forall pc, pc ∈ puzzles (lv_data level) ->
        is_Some (puzzleStates (sim o1) !! pz_id pc))
  /\ entities (sim o1) = map (moveToSpawn (lv_data level)) (entities (sim o))
  /\ pings (sim o1) = pings (sim o)
  /\ pendingRespawns (sim o1) = pendingRespawns (sim o)
  /\ checkpointPosition (sim o1) = checkpointPosition (sim o)
  /\ paused (sim o1) = paused (sim o)
  /\ players (sim o1) = players (sim o).
Proof.
  intros Hlevel o1.
  assert (Hsim : sim o1
                 = mkRoom (Some (lv_data level)) (players (sim o))
                     (map (moveToSpawn (lv_data level)) (entities (sim o)))
                     (foldl loadInteractable [] (lv_interactables level))
                     (pings (sim o))
                     (foldl (fun m pc => <[pz_id pc := freshPuzzleState pc]> m)
                        ∅ (puzzles (lv_data level)))
                     0 (paused (sim o)) (lastPingTime (sim o))
                     (pendingRespawns (sim o)) (guards (sim o))
                     (distractions (sim o)) (checkpointPosition (sim o))
                     (timeouts (sim o))).
  { unfold o1, startGame. cbn [sim]. unfold initializeLevel.
    by rewrite Hlevel. }
  split.
  { clear Hsim. unfold o1, startGame.
    cbn [sim playerOrder roomCode levelId createdAt]. f_equal.
    unfold initializeLevel. rewrite Hlevel.
    cbn [set_tick levelData players entities interactables pings puzzleStates
         tick_ paused lastPingTime pendingRespawns guards distractions
         checkpointPosition timeouts].
    f_equal. rewrite <- list_fmap_compose. apply list_fmap_ext.
    intros i e _. apply moveToSpawn_idem. }
  rewrite Hsim.
  cbn [levelData players entities interactables pings puzzleStates
       tick_ paused pendingRespawns checkpointPosition].
  repeat (split; [done|]).
  split; [|split; [|by repeat split]].
  - intros id ps Hps.
    destruct (freshPuzzles_lookup (puzzles (lv_data level))
                (puzzles (lv_data level)) ∅) with (id := id) (ps := ps)
      as (pc & Hin & Hid & ->); [done| |done|].
    { intros ? ?. by rewrite lookup_empty. }
    split; [done|]. by exists pc.
  - intros pc Hin. apply freshPuzzles_dom. by left.
Qed.

End Control.

End Lobby.

(** * Sample runs *)



(** C7, counterexample.  The pusher stands diagonally to the crate, the
    two offsets being equal: the crate is pushed along Y, not along X. *)
Lemma crate_push_tie_goes_to_Y :
  let dx := (px (i_position crate1) - 2)%Q in
  let dy := (py (i_position crate1) - 2)%Q in
  Qeq_bool (Qabs dx) (Qabs dy) = true
  /\ pushDirection dx dy = (0%Q, 1%Q)
  /\ i_position
       <$> getI "crate_1"
             (interactables
                (handleInteraction "p2" "crate_1" "push" crateRoom).1)
     = Some (mkPos 3 4 0).
Proof. vm_compute. auto. Qed.

Lemma crate_push_rule_witness :
  players crateRoom !! "p2" = Some panda
  /\ getI "crate_1" (interactables crateRoom) = Some crate1
  /\ i_type crate1 = crate
  /\ findEntity (entityIdOf panda) (entities crateRoom)
     = Some (1%nat, playerEntity panda (mkPos 2 2 0))
  /\ success (handleInteraction "p2" "crate_1" "push" crateRoom).2 = true.
Proof.
  assert (H1 : players crateRoom !! "p2" = Some panda)
    by (vm_compute; reflexivity).
  assert (H2 : getI "crate_1" (interactables crateRoom) = Some crate1)
    by (vm_compute; reflexivity).
  assert (H3 : findEntity (entityIdOf panda) (entities crateRoom)
               = Some (1%nat, playerEntity panda (mkPos 2 2 0)))
    by (vm_compute; reflexivity).
  repeat (split; [assumption || reflexivity|]).
  destruct (crate_push_rule crateRoom "p2" "crate_1" crate1 1
              (playerEntity panda (mkPos 2 2 0)) H1 H2 eq_refl H3)
    as (_ & Hok & _).
  apply Hok. vm_compute. reflexivity.
Defined.

Lemma link_toggle_ignores_lock_witness :
  players leverRoom !! "p1" = Some dog
  /\ getI "lever_1" (interactables leverRoom) = Some lever1
  /\ canInteract dog lever1 "toggle" = true
  /\ getI "door_1" (interactables leverRoom) = Some lockedDoor
  /\ truthy (getField (i_state lockedDoor) "locked") = true
  /\ (exists d',
         getI "door_1"
           (interactables
              (handleInteraction "p1" "lever_1" "toggle" leverRoom).1)
         = Some d'
         /\ getField (i_state d') "open" = JBool true)
  /\ handleInteraction "p1" "door_1" "toggle" leverRoom
     = (leverRoom, failure "Permission denied").
Proof.
  assert (H1 : players leverRoom !! "p1" = Some dog)
    by (vm_compute; reflexivity).
  assert (H2 : getI "lever_1" (interactables leverRoom) = Some lever1)
    by (vm_compute; reflexivity).
  assert (H3 : getI "door_1" (interactables leverRoom) = Some lockedDoor)
    by (vm_compute; reflexivity).
  assert (H4 : truthy (getField (i_state lockedDoor) "locked") = true)
    by (vm_compute; reflexivity).
  repeat (split; [assumption || reflexivity|]).
  destruct (link_toggle_ignores_lock leverRoom "p1" "lever_1" "toggle"
              "door_1" dog lever1 lockedDoor H1 H2
              (or_introl (conj eq_refl eq_refl)) eq_refl
              (NoDup_singleton "door_1") (list_elem_of_here _ _) H3 eq_refl)
    as ((d' & Hd' & Hopen & _) & Hlocked).
  split.
  - exists d'. split; [exact Hd'|]. rewrite Hopen. vm_compute. reflexivity.
  - exact (Hlocked H4 "toggle").
Defined.

Lemma addPing_cooldown_and_eviction_witness :
  lastPingTime fullPingRoom !! "p1" = Some 500%Q
  /\ (600 - 500 < PING_COOLDOWN sampleConstants)%Q
  /\ addPing sampleConstants 600 "f" "p1" (mkPos 2 2 0) go fullPingRoom
     = (fullPingRoom, None)
  /\ players fullPingRoom !! "p1" = Some dog
  /\ map p_id
       (pings (addPing sampleConstants 2000 "f" "p1" (mkPos 2 2 0) go
                 fullPingRoom).1)
     = ["a"; "c"; "d"; "e"; "f"].
Proof.
  assert (H1 : lastPingTime fullPingRoom !! "p1" = Some 500%Q)
    by (vm_compute; reflexivity).
  assert (H2 : (600 - 500 < PING_COOLDOWN sampleConstants)%Q)
    by (vm_compute; reflexivity).
  assert (H3 : players fullPingRoom !! "p1" = Some dog)
    by (vm_compute; reflexivity).
  split; [exact H1|]. split; [exact H2|]. split; [|split; [exact H3|]].
  - exact (proj1 (addPing_cooldown_and_eviction sampleConstants fullPingRoom
                    600 "f" "p1" (mkPos 2 2 0) go) 500%Q H1 H2).
  - destruct (proj2 (proj2 (addPing_cooldown_and_eviction sampleConstants
                              fullPingRoom 2000 "f" "p1" (mkPos 2 2 0) go))
                dog H3)
      as (o & _ & _ & _ & _ & Heq).
    + vm_compute. discriminate.
    + vm_compute. lia.
    + vm_compute. lia.
    + vm_compute. reflexivity.
Defined.

Lemma plate_activation_is_current_weight_witness :
  paused (plateRoom (mkPos 1 1 0)) = false
  /\ interactables (plateRoom (mkPos 1 1 0)) !! 1%nat = Some plateHeavy
  /\ i_type plateHeavy = pressure_plate
  /\ plateLoad sampleMath (entities (plateRoom (mkPos 1 1 0)))
       (interactables (plateRoom (mkPos 1 1 0))) (i_position plateHeavy)
     = 2%Z
  /\ exists p',
       interactables
         (tick sampleConstants sampleMath 0 0 (plateRoom (mkPos 1 1 0))).1
         !! 1%nat = Some p'
       /\ getField (i_state p') "activated" = JBool true.
Proof.
  assert (H : plateLoad sampleMath (entities (plateRoom (mkPos 1 1 0)))
                (interactables (plateRoom (mkPos 1 1 0)))
                (i_position plateHeavy) = 2%Z)
    by (vm_compute; reflexivity).
  repeat (split; [reflexivity || exact H|]).
  destruct (plate_activation_is_current_weight sampleConstants sampleMath
              0 0 (plateRoom (mkPos 1 1 0)) 1 plateHeavy
              eq_refl eq_refl eq_refl)
    as (p' & Hp' & _ & Hact & _).
  exists p'. split; [exact Hp'|]. rewrite Hact, H. reflexivity.
Defined.

(** Scenario B: with the panda on the heavy plate only, the gate stays
    locked; with the dog on the light plate as well, it is unlocked and
    open. *)
Lemma door_follows_its_plates_witness :
  getI "gate" (interactables (plateRoom (mkPos 1 1 0))) = Some gate
  /\ interactables (plateRoom (mkPos 1 1 0)) !! 1%nat = Some plateHeavy
  /\ (exists d',
         getI "gate"
           (interactables
              (updatePressurePlates sampleMath (plateRoom (mkPos 1 1 0))))
         = Some d'
         /\ getField (i_state d') "locked" = JBool true
         /\ getField (i_state d') "open" = JBool false)
  /\ (exists d',
         getI "gate"
           (interactables
              (updatePressurePlates sampleMath (plateRoom (mkPos 3 3 0))))
         = Some d'
         /\ getField (i_state d') "locked" = JBool false
         /\ getField (i_state d') "open" = JBool true).
Proof.
  split; [vm_compute; reflexivity|]. split; [reflexivity|]. split.
  - destruct (door_follows_its_plates sampleMath (plateRoom (mkPos 1 1 0))
                "gate" gate 1 plateHeavy
                (pressPlate 2 plateHeavy))
      as (d' & Hd' & Hv);
      [vm_compute; reflexivity|reflexivity|reflexivity|reflexivity
      |apply list_elem_of_here|vm_compute; reflexivity
      |vm_compute; reflexivity|].
    exists d'. split; [exact Hd'|]. exact Hv.
  - destruct (door_follows_its_plates sampleMath (plateRoom (mkPos 3 3 0))
                "gate" gate 1 plateHeavy
                (pressPlate 2 plateHeavy))
      as (d' & Hd' & Hv);
      [vm_compute; reflexivity|reflexivity|reflexivity|reflexivity
      |apply list_elem_of_here|vm_compute; reflexivity
      |vm_compute; reflexivity|].
    exists d'. split; [exact Hd'|]. exact Hv.
Defined.

(** C4, the run that fails.  The button of the Warehouse level is pressed
    and the room ticked: the press sets [pressed] and opens the gate but
    leaves [timer] undefined, so no tick counts anything down; after 100
    ticks, and after one and a hundred more, the button is still pressed
    and the gate still open. *)
Lemma timed_button_is_never_released :
  let pressed := (handleInteraction "p1" "timed_btn_1a" "press"
                    warehouseRoom).1 in
  let r100 := (ticks sampleConstants sampleMath clock50 100 pressed).1 in
  let r101 := (tick sampleConstants sampleMath 5000 5000 r100).1 in
  let r200 := (ticks sampleConstants sampleMath clock50 99 r101).1 in
  fieldOf "timed_btn_1a" "pressed" pressed = Some (JBool true)
  /\ fieldOf "timed_btn_1a" "timer" pressed = Some JUndefined
  /\ fieldOf "dock_gate" "open" pressed = Some (JBool true)
  /\ fieldOf "timed_btn_1a" "pressed" r100 = Some (JBool true)
  /\ fieldOf "timed_btn_1a" "pressed" r101 = Some (JBool true)
  /\ fieldOf "dock_gate" "open" r101 = Some (JBool true)
  /\ fieldOf "timed_btn_1a" "pressed" r200 = Some (JBool true).
Proof. vm_compute. repeat split. Qed.

(** The countdown itself, had the press started it: with [timer] set to
    the duration the button is released, and the gate toggled back, by
    the 100th tick and not before. *)
Lemma timed_button_countdown_when_started :
  let started := buttonRoom (timedButton (JBool true) (JNum 5000)) true in
  let r99 := (ticks sampleConstants sampleMath clock50 99 started).1 in
  let r100 := (tick sampleConstants sampleMath 4950 4950 r99).1 in
  fieldOf "timed_btn_1a" "pressed" r99 = Some (JBool true)
  /\ fieldOf "dock_gate" "open" r99 = Some (JBool true)
  /\ fieldOf "timed_btn_1a" "pressed" r100 = Some (JBool false)
  /\ fieldOf "dock_gate" "open" r100 = Some (JBool false).
Proof. vm_compute. repeat split. Qed.

(** C6, counterexample.  A checkpoint was set at (8,8); the dog touches
    the spikes: the hazard check, and the whole tick, put it back at its
    level spawn point (1,1), and so says the event queued.  And with a
    second set of spikes on the spawn point, one hazard check queues two
    events for the dog, and every later tick one more. *)
Lemma hazard_respawn_ignores_checkpoint :
  (checkpointPosition hazardRoom = Some (mkPos 8 8 0, mkPos 9 8 0)
   /\ touchesHazard sampleConstants sampleMath hazardRoom 0 spikes = true
   /\ e_position
        <$> entities (checkHazardCollisions sampleConstants sampleMath
                        hazardRoom) !! 0%nat
      = Some (mkPos 1 1 0)
   /\ e_position
        <$> entities (tick sampleConstants sampleMath 0 0 hazardRoom).1
              !! 0%nat
      = Some (mkPos 1 1 0)
   /\ map ev_position
        (pendingRespawns (tick sampleConstants sampleMath 0 0 hazardRoom).1)
      = [mkPos 1 1 0])
  /\ (touchesHazard sampleConstants sampleMath spawnTrapRoom 0 spikes = true
      /\ touchesHazard sampleConstants sampleMath spawnTrapRoom 0 spawnSpikes
         = false
      /\ map ev_entityId
           (pendingRespawns
              (checkHazardCollisions sampleConstants sampleMath
                 spawnTrapRoom))
         = ["dog_entity"; "dog_entity"]
      /\ map ev_entityId
           (pendingRespawns
              (ticks sampleConstants sampleMath clock50 2 spawnTrapRoom).1)
         = ["dog_entity"; "dog_entity"; "dog_entity"]).
Proof. vm_compute. repeat split. Qed.

Lemma hazard_contact_respawns_at_spawn_witness :
  entities hazardRoom !! 0%nat = Some (playerEntity dog (mkPos 4 4 0))
  /\ NoDup (map e_id (entities hazardRoom))
  /\ spikes ∈ interactables hazardRoom
  /\ hazardReaches sampleConstants sampleMath spikes (mkPos 4 4 0) = true
  /\ entities (checkHazardCollisions sampleConstants sampleMath hazardRoom)
       !! 0%nat
     = Some (playerEntity dog (mkPos 1 1 0))
  /\ eventsOf "dog_entity"
       (pendingRespawns
          (checkHazardCollisions sampleConstants sampleMath hazardRoom))
     = [ {| ev_entityId := "dog_entity"; ev_role := dog;
            ev_position := mkPos 1 1 0; ev_reason := reason_hazard |} ].
Proof.
  assert (Hnd : NoDup (map e_id (entities hazardRoom))).
  { apply NoDup_cons. split; [|apply NoDup_singleton].
    intros H. apply list_elem_of_singleton in H. discriminate H. }
  assert (Hin : spikes ∈ interactables hazardRoom)
    by apply list_elem_of_here.
  assert (Hreach : hazardReaches sampleConstants sampleMath spikes
                     (mkPos 4 4 0) = true) by (vm_compute; reflexivity).
  split; [reflexivity|]. split; [exact Hnd|]. split; [exact Hin|].
  split; [exact Hreach|].
  destruct (hazard_contact_respawns_at_spawn sampleConstants sampleMath
              hazardRoom 0 (playerEntity dog (mkPos 4 4 0)) spikes
              eq_refl Hnd Hin Hreach) as (Hent & _ & Hev).
  split; [exact Hent|]. apply Hev.
  intros h' Hh'. apply list_elem_of_singleton in Hh' as ->.
  vm_compute. reflexivity.
Defined.

(** C9, counterexample.  The same room ticked once at two readings of the
    clock: at 1000 ms the whistle blown at 0 and the five pings are kept,
    at 10250 ms the whistle and two of the pings have expired.  The same
    calls with ticks at the same readings, the second ping asked for at
    1400 ms or at 1600 ms: refused in one run, accepted in the other.
    And after a push the ticks leave [beingPushed] set, however many they
    are, until the host fires the callback of [setTimeout], which it may
    do before any tick. *)
Lemma run_outcome_depends_on_wall_clock :
  let early := (tick sampleConstants sampleMath 1000 1000 noisyRoom).1 in
  let late := (tick sampleConstants sampleMath 10250 10250 noisyRoom).1 in
  guards noisyRoom = []
  /\ map p_id (pings early) = ["a"; "b"; "c"; "d"; "e"]
  /\ map p_id (pings late) = ["a"; "d"; "e"]
  /\ length (distractions early) = 1%nat
  /\ length (distractions late) = 0%nat
  /\ map p_id
       (pings (foldl (call sampleConstants sampleMath) crateRoom
                 (pingRun 1400)))
     = ["a"]
  /\ map p_id
       (pings (foldl (call sampleConstants sampleMath) crateRoom
                 (pingRun 1600)))
     = ["a"; "b"]
  /\ fieldOf "crate_1" "beingPushed" pushedRoom = Some (JBool true)
  /\ fieldOf "crate_1" "beingPushed"
       (ticks sampleConstants sampleMath clock50 10 pushedRoom).1
     = Some (JBool true)
  /\ fieldOf "crate_1" "beingPushed" (fireTimeout 0 pushedRoom)
     = Some (JBool false).
Proof. vm_compute. repeat split. Qed.

(** Two runs of the crate room, the ticks of the second 30 ms late. *)
Lemma runs_agree_when_clocks_classify_alike_witness :
  sampleRun 0 <> sampleRun 30
  /\ alike sampleConstants sampleMath crateRoom (sampleRun 0) (sampleRun 30)
  /\ trace sampleConstants sampleMath crateRoom (sampleRun 0)
     = trace sampleConstants sampleMath crateRoom (sampleRun 30)
  /\ map p_id
       (pings (foldl (call sampleConstants sampleMath) crateRoom
                 (sampleRun 30)))
     = ["a"; "b"].
Proof.
  assert (H : alike sampleConstants sampleMath crateRoom
                (sampleRun 0) (sampleRun 30)).
  { vm_compute. repeat split. }
  split; [vm_compute; discriminate|]. split; [exact H|].
  split.
  - exact (proj1 (runs_agree_when_clocks_classify_alike sampleConstants
                    sampleMath crateRoom (sampleRun 0) (sampleRun 30) H)).
  - vm_compute. reflexivity.
Defined.

Lemma guard_alert_needs_detection_witness :
  guards sentryRoom !! 0%nat = Some sentry
  /\ guards (tick sampleConstants sampleMath 0 0 sentryRoom).1 !! 0%nat
     = Some (withAlert alert 5000 (Some (mkPos 10 5 0)) sentry)
  /\ exists gm e,
       guards (detectionTurn sampleConstants sampleMath 0 0 sentryRoom)
         !! 0%nat = Some gm
       /\ e ∈ entities (detectionTurn sampleConstants sampleMath 0 0 sentryRoom)
       /\ canGuardSeeEntity sampleMath
            (detectionTurn sampleConstants sampleMath 0 0 sentryRoom) gm e
          = true.
Proof.
  assert (H : guards (tick sampleConstants sampleMath 0 0 sentryRoom).1
                !! 0%nat
              = Some (withAlert alert 5000 (Some (mkPos 10 5 0)) sentry))
    by (vm_compute; reflexivity).
  split; [reflexivity|]. split; [exact H|].
  destruct (proj1 (guard_alert_needs_detection sampleConstants sampleMath
                     0 0 sentryRoom 0 sentry
                     (withAlert alert 5000 (Some (mkPos 10 5 0)) sentry)
                     eq_refl H) eq_refl) as [Hidle|Hseen].
  - discriminate Hidle.
  - exact Hseen.
Defined.

(** The panda's first ping in a room where the dog holds five. *)
Lemma addPing_removePing_round_trip_witness :
  players fullPingRoom !! "p2" = Some panda
  /\ ("f" ∉ map p_id (pings fullPingRoom))
  /\ (removePing "f" "p2"
        (addPing sampleConstants 600 "f" "p2" (mkPos 2 2 0) go
           fullPingRoom).1).2 = true
  /\ pings (removePing "f" "p2"
              (addPing sampleConstants 600 "f" "p2" (mkPos 2 2 0) go
                 fullPingRoom).1).1
     = pings fullPingRoom
  /\ (removePing "f" "p1"
        (addPing sampleConstants 600 "f" "p2" (mkPos 2 2 0) go
           fullPingRoom).1).2 = false.
Proof.
  assert (H1 : players fullPingRoom !! "p2" = Some panda)
    by (vm_compute; reflexivity).
  assert (H2 : "f" ∉ map p_id (pings fullPingRoom)).
  { intros H. apply list_elem_of_In in H. vm_compute in H.
    repeat (destruct H as [H|H]; [discriminate H|]). exact H. }
  destruct (addPing sampleConstants 600 "f" "p2" (mkPos 2 2 0) go fullPingRoom)
    as [r' [p|]] eqn:Hadd; [|vm_compute in Hadd; discriminate Hadd].
  destruct (addPing_removePing_round_trip sampleConstants fullPingRoom r' 600
              "f" "p2" (mkPos 2 2 0) go panda p H1 H2)
    as (_ & _ & _ & Hrm & Hps & Hother); [vm_compute; lia|exact Hadd|].
  cbn [fst].
  split; [exact H1|]. split; [exact H2|]. split; [exact Hrm|].
  split; [exact Hps|].
  rewrite (Hother "p1"); [reflexivity|]. vm_compute. discriminate.
Defined.

(** The dog asks for the locked door. *)
Lemma failed_interaction_changes_nothing_witness :
  success (handleInteraction "p1" "door_1" "toggle" leverRoom).2 = false
  /\ (handleInteraction "p1" "door_1" "toggle" leverRoom).1 = leverRoom.
Proof.
  assert (H : success (handleInteraction "p1" "door_1" "toggle" leverRoom).2
              = false) by (vm_compute; reflexivity).
  split; [exact H|].
  exact (failed_interaction_changes_nothing "p1" "door_1" "toggle" leverRoom H).
Defined.

(** The dog asks to push the crate. *)
Lemma dog_moves_no_crate_or_winch_witness :
  players crateRoom !! "p1" = Some dog
  /\ Forall2 heavyKept (interactables crateRoom)
       (interactables (handleInteraction "p1" "crate_1" "push" crateRoom).1).
Proof.
  assert (H : players crateRoom !! "p1" = Some dog)
    by (vm_compute; reflexivity).
  split; [exact H|].
  exact (dog_moves_no_crate_or_winch "p1" "crate_1" "push" crateRoom H).
Defined.

(** The dog pulls the lever of the sample room twice. *)
Lemma lever_toggled_twice_restores_room_witness :
  players leverRoom !! "p1" = Some dog
  /\ getI "lever_1" (interactables leverRoom) = Some lever1
  /\ (handleInteraction "p1" "lever_1" "toggle"
        (handleInteraction "p1" "lever_1" "toggle" leverRoom).1).1
     = leverRoom.
Proof.
  assert (H1 : players leverRoom !! "p1" = Some dog)
    by (vm_compute; reflexivity).
  assert (H2 : getI "lever_1" (interactables leverRoom) = Some lever1)
    by (vm_compute; reflexivity).
  split; [exact H1|]. split; [exact H2|].
  refine (proj2 (proj2 (lever_toggled_twice_restores_room "p1" "lever_1" dog
                          lever1 leverRoom H1 H2 eq_refl eq_refl
                          (or_introl _) _))).
  - vm_compute. reflexivity.
  - intros id x Hid Hx. apply list_elem_of_singleton in Hid. subst id.
    assert (x = lockedDoor) as ->.
    { vm_compute in Hx. injection Hx as <-. reflexivity. }
    split; [intros _; exists false; vm_compute; reflexivity|].
    intros Hty. discriminate Hty.
Defined.

(** Three ticks of the patrol room. *)
Lemma ticks_advance_counter_witness :
  paused patrolRoom = false
  /\ (ticks sampleConstants sampleMath clock50 3 patrolRoom).2 = false
  /\ tick_ (ticks sampleConstants sampleMath clock50 3 patrolRoom).1 = 3%Z.
Proof.
  assert (H : (ticks sampleConstants sampleMath clock50 3 patrolRoom).2 = false)
    by (vm_compute; reflexivity).
  split; [reflexivity|]. split; [exact H|].
  exact (proj1 (ticks_advance_counter sampleConstants sampleMath clock50 3
                  patrolRoom eq_refl H)).
Defined.

(** The walker of the patrol room, over a hundred ticks. *)
Lemma patrols_in_range_never_throw_witness :
  Forall patrolOk (guards patrolRoom)
  /\ (ticks sampleConstants sampleMath clock50 100 patrolRoom).2 = false.
Proof.
  assert (H : Forall patrolOk (guards patrolRoom)).
  { constructor; [|constructor]. right. simpl.
    split; [lia|]. split; [lia|]. left. reflexivity. }
  split; [exact H|].
  exact (proj1 (patrols_in_range_never_throw sampleConstants sampleMath
                  clock50 100 patrolRoom H)).
Defined.

(** The guard posted on its only waypoint. *)
Lemma single_waypoint_patrol_throws_witness :
  Qltb (distance sampleMath
          (px (mkPos 5 5 0) - px (g_position loneGuard))
          (py (mkPos 5 5 0) - py (g_position loneGuard))) 0.2 = true
  /\ exists g', updateGuard sampleMath loneGuard = Some g'
                /\ updateGuard sampleMath g' = None
                /\ (updateGuardList sampleMath [sentry; g']).2 = true.
Proof.
  assert (H : Qltb (distance sampleMath
                      (px (mkPos 5 5 0) - px (g_position loneGuard))
                      (py (mkPos 5 5 0) - py (g_position loneGuard))) 0.2
              = true) by (vm_compute; reflexivity).
  split; [exact H|].
  destruct (single_waypoint_patrol_throws sampleMath loneGuard (mkPos 5 5 0)
              eq_refl eq_refl eq_refl) as (g' & H1 & _ & _ & H2 & H3);
    [discriminate|exact H|].
  exists g'. split; [exact H1|]. split; [exact H2|].
  exact (H3 [sentry] []).
Defined.

(** The listener, its timer at 100: suspicious after one update,
    returning after two. *)
Lemma suspicion_times_out_witness :
  g_alertState listener = suspicious
  /\ (50 * inject_Z (Z.of_nat 1) < g_alertTimer listener)%Q
  /\ (exists g1, updateGuardTimes sampleMath 1 listener = Some g1
                 /\ g_alertState g1 = suspicious)
  /\ (exists g2, updateGuardTimes sampleMath 2 listener = Some g2
                 /\ g_alertState g2 = returning
                 /\ g_lastSeenPlayerPos g2 = None).
Proof.
  assert (H : (50 * inject_Z (Z.of_nat 1) < g_alertTimer listener)%Q)
    by (vm_compute; reflexivity).
  split; [reflexivity|]. split; [exact H|].
  destruct (suspicion_times_out sampleMath listener 1 eq_refl H)
    as [(g1 & Hg1 & Hs1 & _) Hout].
  split; [exists g1; split; [exact Hg1|exact Hs1]|].
  apply Hout. vm_compute. discriminate.
Defined.

(** The chaser catches the dog: both players go to the checkpoint. *)
Lemma caught_players_return_to_checkpoint_witness :
  guards chaseRoom !! 0%nat = Some chaser
  /\ entities chaseRoom !! 0%nat = Some (playerEntity dog (mkPos 5 (11 # 2) 0))
  /\ map e_position (entities (catchAt sampleMath 0 0 chaseRoom))
     = [mkPos 8 8 0; mkPos 9 8 0]
  /\ length (pendingRespawns (catchAt sampleMath 0 0 chaseRoom)) = 2%nat.
Proof.
  split; [reflexivity|]. split; [reflexivity|].
  destruct (caught_players_return_to_checkpoint sampleMath 0 0 chaser
              (playerEntity dog (mkPos 5 (11 # 2) 0)) chaseRoom
              eq_refl eq_refl eq_refl) as (He & Hq & _);
    [vm_compute; reflexivity|].
  rewrite He, Hq. split; vm_compute; reflexivity.
Defined.

(** The lift reaches the upper end of its path and turns round. *)
Lemma platform_stays_on_its_track_witness :
  interactables liftRoom !! 0%nat = Some lift
  /\ exists p', interactables (updatePlatforms liftRoom) !! 0%nat = Some p'
                /\ numField (i_state p') "currentPosition" = 1%Q
                /\ numField (i_state p') "direction" = (-1)%Q
                /\ i_position p'
                   = mkPos (lerp 2 2 1) (lerp 2 2 1) (lerp 0 2 1).
Proof.
  split; [reflexivity|].
  destruct (platform_stays_on_its_track liftRoom 0 lift eq_refl)
    as (p' & Hp' & _ & Hruns).
  exists p'. split; [exact Hp'|].
  destruct (Hruns eq_refl (mkPos 2 2 0) (mkPos 2 2 2) [] eq_refl)
    as (_ & Hpos & Htop & _).
  destruct Htop as [Ht Hd]; [vm_compute; discriminate|].
  split; [exact Ht|]. split; [exact Hd|].
  rewrite Hpos, Ht. reflexivity.
Defined.

(** The winch of the sample room reaches full extension and stops. *)
Lemma winch_extension_is_capped_witness :
  exists w', interactables (updateWinches winchRoom) !! 1%nat = Some w'
             /\ numField (i_state w') "extended" = 1%Q
             /\ getField (i_state w') "operating" = JBool false.
Proof.
  destruct (winch_extension_is_capped winchRoom 1 winch1 eq_refl eq_refl)
    as (w' & Hw & _ & _ & Hop & _).
  exists w'. split; [exact Hw|].
  destruct Hop as (He & _ & _ & Hfull); [vm_compute; reflexivity..|].
  destruct Hfull as [H1 Hf]; [vm_compute; discriminate|].
  split; [|exact Hf]. rewrite He. exact H1.
Defined.

(** ... and the lift is put on its upper waypoint. *)
Lemma full_winch_raises_its_platforms_witness :
  exists p', getI "lift_1" (interactables (updateWinches winchRoom)) = Some p'
             /\ getField (i_state p') "currentPosition" = JNum 1
             /\ i_position p' = mkPos 2 2 2.
Proof.
  destruct (full_winch_raises_its_platforms winchRoom 1 winch1 lift "lift_1"
              eq_refl eq_refl)
    as (p' & Hp & _ & Hc & _ & _ & Hpos).
  - vm_compute. reflexivity.
  - vm_compute. reflexivity.
  - vm_compute. discriminate.
  - apply list_elem_of_singleton. reflexivity.
  - vm_compute. reflexivity.
  - reflexivity.
  - exists p'. split; [exact Hp|]. split; [exact Hc|].
    exact (Hpos (mkPos 2 2 0) (mkPos 2 2 2) [] eq_refl).
Defined.

(** The push of the sample crate, and its callback fired. *)
Lemma push_callback_clears_flag_witness :
  success (handleInteraction "p2" "crate_1" "push" crateRoom).2 = true
  /\ timeouts (fireTimeout 0 pushedRoom) = []
  /\ exists c2,
       getI "crate_1" (interactables (fireTimeout 0 pushedRoom)) = Some c2
       /\ getField (i_state c2) "beingPushed" = JBool false.
Proof.
  assert (Hs : success (handleInteraction "p2" "crate_1" "push" crateRoom).2
               = true) by (vm_compute; reflexivity).
  assert (Hp : players crateRoom !! "p2" = Some panda)
    by (vm_compute; reflexivity).
  assert (Hc : getI "crate_1" (interactables crateRoom) = Some crate1)
    by (vm_compute; reflexivity).
  split; [exact Hs|].
  destruct (push_callback_clears_flag crateRoom "p2" "crate_1" crate1
              Hp Hc eq_refl Hs)
    as (_ & Ht & c1 & c2 & _ & H2 & _ & _ & Hf & _).
  split; [exact Ht|]. exists c2. split; [exact H2|exact Hf].
Defined.

(** The dog steps on the plate: the spikes are switched off. *)
Lemma plate_switches_its_hazard_witness :
  exists h',
    getI "spikes_1" (interactables (updatePressurePlates sampleMath trapRoom))
    = Some h'
    /\ getField (i_state h') "active" = JBool false.
Proof.
  destruct (plate_switches_its_hazard sampleMath trapRoom 0 trapPlate spikes
              "spikes_1" eq_refl eq_refl)
    as [_ H].
  - apply list_elem_of_singleton. reflexivity.
  - vm_compute. reflexivity.
  - reflexivity.
  - intros [|[|k]] q Hq Hty Hin; [reflexivity| |].
    + vm_compute in Hq. injection Hq as <-. discriminate Hty.
    + discriminate Hq.
  - destruct H as (h' & Hh & Ha); [vm_compute; reflexivity|].
    exists h'. split; [exact Hh|].
    refine (eq_trans Ha _). vm_compute. reflexivity.
Defined.

(** The vault puzzle is completed and the locked door opens. *)
Lemma completed_puzzle_opens_its_reward_witness :
  exists d',
    getI "door_1" (interactables (checkPuzzleCompletion vaultRoom)) = Some d'
    /\ getField (i_state d') "open" = JBool true
    /\ getField (i_state d') "locked" = JBool false.
Proof.
  destruct (completed_puzzle_opens_its_reward vaultRoom vaultData vaultPuzzle
              [] (freshPuzzleState vaultPuzzle) eq_refl eq_refl)
    as [_ H].
  - vm_compute. reflexivity.
  - reflexivity.
  - constructor; [right; vm_compute; reflexivity|constructor].
  - apply (H "door_1" lockedDoor);
      [reflexivity|discriminate|vm_compute; reflexivity|reflexivity].
Defined.

(** Four players try the room of ann; ann leaves in between. *)
Lemma lobby_holds_two_players_of_distinct_roles_witness :
  let o := foldl applyOp (newRoom 0 "ABCD" "vault" "ann")
             [Join "bob" panda; Join "cy" panda; Leave "ann";
              Join "dee" dog] in
  (size (players (sim o)) <= 2)%nat
  /\ getPlayerRole "bob" o = Some panda
  /\ getPlayerRole "dee" o = Some dog
  /\ forall id, getPlayerRole id o = Some panda -> id = "bob".
Proof.
  intros o.
  destruct (lobby_holds_two_players_of_distinct_roles 0 "ABCD" "vault" "ann"
              [Join "bob" panda; Join "cy" panda; Leave "ann";
               Join "dee" dog])
    as (Hs & Hr & _).
  - discriminate.
  - intros Hin. apply list_elem_of_In in Hin. simpl in Hin.
    destruct Hin as [Hin|[Hin|[Hin|[]]]]; discriminate Hin.
  - assert (Hb : getPlayerRole "bob" o = Some panda)
      by (vm_compute; reflexivity).
    split; [exact Hs|]. split; [exact Hb|].
    split; [vm_compute; reflexivity|].
    intros id Hid. exact (Hr id "bob" panda Hid Hb).
Defined.

(** In the room of ann and bob the only entity is bob's panda, and an
    input of ann is dropped. *)
Lemma creator_is_given_no_entity_witness :
  getPlayerRole "ann" lobbyOfTwo = Some dog
  /\ length (entities (sim lobbyOfTwo)) = 1%nat
  /\ Forall (fun e => e_type e = panda /\ e_id e = "panda_entity")
       (entities (sim lobbyOfTwo))
  /\ handleInput sampleConstants "ann" 1 stillInput (mkPos 3 3 0)
       (sim lobbyOfTwo)
     = sim lobbyOfTwo.
Proof.
  destruct (creator_is_given_no_entity sampleConstants 0 "ABCD" "vault" "ann"
              [("bob", panda)])
    as (Hr & He & Hi).
  - discriminate.
  - constructor; [split; discriminate|constructor].
  - split; [exact Hr|]. split; [reflexivity|]. split; [exact He|].
    exact (Hi 1%Z stillInput (mkPos 3 3 0)).
Defined.

(** bob asks for the dog and is made the panda. *)
Lemma second_player_is_the_panda_witness :
  (joinRoom (fun s => s) "ABCD" "bob" (Some dog)
     (<["ABCD" := newRoom 0 "ABCD" "vault" "ann"]> ∅)).2
  = {| jr_success := true; jr_role := Some panda; jr_error := None;
       jr_errorCode := None |}.
Proof.
  refine (proj1 (second_player_is_the_panda (fun s => s) 0 "ABCD" "vault"
                   "ann" "bob" (Some dog) ∅ eq_refl _ _ _)); discriminate.
Defined.

(** Starting the room of ann and bob loads the vault. *)
Lemma startGame_loads_the_level_afresh_witness :
  startGame sampleRegistry 2000 (startGame sampleRegistry 1000 lobbyOfTwo)
  = startGame sampleRegistry 2000 lobbyOfTwo
  /\ interactables (sim (startGame sampleRegistry 1000 lobbyOfTwo))
     = [lockedDoor; lever1]
  /\ map e_position (entities (sim (startGame sampleRegistry 1000 lobbyOfTwo)))
     = [mkPos 2 1 0].
Proof.
  destruct (startGame_loads_the_level_afresh sampleRegistry vaultLevel
              1000 2000 lobbyOfTwo eq_refl)
    as (Hi & _ & _ & _ & _ & Hits & _ & _ & He & _).
  split; [exact Hi|].
  split; [rewrite Hits|rewrite He]; vm_compute; reflexivity.
Defined.
